(** * SegCraft: a shallow embedding of the content-source parsers, the
    model-output extractor, the response schema, the format-limit enforcer
    and the generation orchestrator, with the properties proved of them.

    Sources embedded:
    - [src/segcraft/content_source.py]  (module [ContentSource])
    - [src/segcraft/schemas.py]         (module [Schemas])
    - [src/segcraft/llm_client.py]      (module [LlmClient])

    Python values are modelled as the interpreter has them: a [str] is a
    sequence of Unicode code points, an [int] is an unbounded integer, a
    [dict] built by [json.loads] is an insertion-ordered association list,
    and an exception is a value of [exn] returned through [result]. *)

From Stdlib Require Import String Ascii ZArith NArith List Lia Bool.
From Stdlib Require Import Numbers.DecimalString.
From stdpp Require Import base option list gmap.

Set Warnings "-register-all".
Open Scope Z_scope.

(* ===================================================================== *)
(** * Python builtins used by the sources *)
(* ===================================================================== *)

Module Py.

(** A character is a Unicode code point; a [str] is a list of them, so
    that [len] counts code points as Python does. *)
Definition char := N.
Definition str := list char.

(** Decoding of the UTF-8 bytes of a source literal into code points. *)
Fixpoint utf8_decode (bs : list N) : str :=
  match bs with
  | [] => []
  | b0 :: r0 =>
    if (b0 <? 128)%N then b0 :: utf8_decode r0 else
    match r0 with
    | [] => [b0]
    | b1 :: r1 =>
      if (b0 <? 224)%N
      then ((b0 mod 32) * 64 + b1 mod 64)%N :: utf8_decode r1 else
      match r1 with
      | [] => [b0; b1]
      | b2 :: r2 =>
        if (b0 <? 240)%N
        then ((b0 mod 16) * 4096 + (b1 mod 64) * 64 + b2 mod 64)%N
               :: utf8_decode r2 else
        match r2 with
        | [] => [b0; b1; b2]
        | b3 :: r3 =>
          ((b0 mod 8) * 262144 + (b1 mod 64) * 4096
             + (b2 mod 64) * 64 + b3 mod 64)%N :: utf8_decode r3
        end
      end
    end
  end.

(** A literal of the source text. *)
Definition lit (s : string) : str :=
  utf8_decode (map N_of_ascii (list_ascii_of_string s)).

(** The same, for literals that contain the double quote: it is written
    as a backquote in the Rocq text and replaced here. *)
Definition litq (s : string) : str :=
  map (fun c => if (c =? 96)%N then 34%N else c) (lit s).

Definition len (s : str) : Z := Z.of_nat (length s).

(** The newline character as a one-character [str]. *)
Definition nl : str := [10%N].

Definition str_eqb (a b : str) : bool := bool_decide (a = b).

(** [str.isspace] on one character: the code points Python treats as
    whitespace in [strip], [rstrip] and [int]. *)
Definition is_space (c : char) : bool :=
  ((9 <=? c) && (c <=? 13) || (28 <=? c) && (c <=? 32)
   || (c =? 133) || (c =? 160) || (c =? 5760)
   || (8192 <=? c) && (c <=? 8202)
   || (c =? 8232) || (c =? 8233) || (c =? 8239) || (c =? 8287)
   || (c =? 12288))%N.

(** The line boundaries of [str.splitlines]. *)
Definition is_linebreak (c : char) : bool :=
  ((10 <=? c) && (c <=? 13) || (28 <=? c) && (c <=? 30)
   || (c =? 133) || (c =? 8232) || (c =? 8233))%N.

Fixpoint lstrip (s : str) : str :=
  match s with
  | [] => []
  | c :: r => if is_space c then lstrip r else s
  end.

Fixpoint rstrip (s : str) : str :=
  match s with
  | [] => []
  | c :: r =>
    match rstrip r with
    | [] => if is_space c then [] else [c]
    | r' => c :: r'
    end
  end.

Definition strip (s : str) : str := lstrip (rstrip s).

(** [s.strip("`")] and friends: strip a given character on both sides. *)
Fixpoint lstrip_char (x : char) (s : str) : str :=
  match s with
  | [] => []
  | c :: r => if (c =? x)%N then lstrip_char x r else s
  end.

Fixpoint rstrip_char (x : char) (s : str) : str :=
  match s with
  | [] => []
  | c :: r =>
    match rstrip_char x r with
    | [] => if (c =? x)%N then [] else [c]
    | r' => c :: r'
    end
  end.

Definition strip_char (x : char) (s : str) : str :=
  lstrip_char x (rstrip_char x s).

(** [s[:k]] for an integer [k] of either sign. *)
Definition slice_to (k : Z) (s : str) : str :=
  if 0 <=? k then take (Z.to_nat k) s
  else take (length s - Z.to_nat (- k)) s.

Fixpoint startswith (p s : str) : bool :=
  match p, s with
  | [], _ => true
  | _ :: _, [] => false
  | a :: p', b :: s' => (a =? b)%N && startswith p' s'
  end.

(** [str.splitlines()]. *)
Fixpoint splitlines (s : str) : list str :=
  match s with
  | [] => []
  | c :: r =>
    if is_linebreak c then
      match r with
      | c' :: r' =>
        if ((c =? 13) && (c' =? 10))%N then [] :: splitlines r'
        else [] :: splitlines r
      | [] => [[]]
      end
    else
      match splitlines r with
      | [] => [[c]]
      | l :: ls => (c :: l) :: ls
      end
  end.

(** [sep.join(parts)]. *)
Fixpoint join (sep : str) (parts : list str) : str :=
  match parts with
  | [] => []
  | [p] => p
  | p :: ps => p ++ sep ++ join sep ps
  end.

(** [x in s] for a one-character [x]. *)
Definition contains_char (x : char) (s : str) : bool :=
  existsb (fun c => (c =? x)%N) s.

(** [s.split(x, 1)] when [x] occurs in [s]: the text before the first
    occurrence and the text after it. *)
Fixpoint split_once (x : char) (s : str) : str * str :=
  match s with
  | [] => ([], [])
  | c :: r =>
    if (c =? x)%N then ([], r)
    else let '(a, b) := split_once x r in (c :: a, b)
  end.

(** [s.split(x)] for a one-character separator. *)
Fixpoint split_all (x : char) (s : str) : list str :=
  match s with
  | [] => [[]]
  | c :: r =>
    if (c =? x)%N then [] :: split_all x r
    else
      match split_all x r with
      | [] => [[c]]
      | p :: ps => (c :: p) :: ps
      end
  end.

(** [sub in s]. *)
Fixpoint contains (sub s : str) : bool :=
  startswith sub s
  || match s with
     | [] => false
     | _ :: r => contains sub r
     end.

(** [s.find(x)] for a one-character [x]: the suffix of [s] that starts
    at the first occurrence, or [None] for -1. *)
Fixpoint find_from (x : char) (s : str) : option str :=
  match s with
  | [] => None
  | c :: r => if (c =? x)%N then Some s else find_from x r
  end.

(** [s.replace(old, "", 1)]: delete the first occurrence of [old]. *)
Fixpoint remove_first (old s : str) : str :=
  match s with
  | [] => []
  | c :: r =>
    if startswith old s then drop (length old) s
    else c :: remove_first old r
  end.

(** [str(n)] for an integer. *)
Definition str_of_int (n : Z) : str :=
  lit (NilZero.string_of_int (Z.to_int n)).

(** The ASCII digits. *)
Definition is_digit (c : char) : bool := ((48 <=? c) && (c <=? 57))%N.

(** The digit zero of every decimal digit system of Unicode (the
    characters of general category Nd, Unicode 14.0): each zero is
    followed by its digits one to nine. *)
Definition decimal_zeros : list N :=
  [48; 1632; 1776; 1984; 2406; 2534; 2662; 2790; 2918; 3046; 3174;
    3302; 3430; 3558; 3664; 3792; 3872; 4160; 4240; 6112; 6160; 6470;
    6608; 6784; 6800; 6992; 7088; 7232; 7248; 42528; 43216; 43264;
    43472; 43504; 43600; 44016; 65296; 66720; 68912; 69734; 69872;
    69942; 70096; 70384; 70736; 70864; 71248; 71360; 71472; 71904;
    72016; 72784; 73040; 73120; 92768; 92864; 93008; 120782; 120792;
    120802; 120812; 120822; 123200; 123632; 125264; 130032]%N.

(** [unicodedata.decimal(c)]: the value of a decimal digit of any
    script. *)
Definition decimal_value (c : char) : option N :=
  (fun zero => (c - zero)%N)
    <$> List.find (fun zero => ((zero <=? c) && (c <=? zero + 9))%N)
          decimal_zeros.

(** A decimal digit of any script: what [int] reads as a digit, and the
    class [\d] of a pattern. *)
Definition is_decimal (c : char) : bool :=
  match decimal_value c with
  | Some _ => true
  | None => false
  end.

(** The whitespace [int] skips around a literal: the whitespace of C
    among the ASCII characters, and the Unicode whitespace outside
    them. The separators U+001C to U+001F, which [strip] removes, are
    not skipped. *)
Definition is_int_space (c : char) : bool :=
  ((9 <=? c) && (c <=? 13) || (c =? 32) || (128 <=? c) && is_space c)%N.

Fixpoint int_lstrip (s : str) : str :=
  match s with
  | [] => []
  | c :: r => if is_int_space c then int_lstrip r else s
  end.

Fixpoint int_rstrip (s : str) : str :=
  match s with
  | [] => []
  | c :: r =>
    match int_rstrip r with
    | [] => if is_int_space c then [] else [c]
    | r' => c :: r'
    end
  end.

(** The digits of an integer literal as their values, most significant
    first; a single underscore is allowed between two digits. *)
Fixpoint literal_digits (after_digit : bool) (s : str) : option (list N) :=
  match s with
  | [] => if after_digit then Some [] else None
  | c :: r =>
    match decimal_value c with
    | Some d => cons d <$> literal_digits true r
    | None =>
      if ((c =? 95)%N && after_digit)%bool then
        match r with
        | c' :: _ => if is_decimal c' then literal_digits false r else None
        | [] => None
        end
      else None
    end
  end.

Definition digits_value (digits : list N) : Z :=
  fold_left (fun acc d => 10 * acc + Z.of_N d) digits 0.

(** The number of digits above which the interpreter refuses to read an
    [int] from text (the default of [sys.set_int_max_str_digits], which
    the sources do not change). *)
Definition int_max_str_digits : nat := 4300.

(** The digits after the sign, within the limit. *)
Definition unsigned_of_str (s : str) : option Z :=
  match literal_digits false s with
  | Some digits =>
    if (int_max_str_digits <? length digits)%nat then None
    else Some (digits_value digits)
  | None => None
  end.

(** [int(s)] for a [str] in base ten; [None] stands for [ValueError]:
    the text is no integer literal, or it has more digits than the
    interpreter reads. *)
Definition int_of_str (s : str) : option Z :=
  match int_lstrip (int_rstrip s) with
  | [] => None
  | c :: r =>
    if (c =? 45)%N then Z.opp <$> unsigned_of_str r
    else if (c =? 43)%N then unsigned_of_str r
    else unsigned_of_str (c :: r)
  end.

(** The text of the [ValueError] for an integer of too many digits. *)
Definition digits_limit_message (digits : nat) : str :=
  lit "Exceeds the limit (4300 digits) for integer string conversion: "
    ++ lit "value has " ++ str_of_int (Z.of_nat digits)
    ++ lit " digits; use sys.set_int_max_str_digits() to increase the limit".

(** Exceptions raised by the sources and by the library calls they make. *)
Inductive exn :=
| TypeError
| AttributeError
| KeyError (key : str)
| ValueError (msg : str)
| RecursionError
| JSONDecodeError (msg : str)
| ValidationError (loc : list str) (msg : str)
| APIError
| LLMClientError (msg : str)
| LLMValidationError (msg : str).

Inductive result (A : Type) :=
| Ok (a : A)
| Raise (e : exn).
Arguments Ok {A} a.
Arguments Raise {A} e.

Definition bind {A B} (m : result A) (k : A -> result B) : result B :=
  match m with
  | Ok a => k a
  | Raise e => Raise e
  end.

(** A [for] loop whose body may raise: the first exception ends it. *)
Fixpoint for_each {A B} (f : A -> result B) (l : list A) : result (list B) :=
  match l with
  | [] => Ok []
  | x :: r =>
    bind (f x) (fun y => bind (for_each f r) (fun ys => Ok (y :: ys)))
  end.

End Py.

Import Py.

Notation "'let*' x ':=' m 'in' k" := (Py.bind m (fun x => k))
  (at level 10, x pattern, m at level 100, k at level 200).

(* ===================================================================== *)
(** * JSON documents as Python objects *)
(* ===================================================================== *)

Module Json.

(** The Python value [json.loads] builds. A number with a fraction or an
    exponent is kept as its lexeme: its floating-point value is not
    modelled. A [dict] keeps its keys in insertion order. Such a value
    is a tree: no list or dict occurs in it twice, so that a function
    that mutates a payload in place is modelled by the function from the
    payload before to the payload after. *)
Inductive json :=
| JNull
| JBool (b : bool)
| JInt (n : Z)
| JFloat (lexeme : str)
| JStr (s : str)
| JList (l : list json)
| JDict (d : list (str * json)).

Definition dict := list (str * json).

(** [d.get(k)]. *)
Fixpoint dict_get (d : dict) (k : str) : option json :=
  match d with
  | [] => None
  | (k', v) :: r => if str_eqb k' k then Some v else dict_get r k
  end.

(** [d[k] = v]: an existing key keeps its position. *)
Fixpoint dict_set (d : dict) (k : str) (v : json) : dict :=
  match d with
  | [] => [(k, v)]
  | (k', v') :: r =>
    if str_eqb k' k then (k', v) :: r else (k', v') :: dict_set r k v
  end.

(** [d.setdefault(k, v)], for its effect on [d]. *)
Definition dict_setdefault (d : dict) (k : str) (v : json) : dict :=
  match dict_get d k with
  | Some _ => d
  | None => dict_set d k v
  end.

(** [x.get(k, dflt)] on an arbitrary object: only a [dict] has [get]. *)
Definition get_or (x : json) (k : str) (dflt : json) : result json :=
  match x with
  | JDict d => Ok (default dflt (dict_get d k))
  | _ => Raise AttributeError
  end.

(** [len(x)]. *)
Definition py_len (x : json) : result Z :=
  match x with
  | JStr s => Ok (len s)
  | JList l => Ok (Z.of_nat (length l))
  | JDict d => Ok (Z.of_nat (length d))
  | _ => Raise TypeError
  end.

(** [for item in x: body(item)] where the body mutates [item] in place.
    A list holds the mutated items afterwards; the items of a [str] (its
    characters) and of a [dict] (its keys) are immutable strings, so the
    container is left as it was. *)
Definition update_items (body : json -> result json) (x : json)
  : result json :=
  match x with
  | JList l => let* l' := for_each body l in Ok (JList l')
  | JStr s =>
    let* _ := for_each body (map (fun c => JStr [c]) s) in Ok x
  | JDict d =>
    let* _ := for_each body (map (fun kv => JStr (fst kv)) d) in Ok x
  | _ => Raise TypeError
  end.

(** [for item in d.get(k, []): body(item)]. *)
Definition update_field (body : json -> result json) (d : dict) (k : str)
  : result dict :=
  match dict_get d k with
  | None => Ok d
  | Some x => let* x' := update_items body x in Ok (dict_set d k x')
  end.

(** ** [json.loads] *)

(** The whitespace the decoder skips between tokens. *)
Definition is_json_ws (c : char) : bool :=
  ((c =? 32) || (c =? 9) || (c =? 10) || (c =? 13))%N.

Fixpoint skip_ws (s : str) : str :=
  match s with
  | [] => []
  | c :: r => if is_json_ws c then skip_ws r else s
  end.

Definition hex_value (c : char) : option N :=
  if ((48 <=? c) && (c <=? 57))%N then Some (c - 48)%N
  else if ((65 <=? c) && (c <=? 70))%N then Some (c - 55)%N
  else if ((97 <=? c) && (c <=? 102))%N then Some (c - 87)%N
  else None.

(** The four hexadecimal digits of a [\uXXXX] escape. *)
Definition hex4 (a b c d : char) : option N :=
  match hex_value a, hex_value b, hex_value c, hex_value d with
  | Some x, Some y, Some z, Some w =>
    Some (x * 4096 + y * 256 + z * 16 + w)%N
  | _, _, _, _ => None
  end.

(** The character a one-letter escape stands for. *)
Definition unescape (c : char) : option char :=
  if (c =? 34)%N then Some 34%N          (* quote *)
  else if (c =? 92)%N then Some 92%N     (* backslash *)
  else if (c =? 47)%N then Some 47%N     (* slash *)
  else if (c =? 98)%N then Some 8%N      (* b *)
  else if (c =? 102)%N then Some 12%N    (* f *)
  else if (c =? 110)%N then Some 10%N    (* n *)
  else if (c =? 114)%N then Some 13%N    (* r *)
  else if (c =? 116)%N then Some 9%N     (* t *)
  else None.

Definition decode_error (msg : string) : exn := JSONDecodeError (lit msg).

Definition cons_char (c : char) (m : result (str * str))
  : result (str * str) :=
  let* (v, rest) := m in Ok (c :: v, rest).

(** The body of a string literal after its opening quote, in strict mode:
    the decoded characters and the text after the closing quote. *)
Fixpoint scanstring (s : str) : result (str * str) :=
  match s with
  | [] => Raise (decode_error "Unterminated string starting at")
  | c :: r =>
    if (c =? 34)%N then Ok ([], r)
    else if (c =? 92)%N then
      match r with
      | [] => Raise (decode_error "Unterminated string starting at")
      | e :: r1 =>
        if (e =? 117)%N then
          match r1 with
          | h1 :: h2 :: h3 :: h4 :: r2 =>
            match hex4 h1 h2 h3 h4 with
            | None => Raise (decode_error "Invalid \uXXXX escape")
            | Some uni =>
              if ((55296 <=? uni) && (uni <=? 56319))%N then
                match r2 with
                | b :: u :: r3 =>
                  if ((b =? 92) && (u =? 117))%N then
                    match r3 with
                    | g1 :: g2 :: g3 :: g4 :: r4 =>
                      match hex4 g1 g2 g3 g4 with
                      | None => Raise (decode_error "Invalid \uXXXX escape")
                      | Some uni2 =>
                        if ((56320 <=? uni2) && (uni2 <=? 57343))%N
                        then cons_char
                               (65536 + (uni - 55296) * 1024
                                + (uni2 - 56320))%N
                               (scanstring r4)
                        else cons_char uni (scanstring r2)
                      end
                    | _ => Raise (decode_error "Invalid \uXXXX escape")
                    end
                  else cons_char uni (scanstring r2)
                | _ => cons_char uni (scanstring r2)
                end
              else cons_char uni (scanstring r2)
            end
          | _ => Raise (decode_error "Invalid \uXXXX escape")
          end
        else
          match unescape e with
          | Some ch => cons_char ch (scanstring r1)
          | None => Raise (decode_error "Invalid \escape")
          end
      end
    else if (c <? 32)%N then
      Raise (decode_error "Invalid control character at")
    else cons_char c (scanstring r)
  end.

(** The longest prefix of decimal digits, and the rest. *)
Fixpoint span_digits (s : str) : str * str :=
  match s with
  | [] => ([], [])
  | c :: r =>
    if is_digit c then let '(d, rest) := span_digits r in (c :: d, rest)
    else ([], s)
  end.

Definition digits_to_Z (d : str) : Z :=
  foldl (fun acc c => 10 * acc + Z.of_N (c - 48)) 0 d.

(** The integer part of a number: [0] or a digit sequence that does not
    start with [0]. *)
Definition scan_int_part (s : str) : option (str * str) :=
  match s with
  | c :: r =>
    if (c =? 48)%N then Some ([c], r)
    else if is_digit c then Some (span_digits s)
    else None
  | [] => None
  end.

(** An optional fraction [.digits]. *)
Definition scan_frac (s : str) : str * str :=
  match s with
  | c :: r =>
    if (c =? 46)%N then
      match span_digits r with
      | ([], _) => ([], s)
      | (d, rest) => (c :: d, rest)
      end
    else ([], s)
  | [] => ([], s)
  end.

(** An optional exponent [e], sign, digits. *)
Definition scan_exp (s : str) : str * str :=
  match s with
  | c :: r =>
    if ((c =? 101) || (c =? 69))%N then
      let '(sign, r') :=
        match r with
        | x :: r'' => if ((x =? 43) || (x =? 45))%N then ([x], r'') else ([], r)
        | [] => ([], r)
        end in
      match span_digits r' with
      | ([], _) => ([], s)
      | (d, rest) => (c :: sign ++ d, rest)
      end
    else ([], s)
  | [] => ([], s)
  end.

(** A number at the head of the text, if there is one. An integer of
    more digits than the interpreter reads makes the decoder fail with
    the [ValueError] of [int]; a number with a fraction or an exponent
    has no such limit. *)
Definition scan_number (s : str) : option (result (json * str)) :=
  let '(sign, s1) :=
    match s with
    | c :: r => if (c =? 45)%N then ([c], r) else ([], s)
    | [] => ([], s)
    end in
  match scan_int_part s1 with
  | None => None
  | Some (ip, s2) =>
    let '(frac, s3) := scan_frac s2 in
    let '(ex, s4) := scan_exp s3 in
    match frac, ex with
    | [], [] =>
      if (int_max_str_digits <? length ip)%nat
      then Some (Raise (ValueError (digits_limit_message (length ip))))
      else
        Some (Ok (JInt (if bool_decide (sign = []) then digits_to_Z ip
                        else - digits_to_Z ip), s4))
    | _, _ => Some (Ok (JFloat (sign ++ ip ++ frac ++ ex), s4))
    end
  end.

(** A fixed word at the head of the text. *)
Definition scan_word (w : string) (v : json) (s : str)
  : option (result (json * str)) :=
  if startswith (lit w) s then Some (Ok (v, drop (length (lit w)) s))
  else None.

(** The values that are neither strings nor containers, tried in the
    decoder's order. *)
Definition scan_atom (s : str) : option (result (json * str)) :=
  match scan_word "null" JNull s with
  | Some x => Some x
  | None =>
  match scan_word "true" (JBool true) s with
  | Some x => Some x
  | None =>
  match scan_word "false" (JBool false) s with
  | Some x => Some x
  | None =>
  match scan_number s with
  | Some x => Some x
  | None =>
  match scan_word "NaN" (JFloat (lit "NaN")) s with
  | Some x => Some x
  | None =>
  match scan_word "Infinity" (JFloat (lit "Infinity")) s with
  | Some x => Some x
  | None => scan_word "-Infinity" (JFloat (lit "-Infinity")) s
  end end end end end end.

(** The items of an array after its opening bracket, [acc] holding
    those read so far; [nested] reads one item. Every item takes at
    least one character, so the loop ends before [items] (the length of
    the text and one more, see [parse_array_items]) reaches zero. *)
Fixpoint parse_array (nested : str -> result (json * str)) (items : nat)
  (acc : list json) (s : str) : result (json * str) :=
  match items with
  | O => Raise RecursionError
  | S items' =>
    let* (v, rest) := nested s in
    match skip_ws rest with
    | c :: r =>
      if (c =? 93)%N then Ok (JList (acc ++ [v]), r)
      else if (c =? 44)%N
      then parse_array nested items' (acc ++ [v]) (skip_ws r)
      else Raise (decode_error "Expecting ',' delimiter")
    | [] => Raise (decode_error "Expecting ',' delimiter")
    end
  end.

(** The pairs of an object after the opening quote of a key, in the same
    way. *)
Fixpoint parse_object (nested : str -> result (json * str)) (items : nat)
  (acc : dict) (s : str) : result (json * str) :=
  match items with
  | O => Raise RecursionError
  | S items' =>
    let* (key, rest) := scanstring s in
    match skip_ws rest with
    | c :: r =>
      if (c =? 58)%N then
        let* (v, rest') := nested (skip_ws r) in
        let acc' := dict_set acc key v in
        match skip_ws rest' with
        | c' :: r' =>
          if (c' =? 125)%N then Ok (JDict acc', r')
          else if (c' =? 44)%N then
            match skip_ws r' with
            | c'' :: r'' =>
              if (c'' =? 34)%N then parse_object nested items' acc' r''
              else Raise (decode_error
                     "Expecting property name enclosed in double quotes")
            | [] => Raise (decode_error
                     "Expecting property name enclosed in double quotes")
            end
          else Raise (decode_error "Expecting ',' delimiter")
        | [] => Raise (decode_error "Expecting ',' delimiter")
        end
      else Raise (decode_error "Expecting ':' delimiter")
    | [] => Raise (decode_error "Expecting ':' delimiter")
    end
  end.

(** One value at the head of the text. The decoder enters a container
    by a recursive call: [nested] reads the values inside, and is [None]
    when the interpreter has no room for another call, in which case
    the opening bracket alone raises [RecursionError]. *)
Definition scan_value (nested : option (str -> result (json * str)))
  (s : str) : result (json * str) :=
  match s with
  | [] => Raise (decode_error "Expecting value")
  | c :: r =>
    if (c =? 34)%N then
      let* (v, rest) := scanstring r in Ok (JStr v, rest)
    else if (c =? 123)%N then
      match nested with
      | None => Raise RecursionError
      | Some inner =>
        match skip_ws r with
        | c' :: r' =>
          if (c' =? 125)%N then Ok (JDict [], r')
          else if (c' =? 34)%N
          then parse_object inner (S (length r')) [] r'
          else Raise (decode_error
                 "Expecting property name enclosed in double quotes")
        | [] => Raise (decode_error
                 "Expecting property name enclosed in double quotes")
        end
      end
    else if (c =? 91)%N then
      match nested with
      | None => Raise RecursionError
      | Some inner =>
        match skip_ws r with
        | c' :: r' =>
          if (c' =? 93)%N then Ok (JList [], r')
          else parse_array inner (S (length (c' :: r'))) [] (c' :: r')
        | [] => Raise (decode_error "Expecting value")
        end
      end
    else
      match scan_atom s with
      | Some x => x
      | None => Raise (decode_error "Expecting value")
      end
  end.

(** The decoder proper: [room] is the number of containers, one inside
    the other, that the interpreter can still enter. *)
Fixpoint scan_once (room : nat) (s : str) : result (json * str) :=
  match room with
  | O => scan_value None s
  | S room' => scan_value (Some (scan_once room')) s
  end.

(** [json.loads(s)] for a [str]: one value, surrounded by whitespace
    only. The exception carries the decoder's message without the
    position that follows it in Python. *)
Definition loads (room : nat) (s : str) : result json :=
  if startswith [65279%N] s then
    Raise (decode_error "Unexpected UTF-8 BOM (decode using utf-8-sig)")
  else
    let* (v, rest) := scan_once room (skip_ws s) in
    match skip_ws rest with
    | [] => Ok v
    | _ :: _ => Raise (decode_error "Extra data")
    end.

End Json.

Import Json.

(* ===================================================================== *)
(** * src/segcraft/content_source.py *)
(* ===================================================================== *)

Module ContentSource.

(** [parse_key_values]: the loop body, then the loop. *)
Definition parse_key_values_step (result : gmap str str) (line : str)
  : gmap str str :=
  let stripped := strip line in
  if bool_decide (stripped = []) || startswith (lit "#") stripped then result
  else if negb (contains_char 61%N stripped) then result
  else
    let '(key, value) := split_once 61%N stripped in
    <[strip key := strip value]> result.

Definition parse_key_values (block : str) : gmap str str :=
  foldl parse_key_values_step ∅ (splitlines block).

(** [kv.get(key, dflt)] on the parsed block. *)
Definition kv_get (kv : gmap str str) (key : string) (dflt : str) : str :=
  default dflt (kv !! lit key).

(** [split_semicolon_list]: [None] and the empty string give []. *)
Definition split_semicolon_list (raw_value : option str) : list str :=
  match raw_value with
  | None => []
  | Some [] => []
  | Some v =>
    omap (fun item =>
            let s := strip item in
            if bool_decide (s = []) then None else Some s)
         (split_all 59%N v)
  end.

Record Segment := {
  segment_id : str;
  seg_name : str;
  who : str;
  job_to_be_done : str;
  pains : list str;
  triggers : list str;
  taboos : list str;
  tone_hint : str;
  cta_style : str;
  example_offer_adaptations : list str;
}.

(** The record appended at an [END] line of [parse_segments]. *)
Definition segment_of_buffer (buffer : list str) : Segment :=
  let kv := parse_key_values (join nl buffer) in
  {| segment_id := kv_get kv "id" [];
     seg_name := kv_get kv "name" [];
     who := kv_get kv "who" [];
     job_to_be_done := kv_get kv "job" (kv_get kv "job_to_be_done" []);
     pains := split_semicolon_list (kv !! lit "pains");
     triggers := split_semicolon_list (kv !! lit "triggers");
     taboos := split_semicolon_list (kv !! lit "taboos");
     tone_hint := kv_get kv "tone_hint" [];
     cta_style := kv_get kv "cta_style" [];
     example_offer_adaptations :=
       split_semicolon_list (kv !! lit "example_offer_adaptations") |}.

(** The local variables of the loop of [parse_segments]. *)
Record SegState := {
  segments : list Segment;
  buffer : list str;
  in_segment : bool;
}.

Definition parse_segments_step (st : SegState) (line : str) : SegState :=
  let stripped := strip line in
  if bool_decide (stripped = []) || startswith (lit "#") stripped then st
  else if str_eqb stripped (lit "SEGMENT") then
    {| segments := segments st; buffer := []; in_segment := true |}
  else if str_eqb stripped (lit "END") then
    {| segments :=
         if in_segment st
         then segments st ++ [segment_of_buffer (buffer st)]
         else segments st;
       buffer := [];
       in_segment := false |}
  else if in_segment st then
    {| segments := segments st;
       buffer := buffer st ++ [stripped];
       in_segment := true |}
  else st.

Definition parse_segments_init : SegState :=
  {| segments := []; buffer := []; in_segment := false |}.

(** The loop of [parse_segments] over the lines of the block. *)
Definition parse_segments_lines (lines : list str) : SegState :=
  foldl parse_segments_step parse_segments_init lines.

Definition parse_segments (section_text : str) : list Segment :=
  segments (parse_segments_lines (splitlines section_text)).

Record Limits := {
  headline_max : Z;
  body_max : Z;
}.

Record Format := {
  format_id : str;
  fmt_name : str;
  limits : Limits;
  output_template : str;
  notes : str;
}.

(** [int(s)]: the exception carries the rejected literal. *)
Definition py_int (s : str) : result Z :=
  match int_of_str s with
  | Some n => Ok n
  | None => Raise (ValueError s)
  end.

(** The record appended at an [END] line of [parse_formats]. *)
Definition format_of_buffer (buffer : list str) : result Format :=
  let kv := parse_key_values (join nl buffer) in
  let* headline_max := py_int (kv_get kv "headline_max" (lit "0")) in
  let* body_max := py_int (kv_get kv "body_max" (lit "0")) in
  let notes := kv_get kv "notes" [] in
  Ok {| format_id := kv_get kv "id" [];
        fmt_name := kv_get kv "name" [];
        limits := {| headline_max := headline_max; body_max := body_max |};
        output_template :=
          lit "Сделай headline до " ++ str_of_int headline_max
            ++ lit " символов и body до " ++ str_of_int body_max
            ++ lit " символов.";
        notes := notes |}.

Record FmtState := {
  formats : list Format;
  fmt_buffer : list str;
  in_format : bool;
}.

Definition parse_formats_step (st : FmtState) (line : str)
  : result FmtState :=
  let stripped := strip line in
  if bool_decide (stripped = []) || startswith (lit "#") stripped then Ok st
  else if str_eqb stripped (lit "FORMAT") then
    Ok {| formats := formats st; fmt_buffer := []; in_format := true |}
  else if str_eqb stripped (lit "END") then
    let* formats' :=
      if in_format st
      then let* f := format_of_buffer (fmt_buffer st) in
           Ok (formats st ++ [f])
      else Ok (formats st) in
    Ok {| formats := formats'; fmt_buffer := []; in_format := false |}
  else if in_format st then
    Ok {| formats := formats st;
          fmt_buffer := fmt_buffer st ++ [stripped];
          in_format := true |}
  else Ok st.

Definition parse_formats_init : FmtState :=
  {| formats := []; fmt_buffer := []; in_format := false |}.

(** The loop of [parse_formats]: the first exception ends it. *)
Fixpoint parse_formats_loop (st : FmtState) (lines : list str)
  : result FmtState :=
  match lines with
  | [] => Ok st
  | line :: rest =>
    let* st' := parse_formats_step st line in
    parse_formats_loop st' rest
  end.

Definition parse_formats (section_text : str) : result (list Format) :=
  let* st := parse_formats_loop parse_formats_init (splitlines section_text) in
  Ok (formats st).

(** The loop nest shared by [enforce_char_counts] and
    [ensure_format_limits]:
    [for segment in payload.get("segments", []):
       for copy in segment.get("copies", []): body(copy)].
    [on_segment] is the body of the outer loop. *)
Definition on_segment (body : json -> result json) (segment : json)
  : result json :=
  match segment with
  | JDict sd =>
    let* sd' := update_field body sd (lit "copies") in Ok (JDict sd')
  | _ => Raise AttributeError
  end.

Definition for_each_copy (body : json -> result json) (payload : dict)
  : result dict :=
  update_field (on_segment body) payload (lit "segments").

(** The body of the inner loop of [enforce_char_counts]. *)
Definition enforce_char_counts_body (copy : json) : result json :=
  let* headline := get_or copy (lit "headline") (JStr []) in
  let* body := get_or copy (lit "body") (JStr []) in
  let* h := py_len headline in
  let* b := py_len body in
  match copy with
  | JDict c =>
    let c1 :=
      dict_set c (lit "char_count")
        (JDict [(lit "headline", JInt h); (lit "body", JInt b)]) in
    Ok (JDict (dict_setdefault c1 (lit "risk_flags") (JList [])))
  | _ => Raise AttributeError
  end.

Definition enforce_char_counts (payload : dict) : result dict :=
  for_each_copy enforce_char_counts_body payload.

(** The risk flag appended to a truncated copy. *)
Definition overflow_flag : json :=
  JDict
    [(lit "type", JStr (lit "format_overflow"));
     (lit "note",
      JStr (lit "Текст был автоматически укорочен под лимит формата."));
     (lit "suggest_fix",
      JStr (lit "Сократить формулировку вручную и сохранить ключевую мысль без потери смысла."))].

(** [text[:limit].rstrip()]: a list can be sliced but has no [rstrip];
    a dict cannot be sliced. *)
Definition truncated (text : json) (limit : Z) : result json :=
  match text with
  | JStr s => Ok (JStr (rstrip (slice_to limit s)))
  | JList _ => Raise AttributeError
  | _ => Raise TypeError
  end.

(** The body of the inner loop of [ensure_format_limits]. *)
Definition ensure_format_limits_body (headline_max body_max : Z)
  (copy : json) : result json :=
  match copy with
  | JDict c =>
    let headline := default (JStr []) (dict_get c (lit "headline")) in
    let body := default (JStr []) (dict_get c (lit "body")) in
    let* hl := py_len headline in
    let* (c1, overflow1) :=
      if hl >? headline_max
      then let* t := truncated headline headline_max in
           Ok (dict_set c (lit "headline") t, true)
      else Ok (c, false) in
    let* bl := py_len body in
    let* (c2, overflow) :=
      if bl >? body_max
      then let* t := truncated body body_max in
           Ok (dict_set c1 (lit "body") t, true)
      else Ok (c1, overflow1) in
    if overflow then
      match dict_get c2 (lit "risk_flags") with
      | None =>
        Ok (JDict (dict_set c2 (lit "risk_flags") (JList [overflow_flag])))
      | Some (JList risk_flags) =>
        Ok (JDict (dict_set c2 (lit "risk_flags")
                     (JList (risk_flags ++ [overflow_flag]))))
      | Some _ => Raise AttributeError
      end
    else Ok (JDict c2)
  | _ => Raise AttributeError
  end.

(** [format_limits.get(format_id)]: the keys of the mapping are strings;
    a list or a dict cannot be hashed. *)
Definition limits_get (format_limits : gmap str (gmap str Z)) (key : json)
  : result (option (gmap str Z)) :=
  match key with
  | JStr s => Ok (format_limits !! s)
  | JList _ | JDict _ => Raise TypeError
  | _ => Ok None
  end.

(** [limits[key]]. *)
Definition limits_item (limits : gmap str Z) (key : str) : result Z :=
  match limits !! key with
  | Some v => Ok v
  | None => Raise (KeyError key)
  end.

Definition ensure_format_limits (payload : dict)
  (format_limits : gmap str (gmap str Z)) : result dict :=
  let input_echo := default (JDict []) (dict_get payload (lit "input_echo")) in
  let* format_id := get_or input_echo (lit "format_id") (JStr []) in
  let* limits := limits_get format_limits format_id in
  match limits with
  | None => Ok payload
  | Some limits =>
    if bool_decide (limits = ∅) then Ok payload
    else
      let* headline_max := limits_item limits (lit "headline_max") in
      let* body_max := limits_item limits (lit "body_max") in
      let* payload' :=
        for_each_copy (ensure_format_limits_body headline_max body_max)
          payload in
      enforce_char_counts payload'
  end.

End ContentSource.

(* ===================================================================== *)
(** * src/segcraft/schemas.py *)
(* ===================================================================== *)

Module Schemas.

(** ** The field validation pydantic performs for the declared types

    A validation failure is the exception [ValidationError loc msg]: the
    location of the offending value and the library's message for it.
    Where pydantic reports every failing field in one exception, the
    model reports the first in declaration order. An [int] field accepts
    a JSON integer; the conversions of lax mode (from a string of digits,
    a boolean or an integral float) are not modelled. *)

Definition invalid {A} (loc : list str) (msg : string) : result A :=
  Raise (ValidationError loc (lit msg)).

Definition validate_str (loc : list str) (v : json) : result str :=
  match v with
  | JStr s => Ok s
  | _ => invalid loc "Input should be a valid string"
  end.

Definition validate_int (loc : list str) (v : json) : result Z :=
  match v with
  | JInt n => Ok n
  | _ => invalid loc "Input should be a valid integer"
  end.

(** [int = Field(ge=lo)]. *)
Definition validate_int_ge (lo : Z) (loc : list str) (v : json)
  : result Z :=
  let* n := validate_int loc v in
  if n <? lo then
    Raise (ValidationError loc
             (lit "Input should be greater than or equal to "
                ++ str_of_int lo))
  else Ok n.

(** [int = Field(ge=lo, le=hi)]. *)
Definition validate_int_range (lo hi : Z) (loc : list str) (v : json)
  : result Z :=
  let* n := validate_int_ge lo loc v in
  if hi <? n then
    Raise (ValidationError loc
             (lit "Input should be less than or equal to "
                ++ str_of_int hi))
  else Ok n.

(** [Literal[...]] of strings. *)
Definition validate_literal (allowed : list str) (loc : list str) (v : json)
  : result str :=
  match v with
  | JStr s =>
    if existsb (str_eqb s) allowed then Ok s
    else invalid loc "Input should be one of the literal values"
  | _ => invalid loc "Input should be one of the literal values"
  end.

Fixpoint validate_items {A} (item : list str -> json -> result A)
  (loc : list str) (i : nat) (l : list json) : result (list A) :=
  match l with
  | [] => Ok []
  | v :: r =>
    let* x := item (loc ++ [str_of_int (Z.of_nat i)]) v in
    let* xs := validate_items item loc (S i) r in
    Ok (x :: xs)
  end.

(** [list[T]]. *)
Definition validate_list {A} (item : list str -> json -> result A)
  (loc : list str) (v : json) : result (list A) :=
  match v with
  | JList l => validate_items item loc 0 l
  | _ => invalid loc "Input should be a valid list"
  end.

(** The input of a model must be a [dict]. *)
Definition as_object (loc : list str) (v : json) : result dict :=
  match v with
  | JDict d => Ok d
  | _ =>
    invalid loc
      "Input should be a valid dictionary or object to extract fields from"
  end.

(** A field without a default. *)
Definition required {A} (validate : list str -> json -> result A)
  (loc : list str) (d : dict) (name : string) : result A :=
  match dict_get d (lit name) with
  | Some v => validate (loc ++ [lit name]) v
  | None => invalid (loc ++ [lit name]) "Field required"
  end.

(** A field with a default ([Field(default_factory=list)]). *)
Definition defaulted {A} (validate : list str -> json -> result A)
  (dflt : A) (loc : list str) (d : dict) (name : string) : result A :=
  match dict_get d (lit name) with
  | Some v => validate (loc ++ [lit name]) v
  | None => Ok dflt
  end.

(** The longest prefix of decimal digits, of any script, and the rest. *)
Fixpoint span_decimal (s : str) : str * str :=
  match s with
  | [] => ([], [])
  | c :: r =>
    if is_decimal c then let '(d, rest) := span_decimal r in (c :: d, rest)
    else ([], s)
  end.

(** [Field(pattern=r"^\d+\.\d+$")]: digits, a dot, digits and the end of
    the text; the class [\d] of the pattern holds the decimal digits of
    every script. *)
Definition version_matches (s : str) : bool :=
  let '(major, r) := span_decimal s in
  match major, r with
  | _ :: _, c :: r' =>
    let '(minor, r'') := span_decimal r' in
    (c =? 46)%N && negb (bool_decide (minor = []))
      && bool_decide (r'' = [])
  | _, _ => false
  end.

Definition validate_version (loc : list str) (v : json) : result str :=
  let* s := validate_str loc v in
  if version_matches s then Ok s
  else invalid loc "String should match pattern '^\d+\.\d+$'".

Definition ToneLiteral : list str :=
  [lit "friendly"; lit "neutral"; lit "formal"; lit "bold"].
Definition PriorityLiteral : list str := [lit "P0"; lit "P1"; lit "P2"].

(** ** The models *)

Module CharCount.
Record t := { headline : Z; body : Z }.

Definition model_validate (loc : list str) (v : json) : result t :=
  let* d := as_object loc v in
  let* headline := required (validate_int_ge 0) loc d "headline" in
  let* body := required (validate_int_ge 0) loc d "body" in
  Ok {| headline := headline; body := body |}.
End CharCount.

Module RiskFlag.
Record t := { type : str; note : str; suggest_fix : str }.

Definition model_validate (loc : list str) (v : json) : result t :=
  let* d := as_object loc v in
  let* type := required validate_str loc d "type" in
  let* note := required validate_str loc d "note" in
  let* suggest_fix := required validate_str loc d "suggest_fix" in
  Ok {| type := type; note := note; suggest_fix := suggest_fix |}.
End RiskFlag.

Module CopyVariant.
Record t := {
  headline : str;
  body : str;
  cta : str;
  rationale : str;
  char_count : CharCount.t;
  risk_flags : list RiskFlag.t;
}.

Definition validate_fields (loc : list str) (v : json) : result t :=
  let* d := as_object loc v in
  let* headline := required validate_str loc d "headline" in
  let* body := required validate_str loc d "body" in
  let* cta := required validate_str loc d "cta" in
  let* rationale := required validate_str loc d "rationale" in
  let* char_count := required CharCount.model_validate loc d "char_count" in
  let* risk_flags :=
    defaulted (validate_list RiskFlag.model_validate) [] loc d
      "risk_flags" in
  Ok {| headline := headline; body := body; cta := cta;
        rationale := rationale; char_count := char_count;
        risk_flags := risk_flags |}.

(** The [after] validator: the counters are overwritten. *)
Definition sync_char_count (self : t) : t :=
  {| headline := headline self;
     body := body self;
     cta := cta self;
     rationale := rationale self;
     char_count :=
       {| CharCount.headline := len (headline self);
          CharCount.body := len (body self) |};
     risk_flags := risk_flags self |}.

Definition model_validate (loc : list str) (v : json) : result t :=
  let* self := validate_fields loc v in
  Ok (sync_char_count self).
End CopyVariant.

Module SegmentOutput.
Record t := {
  segment_id : str;
  segment_name : str;
  core_insight : str;
  trigger : str;
  angle : str;
  copies : list CopyVariant.t;
  differences_note : str;
}.

Definition model_validate (loc : list str) (v : json) : result t :=
  let* d := as_object loc v in
  let* segment_id := required validate_str loc d "segment_id" in
  let* segment_name := required validate_str loc d "segment_name" in
  let* core_insight := required validate_str loc d "core_insight" in
  let* trigger := required validate_str loc d "trigger" in
  let* angle := required validate_str loc d "angle" in
  let* copies :=
    required (validate_list CopyVariant.model_validate) loc d "copies" in
  let* differences_note :=
    required validate_str loc d "differences_note" in
  Ok {| segment_id := segment_id; segment_name := segment_name;
        core_insight := core_insight; trigger := trigger; angle := angle;
        copies := copies; differences_note := differences_note |}.
End SegmentOutput.

Module QuestionItem.
Record t := { q : str; why : str; priority : str }.

Definition model_validate (loc : list str) (v : json) : result t :=
  let* d := as_object loc v in
  let* q := required validate_str loc d "q" in
  let* why := required validate_str loc d "why" in
  let* priority :=
    required (validate_literal PriorityLiteral) loc d "priority" in
  Ok {| q := q; why := why; priority := priority |}.
End QuestionItem.

Module GlobalRiskItem.
Record t := { risk : str; impact : str; mitigation : str }.

Definition model_validate (loc : list str) (v : json) : result t :=
  let* d := as_object loc v in
  let* risk := required validate_str loc d "risk" in
  let* impact := required validate_str loc d "impact" in
  let* mitigation := required validate_str loc d "mitigation" in
  Ok {| risk := risk; impact := impact; mitigation := mitigation |}.
End GlobalRiskItem.

Module ExportHints.
Record t := { how_to_use : list str; ab_test_suggestions : list str }.

Definition model_validate (loc : list str) (v : json) : result t :=
  let* d := as_object loc v in
  let* how_to_use :=
    required (validate_list validate_str) loc d "how_to_use" in
  let* ab_test_suggestions :=
    required (validate_list validate_str) loc d "ab_test_suggestions" in
  Ok {| how_to_use := how_to_use;
        ab_test_suggestions := ab_test_suggestions |}.
End ExportHints.

Module ExecSummary.
Record t := { for_marketer : str; for_non_tech_manager : str }.

Definition model_validate (loc : list str) (v : json) : result t :=
  let* d := as_object loc v in
  let* for_marketer := required validate_str loc d "for_marketer" in
  let* for_non_tech_manager :=
    required validate_str loc d "for_non_tech_manager" in
  Ok {| for_marketer := for_marketer;
        for_non_tech_manager := for_non_tech_manager |}.
End ExecSummary.

Module InputEcho.
Record t := {
  base_text : str;
  tone : str;
  format_id : str;
  variants_per_segment : Z;
  constraints : list str;
  assumptions : list str;
}.

Definition model_validate (loc : list str) (v : json) : result t :=
  let* d := as_object loc v in
  let* base_text := required validate_str loc d "base_text" in
  let* tone := required (validate_literal ToneLiteral) loc d "tone" in
  let* format_id := required validate_str loc d "format_id" in
  let* variants_per_segment :=
    required (validate_int_range 1 3) loc d "variants_per_segment" in
  let* constraints :=
    defaulted (validate_list validate_str) [] loc d "constraints" in
  let* assumptions :=
    defaulted (validate_list validate_str) [] loc d "assumptions" in
  Ok {| base_text := base_text; tone := tone; format_id := format_id;
        variants_per_segment := variants_per_segment;
        constraints := constraints; assumptions := assumptions |}.
End InputEcho.

Module SegCraftResponse.
Record t := {
  version : str;
  input_echo : InputEcho.t;
  questions : list QuestionItem.t;
  segments : list SegmentOutput.t;
  global_risks : list GlobalRiskItem.t;
  export_hints : ExportHints.t;
  exec_summary : ExecSummary.t;
}.

Definition validate_fields (loc : list str) (v : json) : result t :=
  let* d := as_object loc v in
  let* version := required validate_version loc d "version" in
  let* input_echo := required InputEcho.model_validate loc d "input_echo" in
  let* questions :=
    defaulted (validate_list QuestionItem.model_validate) [] loc d
      "questions" in
  let* segments :=
    required (validate_list SegmentOutput.model_validate) loc d
      "segments" in
  let* global_risks :=
    defaulted (validate_list GlobalRiskItem.model_validate) [] loc d
      "global_risks" in
  let* export_hints :=
    required ExportHints.model_validate loc d "export_hints" in
  let* exec_summary :=
    required ExecSummary.model_validate loc d "exec_summary" in
  Ok {| version := version; input_echo := input_echo;
        questions := questions; segments := segments;
        global_risks := global_risks; export_hints := export_hints;
        exec_summary := exec_summary |}.

(** The text of the [ValueError] of [validate_lengths]. *)
Definition lengths_message (expected : Z) (segment_id : str) : str :=
  lit "copies.length должна совпадать с variants_per_segment "
    ++ lit "(" ++ str_of_int expected ++ lit ") для segment_id="
    ++ segment_id.

(** The loop of [validate_lengths]. *)
Fixpoint validate_lengths_loop (expected : Z)
  (segments : list SegmentOutput.t) : result unit :=
  match segments with
  | [] => Ok tt
  | segment :: rest =>
    if negb (Z.of_nat (length (SegmentOutput.copies segment)) =? expected)
    then Raise (ValueError
                  (lengths_message expected
                     (SegmentOutput.segment_id segment)))
    else validate_lengths_loop expected rest
  end.

(** The [after] validator. *)
Definition validate_lengths (self : t) : result t :=
  let expected := InputEcho.variants_per_segment (input_echo self) in
  let* _ := validate_lengths_loop expected (segments self) in
  Ok self.

(** pydantic reports a [ValueError] raised by a validator as a
    validation failure of the model whose message starts with
    [Value error, ]. *)
Definition run_after_validator (loc : list str) (m : result t)
  : result t :=
  match m with
  | Raise (ValueError msg) =>
    Raise (ValidationError loc (lit "Value error, " ++ msg))
  | _ => m
  end.

(** [SegCraftResponse.model_validate(payload)]. *)
Definition model_validate (payload : json) : result t :=
  let* self := validate_fields [] payload in
  run_after_validator [] (validate_lengths self).
End SegCraftResponse.

End Schemas.

(* ===================================================================== *)
(** * src/segcraft/llm_client.py *)
(* ===================================================================== *)

Module LlmClient.

Import Schemas.

(** ** The world the client runs in *)

(** A call [client.responses.create(model=..., input=..., temperature=...)]. *)
Record Request := {
  req_model : str;
  req_input : str;
  req_temperature : str;
}.

(** What the provider returns: the [output_text] attribute (empty when
    absent), and the [output] items, each a list of contents whose [text]
    attribute is a string or missing. *)
Record Response := {
  output_text : str;
  output : list (list (option str));
}.

(** Who calls [load_mock_output]. *)
Inductive caller := by_run_generation | by_app.

(** The calls of [json.loads] in the program: in
    [_extract_first_json_object], in [parse_and_validate] and in
    [load_mock_output]. *)
Inductive loads_call :=
| extract_loads
| payload_loads
| mock_loads (c : caller).

(** The environment after [load_dotenv], the sample files on disk, the
    responses the provider will give to the calls still to come, the
    calls made so far, and the room for recursion: how many containers,
    one inside the other, the decoder can enter at each call of
    [json.loads] before the interpreter raises [RecursionError]. The
    number depends on the interpreter and on the depth of the call stack
    at the call, so the world gives one for each call; the calls the
    program makes itself are taken to fit. *)
Record World := {
  OPENAI_API_KEY : option str;
  MODEL_NAME : option str;
  openai_installed : bool;
  files : gmap str str;
  provider : list Response;
  calls : list Request;
  recursion_room : loads_call -> nat;
}.

(** A computation that reads and changes the world and may raise. *)
Definition io (A : Type) : Type := World -> result A * World.

Definition ret {A} (a : A) : io A := fun w => (Ok a, w).
Definition raise {A} (e : exn) : io A := fun w => (Raise e, w).
Definition iobind {A B} (m : io A) (k : A -> io B) : io B :=
  fun w =>
    match m w with
    | (Ok a, w') => k a w'
    | (Raise e, w') => (Raise e, w')
    end.
(** A computation that decodes JSON, run with the room the world has. *)
Definition decoding {A} (f : (loads_call -> nat) -> result A) : io A :=
  fun w => (f (recursion_room w), w).

Notation "'let+' x ':=' m 'in' k" := (iobind m (fun x => k))
  (at level 10, x pattern, m at level 100, k at level 200).

(** [try: body except caught as e: handler(e)]. *)
Definition try_except {A} (body : io A) (caught : exn -> bool)
  (handler : exn -> io A) : io A :=
  fun w =>
    match body w with
    | (Raise e, w') => if caught e then handler e w' else (Raise e, w')
    | ok => ok
    end.

(** [str(exc)] for the exceptions the handlers of [run_generation]
    receive. For a pydantic failure the text is the summary line, the
    location and the message; for a JSON failure it is the decoder's
    message. The details the libraries append after them (input value,
    documentation link, line and column) are left out, and so is the
    text of the exceptions that no handler of this module receives. *)
Definition exc_str (e : exn) : str :=
  match e with
  | JSONDecodeError msg => msg
  | ValidationError loc msg =>
    lit "1 validation error for SegCraftResponse" ++ nl
      ++ join (lit ".") loc ++ nl ++ lit "  " ++ msg
  | LLMClientError msg => msg
  | LLMValidationError msg => msg
  | ValueError msg => msg
  | _ => []
  end.

(** [client.responses.create(...)]: the call is recorded and the provider
    answers with its next response, or fails when it has none. *)
Definition responses_create (req : Request) : io Response :=
  fun w =>
    let w' (rest : list Response) :=
      {| OPENAI_API_KEY := OPENAI_API_KEY w;
         MODEL_NAME := MODEL_NAME w;
         openai_installed := openai_installed w;
         files := files w;
         provider := rest;
         calls := calls w ++ [req];
         recursion_room := recursion_room w |} in
    match provider w with
    | [] => (Raise APIError, w' [])
    | r :: rest => (Ok r, w' rest)
    end.

(** ** The functions of the module *)

(** [get_client]: the client is represented by its API key. *)
Definition get_client : io (option str) :=
  fun w =>
    let api_key := strip (default [] (OPENAI_API_KEY w)) in
    if bool_decide (api_key = []) then (Ok None, w)
    else if negb (openai_installed w) then
      (Raise (LLMClientError
                (lit "OPENAI_API_KEY задан, но пакет openai не установлен. "
                   ++ lit "Установите зависимости из requirements.txt.")),
       w)
    else (Ok (Some api_key), w).

(** The scan of [_extract_first_json_object] from the first opening
    brace: the text up to and including the brace that brings the depth
    back to zero, or [None] when the text ends first. *)
Fixpoint brace_scan (depth : Z) (in_string escaped : bool) (text : str)
  : option str :=
  match text with
  | [] => None
  | char :: rest =>
    if escaped then
      cons char <$> brace_scan depth in_string false rest
    else if (char =? 92)%N then
      cons char <$> brace_scan depth in_string true rest
    else if (char =? 34)%N then
      cons char <$> brace_scan depth (negb in_string) false rest
    else if in_string then
      cons char <$> brace_scan depth in_string false rest
    else if (char =? 123)%N then
      cons char <$> brace_scan (depth + 1) in_string false rest
    else if (char =? 125)%N then
      if depth - 1 =? 0 then Some [char]
      else cons char <$> brace_scan (depth - 1) in_string false rest
    else cons char <$> brace_scan depth in_string false rest
  end.

(** A fenced answer loses the backticks at both ends and the first
    [json] tag line. *)
Definition strip_fence (text : str) : str :=
  if startswith (lit "```") text then
    strip (remove_first (lit "json" ++ nl) (strip_char 96%N text))
  else text.

Definition _extract_first_json_object (room : loads_call -> nat)
  (raw_text : str) : result str :=
  let text := strip_fence (strip raw_text) in
  match loads (room extract_loads) text with
  | Ok _ => Ok text
  | Raise (JSONDecodeError _) =>
    match find_from 123%N text with
    | None =>
      Raise (LLMValidationError (lit "В ответе модели нет JSON-объекта."))
    | Some from_start =>
      match brace_scan 0 false false from_start with
      | Some object_text => Ok object_text
      | None =>
        Raise (LLMValidationError
                 (lit "Не удалось выделить полный JSON из ответа модели."))
      end
    end
  | Raise e => Raise e
  end.

Definition parse_and_validate (room : loads_call -> nat) (raw_text : str)
  : result SegCraftResponse.t :=
  let* json_text := _extract_first_json_object room raw_text in
  let* payload := loads (room payload_loads) json_text in
  SegCraftResponse.model_validate payload.

(** [model_name or os.getenv("MODEL_NAME", "gpt-4o-mini")]. *)
Definition choose_model (model_name : option str) (w : World) : str :=
  match model_name with
  | Some (c :: m) => c :: m
  | _ => default (lit "gpt-4o-mini") (MODEL_NAME w)
  end.

(** The texts gathered by the fallback loop of [generate]. *)
Definition output_parts (response : Response) : list str :=
  concat
    (map (fun content =>
            omap (fun text_value =>
                    match text_value with
                    | Some (c :: t) => Some (c :: t)
                    | _ => None
                    end) content)
         (output response)).

Definition generate (prompt_text : str) (model_name : option str)
  : io str :=
  let+ client := get_client in
  match client with
  | None =>
    raise (LLMClientError
             (lit "OPENAI_API_KEY не найден. Включите mock mode."))
  | Some _ =>
    fun w =>
      let model := choose_model model_name w in
      (let+ response :=
         responses_create
           {| req_model := model; req_input := prompt_text;
              req_temperature := lit "0.35" |} in
       let raw_text := output_text response in
       if negb (bool_decide (raw_text = [])) then ret raw_text
       else
         let combined := strip (join nl (output_parts response)) in
         if bool_decide (combined = []) then
           raise (LLMClientError (lit "LLM вернул пустой ответ."))
         else ret combined) w
  end.

Definition repair_prompt (raw_text : str) (validation_error : exn) : str :=
  lit "Исправь JSON. Верни ТОЛЬКО валидный JSON без markdown и пояснений."
    ++ nl ++ nl
    ++ lit "Ошибка валидации:" ++ nl ++ exc_str validation_error ++ nl ++ nl
    ++ lit "Текущий ответ:" ++ nl ++ raw_text.

Definition repair_json (raw_text : str) (validation_error : exn)
  (model_name : option str) : io str :=
  let+ client := get_client in
  match client with
  | None =>
    raise (LLMClientError
             (lit "OPENAI_API_KEY не найден. Repair невозможен в mock mode."))
  | Some _ =>
    fun w =>
      let model := choose_model model_name w in
      (let+ response :=
         responses_create
           {| req_model := model;
              req_input := repair_prompt raw_text validation_error;
              req_temperature := lit "0" |} in
       let fixed := strip (output_text response) in
       if bool_decide (fixed = []) then
         raise (LLMClientError (lit "Repair attempt вернул пустой ответ."))
       else ret fixed) w
  end.

(** The root of a POSIX path: one slash, or two when the text starts
    with exactly two. *)
Definition path_root (s : str) : str :=
  if startswith (lit "///") s then lit "/"
  else if startswith (lit "//") s then lit "//"
  else if startswith (lit "/") s then lit "/"
  else [].

(** Its components: an empty one and [.] are dropped. *)
Definition path_parts (s : str) : list str :=
  List.filter
    (fun part => negb (bool_decide (part = []) || str_eqb part (lit ".")))
    (split_all 47%N s).

(** [Path(samples_dir) / file_name], as the text of the path. *)
Definition path_join (samples_dir file_name : str) : str :=
  path_root samples_dir
    ++ join (lit "/") (path_parts samples_dir ++ [file_name]).

(** The file [load_mock_output] chooses for a format id. *)
Definition mock_file_name (format_id : str) : str :=
  if str_eqb format_id (lit "yadirect_text")
  then lit "sample_output_1.json"
  else lit "sample_output_2.json".

Definition load_mock_output (c : caller) (format_id : str)
  (samples_dir : str) : io SegCraftResponse.t :=
  fun w =>
    let file_name := mock_file_name format_id in
    let payload_path := path_join samples_dir file_name in
    match files w !! payload_path with
    | None =>
      (Raise (LLMClientError
                (lit "Mock файл не найден: " ++ payload_path
                   ++ lit ". Выполните tools/sync_from_text.py.")),
       w)
    | Some text =>
      (let* data := loads (recursion_room w (mock_loads c)) text in
       SegCraftResponse.model_validate data, w)
    end.

(** The exceptions named by the two [except] clauses of
    [run_generation]. *)
Definition caught (e : exn) : bool :=
  match e with
  | JSONDecodeError _ | ValidationError _ _ | LLMValidationError _ => true
  | _ => false
  end.

Definition run_generation (prompt_text : str) (format_id : str)
  (model_name : option str) (samples_dir : str) (force_mock : bool)
  : io (SegCraftResponse.t * str * str) :=
  let+ use_mock :=
    if force_mock then ret true
    else let+ client := get_client in
         ret (bool_decide (client = None)) in
  if use_mock : bool then
    let+ response := load_mock_output by_run_generation format_id
                       samples_dir in
    ret (response, lit "mock", [])
  else
    let+ raw_text := generate prompt_text model_name in
    try_except
      (let+ response := decoding (fun room =>
                                    parse_and_validate room raw_text) in
       ret (response, lit "llm", raw_text))
      caught
      (fun first_error =>
         let+ repaired_raw := repair_json raw_text first_error model_name in
         try_except
           (let+ validated := decoding (fun room =>
                                         parse_and_validate room
                                           repaired_raw) in
            ret (validated, lit "llm", repaired_raw))
           caught
           (fun second_error =>
              raise (LLMValidationError
                       (lit "Не удалось получить валидный JSON после repair attempt. "
                          ++ lit "Включите mock mode или используйте sample_output. "
                          ++ lit "Причина: " ++ exc_str second_error)))).

End LlmClient.

(* ===================================================================== *)
(** * src/segcraft/content_source.py: sections, slides, sample inputs *)
(* ===================================================================== *)

Module ContentSourceRest.

Import ContentSource.

(** How a function of the module that can raise [ContentSourceError]
    ends: with its value, with that exception, or with another one. *)
Inductive outcome (A : Type) :=
| Returned (a : A)
| ContentSourceError (msg : str)
| Raised (e : exn).
Arguments Returned {A} a.
Arguments ContentSourceError {A} msg.
Arguments Raised {A} e.

(** ** [parse_sections] *)

(** The characters of [[A-Z0-9_]]. *)
Definition is_tag_char (c : char) : bool :=
  ((65 <=? c) && (c <=? 90) || (48 <=? c) && (c <=? 57) || (c =? 95))%N.

Fixpoint span_tag (s : str) : str * str :=
  match s with
  | [] => ([], [])
  | c :: r =>
    if is_tag_char c then let '(t, rest) := span_tag r in (c :: t, rest)
    else ([], s)
  end.

(** [SECTION_PATTERN.match(s)]: the group of
    [^\[([A-Z0-9_]+)\]\s*$], if the text matches. *)
Definition section_match (s : str) : option str :=
  match s with
  | c :: r =>
    if (c =? 91)%N then
      match span_tag r with
      | (x :: name, c' :: ws) =>
        if ((c' =? 93)%N && forallb is_space ws)%bool
        then Some (x :: name) else None
      | _ => None
      end
    else None
  | [] => None
  end.

(** The local variables of the loop of [parse_sections]. *)
Record SecState := {
  sections : gmap str (list str);
  current : option str;
}.

Definition parse_sections_step (st : SecState) (line : str) : SecState :=
  match section_match (strip line) with
  | Some name =>
    {| sections := <[name := []]> (sections st); current := Some name |}
  | None =>
    match current st with
    | Some name =>
      {| sections := alter (fun lines => lines ++ [line]) name (sections st);
         current := Some name |}
    | None => st
    end
  end.

Definition parse_sections_init : SecState :=
  {| sections := ∅; current := None |}.

Definition parse_sections_lines (lines : list str) : SecState :=
  foldl parse_sections_step parse_sections_init lines.

Definition parse_sections (raw_text : str) : gmap str str :=
  (fun lines => strip (join nl lines))
    <$> sections (parse_sections_lines (splitlines raw_text)).

(** ** [require_sections] *)

(** [name not in sections or not sections[name].strip()]. *)
Definition is_missing (sections : gmap str str) (name : str) : bool :=
  match sections !! name with
  | None => true
  | Some body => bool_decide (strip body = [])
  end.

Definition require_sections (sections : gmap str str) (required : list str)
  : outcome unit :=
  let missing := List.filter (is_missing sections) required in
  match missing with
  | [] => Returned tt
  | _ :: _ =>
    let hints :=
      join (lit ", ") (map (fun name => lit "[" ++ name ++ lit "]") missing) in
    ContentSourceError
      (lit "В input_texts/text.txt не хватает обязательных секций: "
         ++ hints ++ lit ". Добавьте их и повторите генерацию.")
  end.

(** ** [parse_slides] *)

(** [[item.strip() for item in value.split("|") if item.strip()]]. *)
Definition split_bullets (value : str) : list json :=
  omap (fun item =>
          let s := strip item in
          if bool_decide (s = []) then None else Some (JStr s))
       (split_all 124%N value).

(** The local variables of the loop of [parse_slides]: the slides
    appended so far and the slide being filled, a dict. *)
Record SlideState := {
  slides : list dict;
  current_slide : option dict;
}.

(** [if current: slides.append(current)]: a dict is true when it is not
    empty. *)
Definition flush (st : SlideState) : list dict :=
  match current_slide st with
  | Some (item :: items) => slides st ++ [item :: items]
  | _ => slides st
  end.

Definition parse_slides_step (st : SlideState) (line : str)
  : outcome SlideState :=
  let stripped := strip line in
  if bool_decide (stripped = []) || startswith (lit "#") stripped
  then Returned st
  else if startswith (lit "SLIDE ") stripped then
    let slides' := flush st in
    match int_of_str (snd (split_once 32%N stripped)) with
    | None =>
      ContentSourceError (lit "Некорректный номер слайда: " ++ stripped)
    | Some slide_number =>
      Returned {| slides := slides';
                  current_slide := Some [(lit "number", JInt slide_number)] |}
    end
  else
    match current_slide st with
    | None => Returned st
    | Some cur =>
      if negb (contains_char 61%N stripped) then Returned st
      else
        let '(key, value) := split_once 61%N stripped in
        let key := strip key in
        let value := strip value in
        let item :=
          if str_eqb key (lit "bullets") then JList (split_bullets value)
          else JStr value in
        Returned {| slides := slides st;
                    current_slide := Some (dict_set cur key item) |}
    end.

Fixpoint parse_slides_loop (st : SlideState) (lines : list str)
  : outcome SlideState :=
  match lines with
  | [] => Returned st
  | line :: rest =>
    match parse_slides_step st line with
    | Returned st' => parse_slides_loop st' rest
    | ContentSourceError msg => ContentSourceError msg
    | Raised e => Raised e
    end
  end.

(** [item["number"]]: the key is there from the creation of the dict. *)
Definition number_of (slide : dict) : json :=
  default JNull (dict_get slide (lit "number")).

(** [a < b] on strings: by code points, a proper prefix first. *)
Fixpoint str_ltb (a b : str) : bool :=
  match a, b with
  | _, [] => false
  | [], _ :: _ => true
  | x :: a', y :: b' => (x <? y)%N || ((x =? y)%N && str_ltb a' b')
  end.

(** A stable sort that, like [list.sort], only asks whether one key is
    less than another: an item goes before the first item of the sorted
    rest whose key is not less than its own. *)
Fixpoint insert_by {A K} (ltb : K -> K -> bool) (key : A -> K) (x : A)
  (sorted : list A) : list A :=
  match sorted with
  | [] => [x]
  | y :: rest =>
    if ltb (key y) (key x) then y :: insert_by ltb key x rest
    else x :: y :: rest
  end.

Definition sort_by {A K} (ltb : K -> K -> bool) (key : A -> K)
  (l : list A) : list A :=
  foldr (insert_by ltb key) [] l.

Definition int_key (slide : dict) : Z :=
  match number_of slide with
  | JInt n => n
  | _ => 0
  end.

Definition str_key (slide : dict) : str :=
  match number_of slide with
  | JStr s => s
  | _ => []
  end.

Definition has_int_number (slide : dict) : bool :=
  match number_of slide with
  | JInt _ => true
  | _ => false
  end.

Definition has_str_number (slide : dict) : bool :=
  match number_of slide with
  | JStr _ => true
  | _ => false
  end.

(** [slides.sort(key=lambda item: item["number"])]. The number of a slide
    is the integer of its [SLIDE] line unless a later [number=...] line
    replaced it by a string. Integers are ordered among themselves and
    strings among themselves; a sort of two or more items that has to
    compare an integer with a string raises [TypeError], and every run of
    a sort does compare across any split of its items in two groups. *)
Definition sort_slides (l : list dict) : outcome (list dict) :=
  if forallb has_int_number l then Returned (sort_by Z.ltb int_key l)
  else if forallb has_str_number l then Returned (sort_by str_ltb str_key l)
  else
    match l with
    | [] | [_] => Returned l
    | _ => Raised TypeError
    end.

Definition parse_slides_init : SlideState :=
  {| slides := []; current_slide := None |}.

Definition parse_slides (section_text : str) : outcome (list dict) :=
  match parse_slides_loop parse_slides_init (splitlines section_text) with
  | Returned st => sort_slides (flush st)
  | ContentSourceError msg => ContentSourceError msg
  | Raised e => Raised e
  end.

(** ** [build_sample_input_text] *)

(** The keys written, in the order of the lines. *)
Definition sample_input_keys : list string :=
  ["title"; "base_text"; "product_context"; "selected_segments"; "tone";
   "format_id"; "variants_per_segment"; "variability_level";
   "constraints"]%string.

Definition build_sample_input_text (kv : gmap str str) : str :=
  let lines :=
    map (fun key => lit key ++ lit "=" ++ kv_get kv key []) sample_input_keys in
  join nl lines ++ nl.

End ContentSourceRest.

(* ===================================================================== *)
(** * src/segcraft/tools/sync_from_text.py: the sample outputs *)
(* ===================================================================== *)

Module SyncFromText.

Import ContentSource.

Definition REQUIRED_SECTIONS : list str :=
  map lit
    ["PROJECT_META"; "DEFAULT_SEGMENTS"; "AD_FORMATS"; "SAMPLE_INPUT_1";
     "SAMPLE_INPUT_2"; "SAMPLE_OUTPUT_1_JSON"; "SAMPLE_OUTPUT_2_JSON";
     "DEMO_SCRIPT"; "SLIDES"; "SUBMISSION_ANSWERS_MD";
     "PITCH_1PAGER_MD"]%string.

(** The dict comprehension of [main] that builds [format_limits] from
    the parsed formats: a later format replaces an earlier one of the
    same id. *)
Definition format_limits_of (formats : list Format)
  : gmap str (gmap str Z) :=
  foldl (fun acc fmt =>
           <[format_id fmt :=
               {[ lit "headline_max" := headline_max (limits fmt);
                  lit "body_max" := body_max (limits fmt) ]}]> acc)
        ∅ formats.

(** [ensure_format_limits(enforce_char_counts(sample_output), format_limits)],
    what [main] does to each sample output before it is written. *)
Definition normalise_sample (sample_output : dict)
  (format_limits : gmap str (gmap str Z)) : result dict :=
  let* counted := enforce_char_counts sample_output in
  ensure_format_limits counted format_limits.

End SyncFromText.

(* ===================================================================== *)
(** * src/segcraft/app.py: the helpers of the form and the fallback *)
(* ===================================================================== *)

Module App.

Import Schemas LlmClient.

(** [s.replace(old, new)] for a one-character [old]. *)
Definition replace_char (old : char) (new : str) (s : str) : str :=
  flat_map (fun c => if (c =? old)%N then new else [c]) s.

Definition parse_constraints (raw_text : str) : list str :=
  let normalized := replace_char 59%N nl raw_text in
  omap (fun line =>
          let s := strip line in
          if bool_decide (s = []) then None else Some s)
       (splitlines normalized).

(** The segment built from the free text of the form. *)
Definition create_custom_segment (text : str) : ContentSource.Segment :=
  let short_name :=
    if negb (bool_decide (strip text = []))
    then slice_to 48 (hd [] (split_all 46%N (strip text)))
    else lit "Пользовательский сегмент" in
  {| ContentSource.segment_id := lit "custom_segment";
     ContentSource.seg_name := short_name;
     ContentSource.who := strip text;
     ContentSource.job_to_be_done := strip text;
     ContentSource.pains := [];
     ContentSource.triggers := [lit "Актуально из пользовательского ввода"];
     ContentSource.taboos := [];
     ContentSource.tone_hint := lit "По контексту пользовательского сегмента";
     ContentSource.cta_style := lit "Нейтральный";
     ContentSource.example_offer_adaptations := [] |}.

(** The exceptions named by the [except] clause of [main]:
    [LLMValidationError] is a subclass of [LLMClientError]. *)
Definition caught_by_main (e : exn) : bool :=
  match e with
  | LLMValidationError _ | LLMClientError _ => true
  | _ => false
  end.

(** The [try] statement of [main] around [run_generation], for the
    response and the mode it leaves in the local variables; the two
    messages it shows on the page in the handler are not modelled. *)
Definition generate_or_fallback (prompt_text format_id samples_dir : str)
  (force_mock : bool) : io (SegCraftResponse.t * str) :=
  try_except
    (let+ (response, mode, _) :=
       run_generation prompt_text format_id None samples_dir force_mock in
     ret (response, mode))
    caught_by_main
    (fun exc =>
       let+ response := load_mock_output by_app format_id samples_dir in
       ret (response, lit "mock-fallback")).

End App.

(* ===================================================================== *)
(** * Vocabulary of the statements *)
(* ===================================================================== *)

(** The items of a list-valued field, none when it is absent. *)
Definition items (d : dict) (k : str) : list json :=
  match dict_get d k with
  | Some (JList l) => l
  | _ => []
  end.

(** The copy variants of a segment and of a payload. *)
Definition segment_copies (segment : json) : list json :=
  match segment with
  | JDict sd => items sd (lit "copies")
  | _ => []
  end.

Definition payload_copies (payload : dict) : list json :=
  concat (map segment_copies (items payload (lit "segments"))).

(** Every exception a computation can raise satisfies [P]. *)
Definition raises_only {A} (P : exn -> Prop) (m : result A) : Prop :=
  forall e, m = Raise e -> P e.

(** The exception is pydantic's validation failure. *)
Definition is_validation_error (e : exn) : Prop :=
  exists loc msg, e = ValidationError loc msg.

(** The exception is one that [json.loads] raises on a text: the
    interpreter's [RecursionError], the [ValueError] of an integer of too
    many digits, or the decoder's own [JSONDecodeError]. *)
Definition raised_by_loads (e : exn) : Prop :=
  e = RecursionError
  \/ (exists msg, e = ValueError msg)
  \/ exists msg, e = JSONDecodeError msg.

(** The validator rejects: it raises a validation failure. *)
Definition rejected {A} (m : result A) : Prop :=
  exists loc msg, m = Raise (ValidationError loc msg).

(** The counters of a validated copy variant are the lengths of its
    texts. *)
Definition counts_synced (c : Schemas.CopyVariant.t) : Prop :=
  Schemas.CopyVariant.char_count c
  = {| Schemas.CharCount.headline := len (Schemas.CopyVariant.headline c);
       Schemas.CharCount.body := len (Schemas.CopyVariant.body c) |}.

(** A segment has the requested number of copy variants. *)
Definition copies_match (expected : Z) (segment : Schemas.SegmentOutput.t)
  : Prop :=
  Z.of_nat (length (Schemas.SegmentOutput.copies segment)) = expected.

(** Sample documents: a copy variant whose counters are wrong, and a
    response around a given number of requested variants and given
    copies. The backquote stands for the double quote. *)
Definition sample_copy : string :=
  "{`headline`: `Hi`, `body`: `Body`, `cta`: `c`, `rationale`: `r`, `char_count`: {`headline`: 99, `body`: 0}}".

Definition sample_response (variants copies : string) : str :=
  litq ("{`version`: `1.0`, `input_echo`: {`base_text`: `b`, `tone`: `bold`, `format_id`: `f`, `variants_per_segment`: "
        ++ variants
        ++ "}, `segments`: [{`segment_id`: `seg`, `segment_name`: `n`, `core_insight`: `i`, `trigger`: `t`, `angle`: `a`, `copies`: ["
        ++ copies
        ++ "], `differences_note`: `d`}], `export_hints`: {`how_to_use`: [], `ab_test_suggestions`: []}, `exec_summary`: {`for_marketer`: `m`, `for_non_tech_manager`: `n`}}")%string.

Definition three_copies : string :=
  (sample_copy ++ ", " ++ sample_copy ++ ", " ++ sample_copy)%string.
Definition two_copies : string := (sample_copy ++ ", " ++ sample_copy)%string.

(** The message of the terminal failure of [run_generation]. *)
Definition repair_failure_message (second_error : exn) : str :=
  lit "Не удалось получить валидный JSON после repair attempt. "
    ++ lit "Включите mock mode или используйте sample_output. "
    ++ lit "Причина: " ++ LlmClient.exc_str second_error.

(** Room for 990 containers, one inside the other, at every call of
    [json.loads]: about what an interpreter with the default recursion
    limit of 1000 has. *)
Definition ample_room : LlmClient.loads_call -> nat := fun _ => 990%nat.

(** A world with a credential whose provider answers twice with text that
    holds no JSON object. *)
Definition stubborn_world : LlmClient.World :=
  {| LlmClient.OPENAI_API_KEY := Some (lit "sk-test");
     LlmClient.MODEL_NAME := None;
     LlmClient.openai_installed := true;
     LlmClient.files := ∅;
     LlmClient.provider :=
       [ {| LlmClient.output_text := lit "Sorry, no JSON today.";
            LlmClient.output := [] |};
         {| LlmClient.output_text := lit "{ still broken";
            LlmClient.output := [] |};
         {| LlmClient.output_text := sample_response "2" two_copies;
            LlmClient.output := [] |} ];
     LlmClient.calls := [];
     LlmClient.recursion_room := ample_room |}.

(** A world without a credential, with the two sample files in place. *)
Definition offline_world : LlmClient.World :=
  {| LlmClient.OPENAI_API_KEY := None;
     LlmClient.MODEL_NAME := None;
     LlmClient.openai_installed := true;
     LlmClient.files :=
       {[ lit "samples/sample_output_1.json" := sample_response "2" two_copies;
          lit "samples/sample_output_2.json" := sample_response "1" sample_copy ]};
     LlmClient.provider := [];
     LlmClient.calls := [];
     LlmClient.recursion_room := ample_room |}.

(** ** Vocabulary for the statements about the Format-Limit Enforcer *)

(** [copy.get(k, "")]. *)
Definition text_field (d : dict) (k : string) : json :=
  default (JStr []) (dict_get d (lit k)).

(** The risk flags of a copy, none when the key is absent. *)
Definition flags_field (d : dict) : list json :=
  match dict_get d (lit "risk_flags") with
  | Some (JList l) => l
  | _ => []
  end.

(** The value is longer than the limit. *)
Definition exceeds (limit : Z) (text : json) : Prop :=
  exists n, py_len text = Ok n /\ limit < n.

(** What the enforcer does to one text field: a text longer than the limit
    is a string and becomes its first [limit] characters with the trailing
    whitespace removed, which is at most [limit] characters long and has no
    trailing whitespace; any other text is kept. *)
Definition enforced_text (limit : Z) (before after : json) : Prop :=
  exists n,
    py_len before = Ok n
    /\ if n >? limit then
         exists s t,
           before = JStr s /\ after = JStr t
           /\ t = rstrip (slice_to limit s)
           /\ len t <= limit /\ rstrip t = t
       else after = before.

(** The counters of a copy are the lengths of its texts. *)
Definition counts_match_texts (d : dict) : Prop :=
  exists n m,
    py_len (text_field d "headline") = Ok n
    /\ py_len (text_field d "body") = Ok m
    /\ dict_get d (lit "char_count")
       = Some (JDict [(lit "headline", JInt n); (lit "body", JInt m)]).

(** What the enforcer does to one copy variant. *)
Definition enforced_copy (headline_max body_max : Z) (before after : json)
  : Prop :=
  exists d d',
    before = JDict d /\ after = JDict d'
    /\ enforced_text headline_max (text_field d "headline")
         (text_field d' "headline")
    /\ enforced_text body_max (text_field d "body") (text_field d' "body")
    /\ (exceeds headline_max (text_field d "headline")
        \/ exceeds body_max (text_field d "body") ->
        flags_field d' = flags_field d ++ [ContentSource.overflow_flag])
    /\ (~ (exceeds headline_max (text_field d "headline")
           \/ exceeds body_max (text_field d "body")) ->
        flags_field d' = flags_field d)
    /\ counts_match_texts d'.

(** The shape of a payload that has the fields of a response: texts are
    strings, risk flags are a list, segments and copies are lists of
    objects. Any of them may be absent. *)
Definition text_ok (d : dict) (k : string) : bool :=
  match dict_get d (lit k) with
  | None | Some (JStr _) => true
  | _ => false
  end.

Definition copy_shaped (c : json) : bool :=
  match c with
  | JDict d =>
    text_ok d "headline" && text_ok d "body"
    && match dict_get d (lit "risk_flags") with
       | None | Some (JList _) => true
       | _ => false
       end
  | _ => false
  end.

Definition items_shaped (elem : json -> bool) (d : dict) (k : string) : bool :=
  match dict_get d (lit k) with
  | None => true
  | Some (JList l) => forallb elem l
  | _ => false
  end.

Definition segment_shaped (s : json) : bool :=
  match s with
  | JDict sd => items_shaped copy_shaped sd "copies"
  | _ => false
  end.

Definition payload_shaped (p : dict) : bool :=
  items_shaped segment_shaped p "segments".

(** The format id the payload echoes, as [ensure_format_limits] reads it. *)
Definition echoed_format_id (payload : dict) : result json :=
  get_or (default (JDict []) (dict_get payload (lit "input_echo")))
    (lit "format_id") (JStr []).

(** All maxima of a mapping are non-negative. *)
Definition limits_nonneg (format_limits : gmap str (gmap str Z)) : Prop :=
  forall format_id limits key v,
    format_limits !! format_id = Some limits -> limits !! key = Some v ->
    0 <= v.

(** A function that fails on every string. *)
Definition rejects_str (f : json -> result json) : Prop :=
  forall s y, f (JStr s) <> Ok y.

(** Sample payloads and limits. *)
Definition one_format (headline_max body_max : Z) : gmap str (gmap str Z) :=
  {[ lit "banner" := {[ lit "headline_max" := headline_max;
                         lit "body_max" := body_max ]} ]}.

Definition long_copy : json :=
  JDict [(lit "headline", JStr (lit "Fifteen   chars"));
         (lit "body", JStr (lit "short"))].

Definition payload_with (copy : json) : dict :=
  [(lit "input_echo", JDict [(lit "format_id", JStr (lit "banner"))]);
   (lit "segments",
    JList [JDict [(lit "segment_id", JStr (lit "s1"));
                  (lit "copies", JList [copy])]])].

(** A copy variant without [char_count], and one with a negative
    counter. *)
Definition bare_copy : json :=
  JDict [(lit "headline", JStr (lit "Hi"));
         (lit "body", JStr (lit "Body"));
         (lit "cta", JStr (lit "c"));
         (lit "rationale", JStr (lit "r"))].

Definition negative_count : dict :=
  [(lit "headline", JInt (-1)); (lit "body", JInt 4)].

Definition negative_copy : json :=
  JDict [(lit "headline", JStr (lit "Hi"));
         (lit "body", JStr (lit "Body"));
         (lit "cta", JStr (lit "c"));
         (lit "rationale", JStr (lit "r"));
         (lit "char_count", JDict negative_count)].

(** The bodies of the two loops of [ensure_format_limits] in a row. *)
Definition enforce_one (headline_max body_max : Z) (copy : json)
  : result json :=
  let* copy' :=
    ContentSource.ensure_format_limits_body headline_max body_max copy in
  ContentSource.enforce_char_counts_body copy'.



(** The boundary string of the specification for the extractor. *)
Definition boundary_output : str :=
  litq "prefix text {`a`: {`b`: `}`}} trailing".

(** Literals are compared by evaluation, never unfolded by rewriting. *)
#[global] Opaque lit litq str_of_int.

Create HintDb verr.

(** ** Vocabulary for the further properties of the orchestrator *)

(** What a run that only calls the provider leaves as it found it: the
    environment, the files and the room for recursion. *)
Definition same_surroundings (w w' : LlmClient.World) : Prop :=
  LlmClient.OPENAI_API_KEY w' = LlmClient.OPENAI_API_KEY w
  /\ LlmClient.MODEL_NAME w' = LlmClient.MODEL_NAME w
  /\ LlmClient.openai_installed w' = LlmClient.openai_installed w
  /\ LlmClient.files w' = LlmClient.files w
  /\ LlmClient.recursion_room w' = LlmClient.recursion_room w.

(** The run from [w] to [w'] made the calls [made], in this order, and
    touched nothing else but the answers still to come. *)
Definition made_calls (w w' : LlmClient.World)
  (made : list LlmClient.Request) : Prop :=
  LlmClient.calls w' = LlmClient.calls w ++ made /\ same_surroundings w w'.

(** A world with a credential and the two sample files in place, whose
    provider answers with the given texts. *)
Definition answering_world (answers : list str) : LlmClient.World :=
  {| LlmClient.OPENAI_API_KEY := Some (lit "sk-test");
     LlmClient.MODEL_NAME := None;
     LlmClient.openai_installed := true;
     LlmClient.files := LlmClient.files offline_world;
     LlmClient.provider :=
       map (fun text => {| LlmClient.output_text := text;
                           LlmClient.output := [] |}) answers;
     LlmClient.calls := [];
     LlmClient.recursion_room := ample_room |}.

(** An answer that is one integer of 4301 digits, and one that is a list
    inside a list, [depth] times. *)
Definition long_integer : str := repeat 49%N 4301.

Definition nested_lists (depth : nat) : str :=
  repeat 91%N depth ++ repeat 93%N depth.

(** The text of a request of [generate] and of [repair_json]. *)
Definition generate_request (prompt_text : str) (model_name : option str)
  (w : LlmClient.World) : LlmClient.Request :=
  {| LlmClient.req_model := LlmClient.choose_model model_name w;
     LlmClient.req_input := prompt_text;
     LlmClient.req_temperature := lit "0.35" |}.

(** The exception is one of the client's own. *)
Definition is_client_error (e : exn) : Prop :=
  exists msg, e = LLMClientError msg.

Definition is_decode_error (e : exn) : Prop :=
  exists msg, e = JSONDecodeError msg.

(** The exception is one that neither [run_generation] nor the page
    catches: the failure of the provider, or the [RecursionError] or the
    [ValueError] that [json.loads] raises. *)
Definition escapes (e : exn) : Prop :=
  e = APIError \/ e = RecursionError \/ exists msg, e = ValueError msg.

(** The text the sample file of a format holds is a valid response, when
    [load_mock_output] is called by [c]. *)
Definition sample_in_place (c : LlmClient.caller)
  (format_id samples_dir : str)
  (w : LlmClient.World) (sample : Schemas.SegCraftResponse.t) : Prop :=
  exists text,
    LlmClient.files w
      !! LlmClient.path_join samples_dir (LlmClient.mock_file_name format_id)
    = Some text
    /\ (let* data :=
          loads (LlmClient.recursion_room w (LlmClient.mock_loads c)) text in
        Schemas.SegCraftResponse.model_validate data) = Ok sample.

(** The two [try] statements of [run_generation], the second one being
    the handler of the first. *)
Module Attempts.
Import Schemas LlmClient.

Definition second_attempt (repaired_raw : str)
  : io (SegCraftResponse.t * str * str) :=
  try_except
    (let+ validated := decoding (fun room =>
                                  parse_and_validate room repaired_raw) in
     ret (validated, lit "llm", repaired_raw))
    caught
    (fun second_error =>
       raise (LLMValidationError
                (lit "Не удалось получить валидный JSON после repair attempt. "
                   ++ lit "Включите mock mode или используйте sample_output. "
                   ++ lit "Причина: " ++ exc_str second_error))).

Definition first_attempt (raw_text : str) (model_name : option str)
  : io (SegCraftResponse.t * str * str) :=
  try_except
    (let+ response := decoding (fun room =>
                                 parse_and_validate room raw_text) in
     ret (response, lit "llm", raw_text))
    caught
    (fun first_error =>
       let+ repaired_raw := repair_json raw_text first_error model_name in
       second_attempt repaired_raw).

(** The branch of [run_generation] that reads the sample file. *)
Definition mock_branch (format_id samples_dir : str)
  : io (SegCraftResponse.t * str * str) :=
  let+ response := load_mock_output by_run_generation format_id samples_dir in
  ret (response, lit "mock", []).

End Attempts.

(** ** Vocabulary for the further properties of the content source *)

(** The lines [parse_segments] keeps of the inside of a record: stripped,
    without the blank lines and the comments. *)
Definition kept_lines (inside : list str) : list str :=
  omap (fun line =>
          let stripped := strip line in
          if bool_decide (stripped = []) || startswith (lit "#") stripped
          then None else Some stripped)
       inside.

(** A closed record of a [DEFAULT_SEGMENTS] block with the lines that
    precede it: lines among which no [END] occurs, the [SEGMENT] line that
    opens the record, the lines inside, none of them a marker, and the
    [END] line. *)
Record Block := {
  gap : list str;
  open_line : str;
  inside : list str;
  end_line : str;
}.

Definition block_lines (b : Block) : list str :=
  gap b ++ open_line b :: inside b ++ [end_line b].

Definition closed_record (b : Block) : Prop :=
  Forall (fun line => strip line <> lit "END") (gap b)
  /\ strip (open_line b) = lit "SEGMENT"
  /\ Forall (fun line => strip line <> lit "SEGMENT"
                         /\ strip line <> lit "END") (inside b)
  /\ strip (end_line b) = lit "END".

(** ** Vocabulary for the further properties of the enforcers *)

(** What [enforce_char_counts] does to one copy: every field but
    [char_count] and [risk_flags] is kept, the value of [risk_flags] is
    kept when there is one and is an empty list otherwise, and the
    counters are the lengths of the texts. *)
Definition recounted_copy (before after : json) : Prop :=
  exists d d',
    before = JDict d /\ after = JDict d'
    /\ (forall k, k <> lit "char_count" -> k <> lit "risk_flags" ->
                  dict_get d' k = dict_get d k)
    /\ dict_get d' (lit "risk_flags")
       = Some (default (JList []) (dict_get d (lit "risk_flags")))
    /\ counts_match_texts d'.

(** A copy as the enforcers leave it: its counters are the lengths of its
    texts and it has risk flags. *)
Definition counted_copy (copy : json) : Prop :=
  exists d,
    copy = JDict d /\ counts_match_texts d
    /\ dict_get d (lit "risk_flags") <> None.

(** A loop body restricted to the copies of the shape of a response. *)
Definition on_shaped (f : json -> result json) (copy : json) : result json :=
  if copy_shaped copy then f copy else Raise AttributeError.

(** The entry [main] builds for a format. *)
Definition limits_entry (fmt : ContentSource.Format) : gmap str Z :=
  {[ lit "headline_max" :=
       ContentSource.headline_max (ContentSource.limits fmt);
     lit "body_max" := ContentSource.body_max (ContentSource.limits fmt) ]}.

(** The last format of a list that has a given id. *)
Definition last_with_id (format_id : str)
  (formats : list ContentSource.Format) : option ContentSource.Format :=
  last (List.filter
          (fun fmt => str_eqb (ContentSource.format_id fmt) format_id)
          formats).

(** Two formats of the same id, the second one with other maxima. *)
Definition banner_format (headline_max body_max : Z)
  : ContentSource.Format :=
  {| ContentSource.format_id := lit "banner";
     ContentSource.fmt_name := lit "Banner";
     ContentSource.limits :=
       {| ContentSource.headline_max := headline_max;
          ContentSource.body_max := body_max |};
     ContentSource.output_template := [];
     ContentSource.notes := [] |}.

(** ** Vocabulary for the properties of the slide parser *)

(** The numbers ascend. *)
Fixpoint ascending (keys : list Z) : Prop :=
  match keys with
  | [] => True
  | k :: rest => Forall (Z.le k) rest /\ ascending rest
  end.

(** The slide has a number: an integer, or a string when a
    [number=...] line has replaced it. *)
Definition numbered (slide : dict) : bool :=
  ContentSourceRest.has_int_number slide
  || ContentSourceRest.has_str_number slide.

(** The line, if it is taken as a key-value line, has the key [number]. *)
Definition sets_number (line : str) : Prop :=
  strip (fst (split_once 61%N (strip line))) = lit "number".

(** The slides of a state of the loop, the open one included, satisfy
    [P]. *)
Definition all_slides (P : dict -> bool) (st : ContentSourceRest.SlideState)
  : Prop :=
  forallb P (ContentSourceRest.slides st) = true
  /\ forall cur, ContentSourceRest.current_slide st = Some cur -> P cur = true.

(** ** Vocabulary for the round trip of the sample inputs *)

(** A key that [parse_key_values] reads back as it was written: it is
    not empty, starts with no white space and with no hash sign, holds no
    equals sign and has no white space at its end. *)
Definition plain_key (k : str) : bool :=
  match k with
  | c :: _ =>
    negb (is_space c) && negb (c =? 35)%N
    && negb (contains_char 61%N k) && bool_decide (strip k = k)
  | [] => false
  end.

(** The line [build_sample_input_text] writes for a key. *)
Definition written_line (kv : gmap str str) (key : string) : str :=
  lit key ++ lit "=" ++ ContentSource.kv_get kv key [].

(* ===================================================================== *)
(** * Properties *)
(* ===================================================================== *)

Section Strings.
Lemma str_eqb_true (a b : str) : str_eqb a b = true -> a = b.
Proof. unfold str_eqb. apply bool_decide_eq_true_1. Qed.

Lemma str_eqb_refl (a : str) : str_eqb a a = true.
Proof. unfold str_eqb. apply bool_decide_eq_true_2. reflexivity. Qed.

Lemma str_eqb_false (a b : str) : a <> b -> str_eqb a b = false.
Proof. unfold str_eqb. apply bool_decide_eq_false_2. Qed.
End Strings.

(* ===================================================================== *)
(** * Properties of the repeated-record parsers *)
(* ===================================================================== *)

Section RecordParsers.
Import ContentSource.

(** A line that is not [END] leaves the emitted records as they are. *)
Lemma parse_segments_step_keeps (st : SegState) (line : str) :
  strip line <> lit "END" ->
  segments (parse_segments_step st line) = segments st.
Proof.
  intros Hend. unfold parse_segments_step.
  destruct (bool_decide (strip line = []) || startswith (lit "#") (strip line));
    [reflexivity|].
  destruct (str_eqb (strip line) (lit "SEGMENT")); [reflexivity|].
  destruct (str_eqb (strip line) (lit "END")) eqn:E.
  - apply str_eqb_true in E. contradiction.
  - destruct (in_segment st); reflexivity.
Qed.

Lemma parse_segments_fold_keeps (lines : list str) (st : SegState) :
  Forall (fun line => strip line <> lit "END") lines ->
  segments (foldl parse_segments_step st lines) = segments st.
Proof.
  revert st. induction lines as [|line lines IH]; intros st Hall.
  - reflexivity.
  - inversion Hall as [|? ? Hline Hrest]; subst. simpl.
    rewrite IH by assumption. apply parse_segments_step_keeps, Hline.
Qed.

(** An opening line keeps the emitted records, whatever was open. *)
Lemma parse_segments_step_open (st : SegState) (line : str) :
  strip line = lit "SEGMENT" ->
  parse_segments_step st line
  = {| segments := segments st; buffer := []; in_segment := true |}.
Proof.
  intros H. unfold parse_segments_step. rewrite H. reflexivity.
Qed.

(** An [END] line met while no record is open changes nothing but the
    (already empty or stale) buffer. *)
Lemma parse_segments_step_stray_end (st : SegState) (line : str) :
  strip line = lit "END" -> in_segment st = false ->
  segments (parse_segments_step st line) = segments st
  /\ in_segment (parse_segments_step st line) = false.
Proof.
  intros H Hin. unfold parse_segments_step. rewrite H, Hin. split; reflexivity.
Qed.

(** C8 (as the code has it): an unterminated trailing record is dropped.
    When the last [SEGMENT] line of a block is followed by no [END] line,
    [parse_segments] returns exactly the records closed before that line:
    the open record is not emitted. An [END] line met while no record is
    open leaves the result unchanged. *)
Theorem parse_segments_drops_unterminated_record
  (section_text : str) (before after : list str) (open_line : str) :
  splitlines section_text = before ++ open_line :: after ->
  strip open_line = lit "SEGMENT" ->
  Forall (fun line => strip line <> lit "END") after ->
  parse_segments section_text = segments (parse_segments_lines before)
  /\ (forall (st : SegState) (line : str),
        strip line = lit "END" -> in_segment st = false ->
        segments (parse_segments_step st line) = segments st).
Proof.
  intros Hlines Hopen Hafter. split.
  - unfold parse_segments, parse_segments_lines. rewrite Hlines.
    rewrite foldl_app. simpl.
    rewrite parse_segments_fold_keeps by assumption.
    rewrite parse_segments_step_open by assumption. reflexivity.
  - intros st line H Hin.
    apply (parse_segments_step_stray_end st line H Hin).
Qed.

Lemma parse_segments_drops_unterminated_record_witness :
  parse_segments (lit "SEGMENT
id=a
END
SEGMENT
id=b
name=open") = parse_segments (lit "SEGMENT
id=a
END").
Proof.
  refine (eq_trans
    (proj1 (parse_segments_drops_unterminated_record
       _ [lit "SEGMENT"; lit "id=a"; lit "END"] [lit "id=b"; lit "name=open"]
       (lit "SEGMENT") _ _ _)) _).
  - vm_compute. reflexivity.
  - vm_compute. reflexivity.
  - repeat constructor; vm_compute; discriminate.
  - vm_compute. reflexivity.
Defined.

(** C8 as the specification states it fails: a block that ends inside
    an open record yields no record for it. *)
Lemma parse_segments_unterminated_counterexample :
  let text := lit "SEGMENT
id=x
name=Test" in
  parse_segments text = []
  /\ ~ In (segment_of_buffer [lit "id=x"; lit "name=Test"])
         (parse_segments text).
Proof.
  split.
  - vm_compute. reflexivity.
  - vm_compute. intros [].
Qed.

(** The boundary case of the specification: two [END] lines close one
    record. *)
Example parse_segments_two_ends :
  length (parse_segments (lit "SEGMENT
id=x
name=Test
END
END")) = 1%nat.
Proof. vm_compute. reflexivity. Qed.

End RecordParsers.

Section FormatParser.
Import ContentSource.






(** The absent case on a whole block. *)
Example parse_formats_absent_limits :
  (fun r => match r with
            | Ok [f] => Some (limits f)
            | _ => None
            end)
    (parse_formats (lit "FORMAT
id=banner
END"))
  = Some {| headline_max := 0; body_max := 0 |}.
Proof. vm_compute. reflexivity. Qed.

(** The digits of any script are digits for [int], and so are spaces
    around the literal and an underscore between two digits. *)
Example parse_formats_reads_decimal_digits :
  (fun r => match r with
            | Ok [f] => Some (limits f)
            | _ => None
            end)
    (parse_formats (lit "FORMAT
id=banner
headline_max=١٢
body_max=1_000
END"))
  = Some {| headline_max := 12; body_max := 1000 |}.
Proof. vm_compute. reflexivity. Qed.

(** A literal of 4301 digits is rejected like a malformed one. *)
Example parse_formats_too_many_digits :
  parse_formats (lit "FORMAT" ++ nl ++ lit "headline_max=" ++ long_integer
                   ++ nl ++ lit "END")
  = Raise (ValueError long_integer).
Proof. vm_compute. reflexivity. Qed.

(** A negative maximum is an integer literal like any other: the parser
    passes it on to the format catalog. *)
Example parse_formats_accepts_negative_limit :
  (fun r => match r with
            | Ok [f] => Some (limits f)
            | _ => None
            end)
    (parse_formats (lit "FORMAT
id=banner
headline_max=-1
body_max=100
END"))
  = Some {| headline_max := -1; body_max := 100 |}.
Proof. vm_compute. reflexivity. Qed.
End FormatParser.

Section Extractor.
Import LlmClient.

(** C5: on the boundary string of the specification the extractor returns
    the object, the brace inside the string literal not counting, whatever
    room for recursion the interpreter has; in the
    scan, a closing brace read inside a string never changes the depth,
    and a backslash makes the scan skip the next character, so an escaped
    quote does not change the in-string state. *)
Theorem extract_first_json_object_boundary :
  (forall room : loads_call -> nat,
      _extract_first_json_object room boundary_output
      = Ok (litq "{`a`: {`b`: `}`}}"))
  /\ (forall (depth : Z) (rest : str),
        brace_scan depth true false (125%N :: rest)
        = cons 125%N <$> brace_scan depth true false rest)
  /\ (forall (depth : Z) (in_string : bool) (c : char) (rest : str),
        brace_scan depth in_string false (92%N :: c :: rest)
        = (fun t => 92%N :: c :: t) <$> brace_scan depth in_string false rest).
Proof.
  split; [|split].
  - intros room. unfold _extract_first_json_object.
    destruct (room extract_loads); vm_compute; reflexivity.
  - intros depth rest. reflexivity.
  - intros depth in_string c rest. simpl.
    destruct (brace_scan depth in_string false rest); reflexivity.
Qed.

(** An escaped quote inside a string literal: the brace after it is still
    inside the string. *)
Example extract_escaped_quote :
  _extract_first_json_object ample_room (litq "see {`k`: `a\`}`} done")
  = Ok (litq "{`k`: `a\`}`}").
Proof. vm_compute. reflexivity. Qed.
End Extractor.

Section ResultMonad.
Context {A B : Type}.

Lemma bind_ok_inv (m : result A) (k : A -> result B) (b : B) :
  (let* a := m in k a) = Ok b -> exists a, m = Ok a /\ k a = Ok b.
Proof. destruct m as [a|e]; simpl; intros H; [eauto | discriminate]. Qed.

Lemma bind_raises (P : exn -> Prop) (m : result A) (k : A -> result B) :
  raises_only P m -> (forall a, raises_only P (k a)) ->
  raises_only P (let* a := m in k a).
Proof.
  intros Hm Hk e. destruct m as [a|e']; simpl.
  - apply Hk.
  - intros [= <-]. apply Hm. reflexivity.
Qed.

Lemma ok_raises (P : exn -> Prop) (a : A) : raises_only P (Ok a).
Proof. intros e H. discriminate. Qed.

Lemma raise_raises (P : exn -> Prop) (e : exn) :
  P e -> raises_only P (@Raise A e).
Proof. intros H e' [= <-]. exact H. Qed.
End ResultMonad.

Ltac bind_inv H :=
  repeat match type of H with
         | Py.bind ?m ?k = Ok _ =>
           let a := fresh "a" in
           let Ha := fresh "H" a in
           apply bind_ok_inv in H; destruct H as (a & Ha & H)
         end.

Section SchemaValidation.
Import Schemas.

Lemma is_validation_error_intro loc msg :
  is_validation_error (ValidationError loc msg).
Proof. exists loc, msg. reflexivity. Qed.

Ltac verr :=
  repeat first
    [ apply ok_raises
    | apply raise_raises, is_validation_error_intro
    | apply bind_raises; [|intros ?]
    | progress unfold invalid
    | match goal with
      | |- raises_only _ (match ?x with _ => _ end) => destruct x
      | |- raises_only _ (if ?x then _ else _) => destruct x
      end ].

Lemma validate_str_raises loc v :
  raises_only is_validation_error (validate_str loc v).
Proof. unfold validate_str. verr. Qed.

Lemma validate_int_raises loc v :
  raises_only is_validation_error (validate_int loc v).
Proof. unfold validate_int. verr. Qed.

Lemma validate_int_ge_raises lo loc v :
  raises_only is_validation_error (validate_int_ge lo loc v).
Proof. unfold validate_int_ge. verr. apply validate_int_raises. Qed.

Lemma validate_int_range_raises lo hi loc v :
  raises_only is_validation_error (validate_int_range lo hi loc v).
Proof. unfold validate_int_range. verr. apply validate_int_raises. Qed.

Lemma validate_literal_raises allowed loc v :
  raises_only is_validation_error (validate_literal allowed loc v).
Proof. unfold validate_literal. verr. Qed.

Lemma validate_version_raises loc v :
  raises_only is_validation_error (validate_version loc v).
Proof. unfold validate_version. verr. apply validate_str_raises. Qed.

Lemma as_object_raises loc v :
  raises_only is_validation_error (as_object loc v).
Proof. unfold as_object. verr. Qed.

Section Containers.
Context {A : Type} (item : list str -> json -> result A).
Hypothesis item_raises :
  forall loc v, raises_only is_validation_error (item loc v).

Lemma validate_items_raises loc i l :
  raises_only is_validation_error (validate_items item loc i l).
Proof.
  revert i. induction l as [|v l IH]; intros i; simpl.
  - apply ok_raises.
  - apply bind_raises; [apply item_raises|]. intros x.
    apply bind_raises; [apply IH|]. intros xs. apply ok_raises.
Qed.

Lemma validate_list_raises loc v :
  raises_only is_validation_error (validate_list item loc v).
Proof.
  unfold validate_list.
  destruct v; try (apply raise_raises, is_validation_error_intro).
  apply validate_items_raises.
Qed.

Lemma required_raises loc d name :
  raises_only is_validation_error (required item loc d name).
Proof.
  unfold required. destruct (dict_get d (lit name)).
  - apply item_raises.
  - apply raise_raises, is_validation_error_intro.
Qed.

Lemma defaulted_raises dflt loc d name :
  raises_only is_validation_error (defaulted item dflt loc d name).
Proof.
  unfold defaulted. destruct (dict_get d (lit name)).
  - apply item_raises.
  - apply ok_raises.
Qed.

(** Every item of an accepted list was accepted. *)
Lemma validate_items_ok loc i l xs :
  validate_items item loc i l = Ok xs ->
  Forall2 (fun v x => exists loc', item loc' v = Ok x) l xs.
Proof.
  revert i xs. induction l as [|v l IH]; intros i xs H; simpl in H.
  - injection H as <-. constructor.
  - bind_inv H. injection H as <-. constructor; eauto.
Qed.
End Containers.

Lemma required_ok_inv {A} (item : list str -> json -> result A) loc d name x :
  required item loc d name = Ok x ->
  exists v, dict_get d (lit name) = Some v /\ item (loc ++ [lit name]) v = Ok x.
Proof.
  unfold required. destruct (dict_get d (lit name)); [eauto|].
  discriminate.
Qed.

Lemma validate_list_ok_inv {A} (item : list str -> json -> result A) loc v xs :
  validate_list item loc v = Ok xs ->
  exists l, v = JList l
            /\ Forall2 (fun v x => exists loc', item loc' v = Ok x) l xs.
Proof.
  unfold validate_list. destruct v; try discriminate.
  intros H. eexists. split; [reflexivity|].
  eapply validate_items_ok, H.
Qed.

#[local] Hint Resolve validate_str_raises validate_int_raises validate_int_ge_raises
  validate_int_range_raises validate_literal_raises validate_version_raises
  as_object_raises : verr.

Ltac model_raises :=
  repeat lazymatch goal with
    | |- raises_only _ (Ok _) => apply ok_raises
    | |- raises_only _ (Py.bind _ _) => apply bind_raises; [|intros ?]
    | |- raises_only _ (required _ _ _ _) =>
      apply required_raises; intros ? ?
    | |- raises_only _ (defaulted _ _ _ _ _) =>
      apply defaulted_raises; intros ? ?
    | |- raises_only _ (validate_list _ _ _) =>
      apply validate_list_raises; intros ? ?
    | |- raises_only _ _ => solve [auto with verr]
    end.

Lemma CharCount_raises loc v :
  raises_only is_validation_error (CharCount.model_validate loc v).
Proof. unfold CharCount.model_validate. model_raises. Qed.

Lemma RiskFlag_raises loc v :
  raises_only is_validation_error (RiskFlag.model_validate loc v).
Proof. unfold RiskFlag.model_validate. model_raises. Qed.

#[local] Hint Resolve CharCount_raises RiskFlag_raises : verr.

Lemma CopyVariant_raises loc v :
  raises_only is_validation_error (CopyVariant.model_validate loc v).
Proof.
  unfold CopyVariant.model_validate, CopyVariant.validate_fields.
  model_raises.
Qed.

#[local] Hint Resolve CopyVariant_raises : verr.

Lemma SegmentOutput_raises loc v :
  raises_only is_validation_error (SegmentOutput.model_validate loc v).
Proof. unfold SegmentOutput.model_validate. model_raises. Qed.

Lemma QuestionItem_raises loc v :
  raises_only is_validation_error (QuestionItem.model_validate loc v).
Proof. unfold QuestionItem.model_validate. model_raises. Qed.

Lemma GlobalRiskItem_raises loc v :
  raises_only is_validation_error (GlobalRiskItem.model_validate loc v).
Proof. unfold GlobalRiskItem.model_validate. model_raises. Qed.

Lemma ExportHints_raises loc v :
  raises_only is_validation_error (ExportHints.model_validate loc v).
Proof. unfold ExportHints.model_validate. model_raises. Qed.

Lemma ExecSummary_raises loc v :
  raises_only is_validation_error (ExecSummary.model_validate loc v).
Proof. unfold ExecSummary.model_validate. model_raises. Qed.

Lemma InputEcho_raises loc v :
  raises_only is_validation_error (InputEcho.model_validate loc v).
Proof. unfold InputEcho.model_validate. model_raises. Qed.

#[local] Hint Resolve SegmentOutput_raises QuestionItem_raises GlobalRiskItem_raises
  ExportHints_raises ExecSummary_raises InputEcho_raises : verr.

Lemma SegCraftResponse_fields_raises loc v :
  raises_only is_validation_error (SegCraftResponse.validate_fields loc v).
Proof. unfold SegCraftResponse.validate_fields. model_raises. Qed.

Lemma validate_lengths_loop_raises expected segments e :
  SegCraftResponse.validate_lengths_loop expected segments = Raise e ->
  exists msg, e = ValueError msg.
Proof.
  induction segments as [|segment rest IH]; simpl; [discriminate|].
  destruct (negb _).
  - intros [= <-]. eauto.
  - exact IH.
Qed.

(** Every rejection by the Schema Validator is a validation failure. *)
Lemma model_validate_raises payload :
  raises_only is_validation_error (SegCraftResponse.model_validate payload).
Proof.
  unfold SegCraftResponse.model_validate.
  apply bind_raises; [apply SegCraftResponse_fields_raises|]. intros self.
  unfold SegCraftResponse.run_after_validator,
    SegCraftResponse.validate_lengths.
  destruct (SegCraftResponse.validate_lengths_loop _ _) as [[]|e] eqn:E;
    simpl.
  - apply ok_raises.
  - apply validate_lengths_loop_raises in E as [msg ->].
    apply raise_raises, is_validation_error_intro.
Qed.

(** ** The variant-count check *)

Lemma validate_lengths_loop_ok expected segments :
  SegCraftResponse.validate_lengths_loop expected segments = Ok tt ->
  Forall (copies_match expected) segments.
Proof.
  induction segments as [|segment rest IH]; simpl; intros H.
  - constructor.
  - destruct (Z.eqb_spec (Z.of_nat (length (SegmentOutput.copies segment)))
                expected) as [Heq|Hne]; simpl in H.
    + constructor; [exact Heq | apply IH, H].
    + discriminate.
Qed.

(** The loop stops at the first segment whose number of copies differs,
    with the message of that segment. *)
Lemma validate_lengths_loop_first expected before segment after :
  Forall (copies_match expected) before ->
  ~ copies_match expected segment ->
  SegCraftResponse.validate_lengths_loop expected
    (before ++ segment :: after)
  = Raise (ValueError
             (SegCraftResponse.lengths_message expected
                (SegmentOutput.segment_id segment))).
Proof.
  intros Hbefore Hbad. induction Hbefore as [|s before Hs _ IH]; simpl.
  - destruct (Z.eqb_spec (Z.of_nat (length (SegmentOutput.copies segment)))
                expected) as [Heq|Hne]; [|reflexivity].
    exfalso. apply Hbad, Heq.
  - destruct (Z.eqb_spec (Z.of_nat (length (SegmentOutput.copies s)))
                expected) as [Heq|Hne]; [exact IH|].
    exfalso. apply Hne, Hs.
Qed.

(** A list with a segment of another number of copies has a first
    one. *)
Lemma first_mismatch expected segments :
  Exists (fun s => ~ copies_match expected s) segments ->
  exists before segment after,
    segments = before ++ segment :: after
    /\ Forall (copies_match expected) before
    /\ ~ copies_match expected segment.
Proof.
  induction segments as [|s rest IH]; intros Hex.
  - inversion Hex.
  - destruct (Z.eq_dec (Z.of_nat (length (SegmentOutput.copies s)))
                expected) as [Heq|Hne].
    + apply Exists_cons in Hex as [Hbad|Hrest]; [exfalso; apply Hbad, Heq|].
      destruct (IH Hrest) as (before & segment & after & -> & Hb & Hbad).
      exists (s :: before), segment, after.
      split; [reflexivity|]. split; [|exact Hbad].
      constructor; [exact Heq|exact Hb].
    + exists [], s, rest. split; [reflexivity|].
      split; [constructor|exact Hne].
Qed.

Lemma startswith_app (p s : str) : startswith p (p ++ s) = true.
Proof.
  induction p as [|c p IH]; simpl; [reflexivity|].
  rewrite N.eqb_refl. exact IH.
Qed.

Lemma contains_app (sub a b : str) : contains sub (a ++ sub ++ b) = true.
Proof.
  induction a as [|c a IH]; simpl.
  - assert (H := startswith_app sub b).
    destruct (sub ++ b); simpl; rewrite H; reflexivity.
  - rewrite IH. apply orb_true_r.
Qed.

Lemma contains_app_end (sub a : str) : contains sub (a ++ sub) = true.
Proof. rewrite <- (app_nil_r sub) at 2. apply contains_app. Qed.

(** C1 (as the code has it): in a response the Schema Validator accepts,
    every segment has exactly [variants_per_segment] copy variants; a
    payload whose fields are valid and in which some segment has another
    number of copies is rejected with a validation failure whose message
    is that of the first such segment (every segment before it has the
    requested number of copies), and this message names the segment
    identifier and the requested count. (It does not name the actual
    count, see the counterexample.) *)
Theorem validate_lengths_enforced :
  (forall payload r,
      SegCraftResponse.model_validate payload = Ok r ->
      Forall (copies_match
                (InputEcho.variants_per_segment
                   (SegCraftResponse.input_echo r)))
             (SegCraftResponse.segments r))
  /\ (forall payload self,
        SegCraftResponse.validate_fields [] payload = Ok self ->
        let expected :=
          InputEcho.variants_per_segment
            (SegCraftResponse.input_echo self) in
        Exists (fun s => ~ copies_match expected s)
               (SegCraftResponse.segments self) ->
        exists before segment after,
          SegCraftResponse.segments self = before ++ segment :: after
          /\ Forall (copies_match expected) before
          /\ ~ copies_match expected segment
          /\ SegCraftResponse.model_validate payload
             = Raise (ValidationError []
                        (lit "Value error, "
                           ++ SegCraftResponse.lengths_message expected
                                (SegmentOutput.segment_id segment))))
  /\ (forall payload self before segment after,
        SegCraftResponse.validate_fields [] payload = Ok self ->
        let expected :=
          InputEcho.variants_per_segment
            (SegCraftResponse.input_echo self) in
        SegCraftResponse.segments self = before ++ segment :: after ->
        Forall (copies_match expected) before ->
        ~ copies_match expected segment ->
        SegCraftResponse.model_validate payload
        = Raise (ValidationError []
                   (lit "Value error, "
                      ++ SegCraftResponse.lengths_message expected
                           (SegmentOutput.segment_id segment))))
  /\ (forall expected segment_id,
        contains segment_id
          (SegCraftResponse.lengths_message expected segment_id) = true
        /\ contains (str_of_int expected)
             (SegCraftResponse.lengths_message expected segment_id) = true).
Proof.
  assert (Hfirst : forall payload self before segment after,
    SegCraftResponse.validate_fields [] payload = Ok self ->
    SegCraftResponse.segments self = before ++ segment :: after ->
    Forall (copies_match
              (InputEcho.variants_per_segment
                 (SegCraftResponse.input_echo self))) before ->
    ~ copies_match
        (InputEcho.variants_per_segment (SegCraftResponse.input_echo self))
        segment ->
    SegCraftResponse.model_validate payload
    = Raise (ValidationError []
               (lit "Value error, "
                  ++ SegCraftResponse.lengths_message
                       (InputEcho.variants_per_segment
                          (SegCraftResponse.input_echo self))
                       (SegmentOutput.segment_id segment)))).
  { intros payload self before segment after Hfields Hsegs Hbefore Hbad.
    unfold SegCraftResponse.model_validate. rewrite Hfields. simpl.
    unfold SegCraftResponse.validate_lengths. rewrite Hsegs.
    rewrite (validate_lengths_loop_first _ _ _ _ Hbefore Hbad).
    reflexivity. }
  split; [|split; [|split]].
  - intros payload r H. unfold SegCraftResponse.model_validate in H.
    apply bind_ok_inv in H as (self & Hfields & H).
    unfold SegCraftResponse.validate_lengths in H.
    destruct (SegCraftResponse.validate_lengths_loop _ _) as [[]|e] eqn:E;
      simpl in H.
    + injection H as <-. apply validate_lengths_loop_ok, E.
    + destruct e; discriminate.
  - intros payload self Hfields expected Hex.
    destruct (first_mismatch expected _ Hex)
      as (before & segment & after & Hsegs & Hbefore & Hbad).
    exists before, segment, after.
    split; [exact Hsegs|]. split; [exact Hbefore|]. split; [exact Hbad|].
    exact (Hfirst _ _ _ _ _ Hfields Hsegs Hbefore Hbad).
  - intros payload self before segment after Hfields expected.
    exact (Hfirst _ _ _ _ _ Hfields).
  - intros expected segment_id. unfold SegCraftResponse.lengths_message.
    split.
    + rewrite !app_assoc. apply contains_app_end.
    + rewrite (app_assoc _ (lit "(")). apply contains_app.
Qed.

(** The sample response with two copies, decoded and validated. *)
Lemma sample_response_accepted :
  exists payload r,
    loads (ample_room LlmClient.payload_loads) (sample_response "2" two_copies) = Ok payload
    /\ SegCraftResponse.model_validate payload = Ok r
    /\ LlmClient.parse_and_validate ample_room (sample_response "2" two_copies) = Ok r.
Proof.
  eexists _, _. split; [vm_compute; reflexivity|].
  split; vm_compute; reflexivity.
Defined.

Lemma validate_lengths_enforced_witness :
  exists r,
    LlmClient.parse_and_validate ample_room (sample_response "2" two_copies) = Ok r
    /\ Forall (copies_match
                 (InputEcho.variants_per_segment
                    (SegCraftResponse.input_echo r)))
              (SegCraftResponse.segments r).
Proof.
  destruct sample_response_accepted as (payload & r & _ & Hvalid & Hparse).
  exists r. split; [exact Hparse|].
  exact (proj1 validate_lengths_enforced payload r Hvalid).
Defined.

(** C1 as the specification states it fails: with two variants
    requested and three copies supplied, the failure names the segment
    and the requested count 2, and the actual count 3 occurs nowhere in
    it; a response with one copy instead of three fails with the very
    same message. *)
Lemma validate_lengths_message_counterexample :
  exists msg,
    LlmClient.parse_and_validate ample_room (sample_response "2" three_copies)
    = Raise (ValidationError [] msg)
    /\ contains (lit "seg") msg = true
    /\ contains (str_of_int 2) msg = true
    /\ contains (str_of_int 3) msg = false
    /\ LlmClient.parse_and_validate ample_room (sample_response "2" sample_copy)
       = Raise (ValidationError [] msg).
Proof.
  eexists. split; [vm_compute; reflexivity|].
  repeat split; vm_compute; reflexivity.
Qed.
End SchemaValidation.

Section DictLemmas.
Lemma dict_get_set_eq (d : dict) (k : str) (v : json) :
  dict_get (dict_set d k v) k = Some v.
Proof.
  induction d as [|[k' v'] d IH]; simpl.
  - rewrite str_eqb_refl. reflexivity.
  - destruct (str_eqb k' k) eqn:E; simpl; rewrite E; [reflexivity|exact IH].
Qed.

Lemma dict_get_set_ne (d : dict) (k k' : str) (v : json) :
  k <> k' -> dict_get (dict_set d k v) k' = dict_get d k'.
Proof.
  intros Hne. induction d as [|[k0 v0] d IH]; simpl.
  - rewrite str_eqb_false by exact Hne. reflexivity.
  - destruct (str_eqb k0 k) eqn:E; simpl.
    + apply str_eqb_true in E. subst k0.
      rewrite str_eqb_false by exact Hne. reflexivity.
    + destruct (str_eqb k0 k'); [reflexivity|exact IH].
Qed.

Lemma dict_set_id (d : dict) (k : str) (v : json) :
  dict_get d k = Some v -> dict_set d k v = d.
Proof.
  induction d as [|[k0 v0] d IH]; simpl; [discriminate|].
  destruct (str_eqb k0 k).
  - intros [= ->]. reflexivity.
  - intros H. rewrite IH by exact H. reflexivity.
Qed.

Lemma dict_set_set (d : dict) (k : str) (v v' : json) :
  dict_set (dict_set d k v) k v' = dict_set d k v'.
Proof.
  induction d as [|[k0 v0] d IH]; simpl.
  - rewrite str_eqb_refl. reflexivity.
  - destruct (str_eqb k0 k) eqn:E; simpl; rewrite E; [reflexivity|].
    rewrite IH. reflexivity.
Qed.
End DictLemmas.

(** Two distinct literals are distinct strings. *)
Ltac lit_neq := let H := fresh in intros H; vm_compute in H; discriminate H.

Section CharCounts.
Import Schemas.

Lemma Forall2_right {A B} (P : A -> B -> Prop) (Q : B -> Prop) l k :
  Forall2 P l k -> (forall x y, P x y -> Q y) -> Forall Q k.
Proof. induction 1; intros HPQ; constructor; eauto. Qed.

Lemma Forall2_left {A B} (P : A -> B -> Prop) (x : A) l k :
  Forall2 P l k -> In x l -> exists y, P x y.
Proof.
  induction 1 as [|a b l k Hab _ IH]; intros Hin; [destruct Hin|].
  destruct Hin as [<-|Hin]; eauto.
Qed.

Lemma CopyVariant_synced loc v c :
  CopyVariant.model_validate loc v = Ok c -> counts_synced c.
Proof.
  unfold CopyVariant.model_validate. intros H.
  apply bind_ok_inv in H as (self & _ & [= <-]). reflexivity.
Qed.

Lemma SegmentOutput_synced loc v s :
  SegmentOutput.model_validate loc v = Ok s ->
  Forall counts_synced (SegmentOutput.copies s).
Proof.
  unfold SegmentOutput.model_validate. intros H. bind_inv H.
  injection H as <-. simpl.
  match goal with
  | Hc : required (validate_list CopyVariant.model_validate) _ _ _ = Ok _
    |- _ => apply required_ok_inv in Hc as (cv & _ & Hlist)
  end.
  apply validate_list_ok_inv in Hlist as (l & _ & Hall).
  eapply Forall2_right; [exact Hall|].
  intros x y [loc' Hy]. eapply CopyVariant_synced, Hy.
Qed.

Lemma validate_fields_segments payload self :
  SegCraftResponse.validate_fields [] payload = Ok self ->
  exists d l,
    payload = JDict d /\ dict_get d (lit "segments") = Some (JList l)
    /\ Forall2 (fun v s => exists loc, SegmentOutput.model_validate loc v = Ok s)
         l (SegCraftResponse.segments self).
Proof.
  unfold SegCraftResponse.validate_fields. intros H. bind_inv H.
  injection H as <-. simpl.
  destruct payload; try discriminate. injection Ha as <-.
  match goal with
  | Hs : required (validate_list SegmentOutput.model_validate) _ _ _ = Ok _
    |- _ => apply required_ok_inv in Hs as (sv & Hget & Hlist)
  end.
  apply validate_list_ok_inv in Hlist as (l & -> & Hall).
  eauto.
Qed.

Lemma model_validate_fields payload r :
  SegCraftResponse.model_validate payload = Ok r ->
  SegCraftResponse.validate_fields [] payload = Ok r.
Proof.
  unfold SegCraftResponse.model_validate. intros H.
  apply bind_ok_inv in H as (self & Hfields & H).
  unfold SegCraftResponse.validate_lengths in H.
  destruct (SegCraftResponse.validate_lengths_loop _ _) as [[]|e];
    simpl in H.
  - injection H as <-. exact Hfields.
  - destruct e; discriminate.
Qed.

Lemma required_set_eq {A} (item : list str -> json -> result A)
  loc d (name : string) v :
  required item loc (dict_set d (lit name) v) name
  = item (loc ++ [lit name]) v.
Proof. unfold required. rewrite dict_get_set_eq. reflexivity. Qed.

Lemma required_set_ne {A} (item : list str -> json -> result A)
  loc d (key name : string) v :
  lit key <> lit name ->
  required item loc (dict_set d (lit key) v) name = required item loc d name.
Proof. intros H. unfold required. rewrite dict_get_set_ne by exact H. reflexivity. Qed.

Lemma defaulted_set_ne {A} (item : list str -> json -> result A) dflt
  loc d (key name : string) v :
  lit key <> lit name ->
  defaulted item dflt loc (dict_set d (lit key) v) name
  = defaulted item dflt loc d name.
Proof. intros H. unfold defaulted. rewrite dict_get_set_ne by exact H. reflexivity. Qed.
End CharCounts.

Section RequiredCharCount.
Import Schemas.

Lemma rejected_intro {A} (m : result A) :
  raises_only is_validation_error m -> (forall a, m <> Ok a) -> rejected m.
Proof.
  intros Hraise Hno. destruct m as [a|e].
  - exfalso. exact (Hno a eq_refl).
  - destruct (Hraise e eq_refl) as (loc & msg & ->). exists loc, msg.
    reflexivity.
Qed.

Lemma CopyVariant_ok_char_count loc c r :
  CopyVariant.model_validate loc (JDict c) = Ok r ->
  exists supplied cc,
    dict_get c (lit "char_count") = Some supplied
    /\ CharCount.model_validate (loc ++ [lit "char_count"]) supplied = Ok cc.
Proof.
  unfold CopyVariant.model_validate. intros H.
  apply bind_ok_inv in H as (self & Hf & _).
  unfold CopyVariant.validate_fields in Hf. bind_inv Hf.
  match goal with
  | Hc : required CharCount.model_validate _ _ _ = Ok _ |- _ =>
    apply required_ok_inv in Hc as (supplied & Hget & Hcc)
  end.
  injection Ha as <-. eauto.
Qed.

Lemma CharCount_ok_inv loc supplied cc :
  CharCount.model_validate loc supplied = Ok cc ->
  exists d h b,
    supplied = JDict d
    /\ dict_get d (lit "headline") = Some (JInt h) /\ 0 <= h
    /\ dict_get d (lit "body") = Some (JInt b) /\ 0 <= b.
Proof.
  unfold CharCount.model_validate. intros H. bind_inv H.
  destruct supplied; try discriminate. injection Ha as <-.
  apply required_ok_inv in Ha0 as (hv & Hh & Hhv).
  apply required_ok_inv in Ha1 as (bv & Hb & Hbv).
  unfold validate_int_ge, validate_int in Hhv, Hbv.
  destruct hv; try discriminate. destruct bv; try discriminate.
  simpl in Hhv, Hbv.
  destruct (Z.ltb_spec n 0); [discriminate|].
  destruct (Z.ltb_spec n0 0); [discriminate|].
  exists d, n, n0. auto.
Qed.

(** A payload is accepted only if each of its copies is. *)
Lemma model_validate_copies payload r copy :
  SegCraftResponse.model_validate (JDict payload) = Ok r ->
  In copy (payload_copies payload) ->
  exists loc c, CopyVariant.model_validate loc copy = Ok c.
Proof.
  intros H Hin. apply model_validate_fields in H.
  apply validate_fields_segments in H as (d & l & [= <-] & Hget & Hall).
  unfold payload_copies, items in Hin. rewrite Hget in Hin.
  apply in_concat in Hin as (cs & Hcs & Hin).
  apply in_map_iff in Hcs as (seg & <- & Hseg).
  destruct (Forall2_left _ _ _ _ Hall Hseg) as (s & loc & Hs).
  unfold segment_copies, items in Hin.
  destruct seg as [| | | | | |sd]; try destruct Hin.
  destruct (dict_get sd (lit "copies")) as [[| | | | |cl|]|] eqn:Hcopies;
    try destruct Hin.
  unfold SegmentOutput.model_validate in Hs. bind_inv Hs.
  injection Ha as <-.
  match goal with
  | Hc : required (validate_list CopyVariant.model_validate) _ _ _ = Ok _
    |- _ => apply required_ok_inv in Hc as (cv & Hget' & Hlist)
  end.
  rewrite Hcopies in Hget'. injection Hget' as <-.
  apply validate_list_ok_inv in Hlist as (l' & [= <-] & Hall').
  destruct (Forall2_left _ _ _ _ Hall' Hin) as (c & loc' & Hc).
  eauto.
Qed.

(** C10: a copy variant without [char_count], or whose [char_count] has a
    negative headline or body entry, is rejected as a validation failure
    (nothing is filled in); and a payload that contains a copy variant
    the validator does not accept is rejected as a whole. *)
Theorem char_count_required :
  (forall loc c,
      dict_get c (lit "char_count") = None ->
      rejected (CopyVariant.model_validate loc (JDict c)))
  /\ (forall loc c cc n,
        dict_get c (lit "char_count") = Some (JDict cc) ->
        (dict_get cc (lit "headline") = Some (JInt n)
         \/ dict_get cc (lit "body") = Some (JInt n)) ->
        n < 0 ->
        rejected (CopyVariant.model_validate loc (JDict c)))
  /\ (forall payload copy,
        In copy (payload_copies payload) ->
        (forall loc, rejected (CopyVariant.model_validate loc copy)) ->
        rejected (SegCraftResponse.model_validate (JDict payload))).
Proof.
  split; [|split].
  - intros loc c Hnone. apply rejected_intro; [apply CopyVariant_raises|].
    intros r Hr.
    apply CopyVariant_ok_char_count in Hr as (supplied & cc & Hget & _).
    congruence.
  - intros loc c cc n Hget Hentry Hneg.
    apply rejected_intro; [apply CopyVariant_raises|].
    intros r Hr.
    apply CopyVariant_ok_char_count in Hr as (supplied & x & Hget' & Hcc).
    rewrite Hget in Hget'. injection Hget' as <-.
    apply CharCount_ok_inv in Hcc
      as (d & h & b & [= <-] & Hh & Hh0 & Hb & Hb0).
    destruct Hentry as [He|He]; rewrite He in *.
    + injection Hh as <-. lia.
    + injection Hb as <-. lia.
  - intros payload copy Hin Hrej.
    apply rejected_intro; [apply model_validate_raises|].
    intros r Hr.
    destruct (model_validate_copies _ _ _ Hr Hin) as (loc & c & Hc).
    destruct (Hrej loc) as (loc' & msg & Hraise). congruence.
Qed.

Lemma char_count_required_witness :
  rejected (CopyVariant.model_validate [] bare_copy)
  /\ rejected (CopyVariant.model_validate [] negative_copy)
  /\ rejected
       (SegCraftResponse.model_validate (JDict (payload_with bare_copy))).
Proof.
  split; [|split].
  - apply (proj1 char_count_required). vm_compute. reflexivity.
  - apply (proj1 (proj2 char_count_required) _ _ negative_count (-1)).
    + vm_compute. reflexivity.
    + left. vm_compute. reflexivity.
    + lia.
  - apply (proj2 (proj2 char_count_required) (payload_with bare_copy)
             bare_copy).
    + vm_compute. left. reflexivity.
    + intros loc. apply (proj1 char_count_required). vm_compute.
      reflexivity.
Defined.

(** The failure for a missing [char_count] is pydantic's
    [Field required] at that field. *)
Example missing_char_count_message :
  CopyVariant.model_validate [lit "copies"; lit "0"] bare_copy
  = Raise (ValidationError [lit "copies"; lit "0"; lit "char_count"]
             (lit "Field required")).
Proof. vm_compute. reflexivity. Qed.
End RequiredCharCount.

(* ===================================================================== *)
(** * The decoder: what it consumes and how it fails *)
(* ===================================================================== *)

Section Decoder.
Lemma skip_ws_length (s : str) : (length (skip_ws s) <= length s)%nat.
Proof.
  induction s as [|c s IH]; simpl; [lia|].
  destruct (is_json_ws c); simpl; lia.
Qed.

Lemma cons_char_ok (c : char) (m : result (str * str)) v rest :
  cons_char c m = Ok (v, rest) -> exists v', m = Ok (v', rest).
Proof.
  unfold cons_char. destruct m as [[v' rest']|e]; simpl; [|discriminate].
  intros [= <- <-]. eauto.
Qed.

(** A string literal is at least its closing quote. *)
Lemma scanstring_shorter (s : str) v rest :
  scanstring s = Ok (v, rest) -> (length rest < length s)%nat.
Proof.
  remember (length s) as n eqn:Hn. revert s v rest Hn.
  induction n as [n IH] using lt_wf_ind. intros s v rest -> H.
  assert (Hrec : forall c' s' v',
             (length s' < length s)%nat -> cons_char c' (scanstring s')
             = Ok (v', rest) -> (length rest < length s)%nat).
  { intros c' s' v' Hlt Hc. apply cons_char_ok in Hc as (v'' & Hc).
    specialize (IH _ Hlt s' v'' rest eq_refl Hc). lia. }
  destruct s as [|c r]; simpl in H; [discriminate|].
  repeat match type of H with
         | (if ?b then _ else _) = _ => destruct b
         | match ?x with _ => _ end = _ =>
           let E := fresh "E" in destruct x eqn:E
         | Raise _ = Ok _ => discriminate H
         | Ok _ = Ok _ => injection H as <- <-; simpl; lia
         | cons_char _ (scanstring _) = Ok _ =>
           eapply Hrec; [|exact H]; simpl; lia
         end.
Qed.

Lemma span_digits_length (s d rest : str) :
  span_digits s = (d, rest) -> length s = (length d + length rest)%nat.
Proof.
  revert d rest. induction s as [|c s IH]; intros d rest; simpl.
  - intros [= <- <-]. reflexivity.
  - destruct (is_digit c).
    + destruct (span_digits s) as [d' rest'] eqn:E. intros [= <- <-].
      simpl. rewrite (IH _ _ eq_refl). reflexivity.
    + intros [= <- <-]. reflexivity.
Qed.

Lemma scan_frac_length (s f rest : str) :
  scan_frac s = (f, rest) -> (length rest <= length s)%nat.
Proof.
  unfold scan_frac. destruct s as [|c r]; [intros [= <- <-]; lia|].
  destruct (c =? 46)%N; [|intros [= <- <-]; lia].
  destruct (span_digits r) as [[|x d] rest'] eqn:E.
  - intros [= <- <-]. lia.
  - apply span_digits_length in E. intros [= <- <-]. simpl in *. lia.
Qed.

Lemma scan_exp_length (s e rest : str) :
  scan_exp s = (e, rest) -> (length rest <= length s)%nat.
Proof.
  unfold scan_exp. destruct s as [|c r]; [intros [= <- <-]; lia|].
  destruct (_ || _)%bool; [|intros [= <- <-]; lia].
  destruct r as [|x r'].
  - simpl. intros [= <- <-]. simpl. lia.
  - destruct (_ || _)%bool.
    + destruct (span_digits r') as [[|y d] rest'] eqn:E.
      * intros [= <- <-]. lia.
      * apply span_digits_length in E. intros [= <- <-]. simpl in *. lia.
    + destruct (span_digits (x :: r')) as [[|y d] rest'] eqn:E.
      * intros [= <- <-]. lia.
      * apply span_digits_length in E. intros [= <- <-]. simpl in *. lia.
Qed.

Lemma scan_int_part_shorter (s ip rest : str) :
  scan_int_part s = Some (ip, rest) -> (length rest < length s)%nat.
Proof.
  unfold scan_int_part. destruct s as [|c r]; [discriminate|].
  destruct (c =? 48)%N; [intros [= <- <-]; simpl; lia|].
  destruct (is_digit c) eqn:Ed; [|discriminate].
  intros [= H]. simpl in H. rewrite Ed in H.
  destruct (span_digits r) as [d rest'] eqn:E.
  injection H as <- <-. apply span_digits_length in E. simpl. lia.
Qed.

Lemma scan_number_shorter (s : str) v rest :
  scan_number s = Some (Ok (v, rest)) -> (length rest < length s)%nat.
Proof.
  unfold scan_number.
  set (signed := match s with
                 | c :: r => if (c =? 45)%N then ([c], r) else ([], s)
                 | [] => ([], s)
                 end).
  assert (Hs : (length (snd signed) <= length s)%nat).
  { subst signed. destruct s as [|c r]; simpl; [lia|].
    destruct (c =? 45)%N; simpl; lia. }
  destruct signed as [sign s1]. simpl in Hs.
  destruct (scan_int_part s1) as [[ip s2]|] eqn:E1; [|discriminate].
  apply scan_int_part_shorter in E1.
  destruct (scan_frac s2) as [frac s3] eqn:E2. apply scan_frac_length in E2.
  destruct (scan_exp s3) as [ex s4] eqn:E3. apply scan_exp_length in E3.
  destruct frac, ex; try destruct (_ <? _)%nat; intros [= <- <-]; lia.
Qed.

(** A number fails by its digits only. *)
Lemma scan_number_raises (s : str) e :
  scan_number s = Some (Raise e) -> exists msg, e = ValueError msg.
Proof.
  unfold scan_number.
  destruct (match s with
            | c :: r => if (c =? 45)%N then ([c], r) else ([], s)
            | [] => ([], s)
            end) as [sign s1].
  destruct (scan_int_part s1) as [[ip s2]|]; [|discriminate].
  destruct (scan_frac s2) as [frac s3]. destruct (scan_exp s3) as [ex s4].
  destruct frac, ex; try destruct (_ <? _)%nat; intros [= <-]; eauto.
Qed.

Lemma startswith_length (p s : str) :
  startswith p s = true -> (length p <= length s)%nat.
Proof.
  revert s. induction p as [|a p IH]; intros s; simpl; [lia|].
  destruct s as [|b s]; [discriminate|].
  intros H. apply andb_true_iff in H as [_ H]. apply IH in H. simpl. lia.
Qed.

Lemma scan_word_shorter (w : string) (x : json) (s : str) v rest :
  (0 < length (lit w))%nat ->
  scan_word w x s = Some (Ok (v, rest)) -> (length rest < length s)%nat.
Proof.
  intros Hw. unfold scan_word.
  destruct (startswith (lit w) s) eqn:E; [|discriminate].
  apply startswith_length in E. intros [= <- <-].
  rewrite length_drop. lia.
Qed.

Lemma scan_word_raises (w : string) (x : json) (s : str) e :
  scan_word w x s <> Some (Raise e).
Proof.
  unfold scan_word. destruct (startswith (lit w) s); discriminate.
Qed.

Lemma scan_atom_shorter (s : str) v rest :
  scan_atom s = Some (Ok (v, rest)) -> (length rest < length s)%nat.
Proof.
  unfold scan_atom.
  repeat match goal with
         | |- match scan_word ?w ?x s with _ => _ end = _ -> _ =>
           let E := fresh "E" in
           destruct (scan_word w x s) as [?|] eqn:E;
           [intros [= ->];
            eapply scan_word_shorter; [|exact E]; vm_compute; lia|]
         | |- match scan_number s with _ => _ end = _ -> _ =>
           let E := fresh "E" in
           destruct (scan_number s) as [?|] eqn:E;
           [intros [= ->]; apply (scan_number_shorter _ _ _ E)|]
         end.
  apply scan_word_shorter. vm_compute. lia.
Qed.

Lemma scan_atom_raises (s : str) e :
  scan_atom s = Some (Raise e) -> exists msg, e = ValueError msg.
Proof.
  unfold scan_atom.
  repeat match goal with
         | |- match scan_word ?w ?x s with _ => _ end = _ -> _ =>
           let E := fresh "E" in
           destruct (scan_word w x s) as [?|] eqn:E;
           [intros [= ->]; destruct (scan_word_raises _ _ _ _ E)|]
         | |- match scan_number s with _ => _ end = _ -> _ =>
           let E := fresh "E" in
           destruct (scan_number s) as [?|] eqn:E;
           [intros [= ->]; apply (scan_number_raises _ _ E)|]
         end.
  intros Hw. destruct (scan_word_raises _ _ _ _ Hw).
Qed.

Lemma bind_raise_inv {A B} (m : result A) (k : A -> result B) e :
  (let* a := m in k a) = Raise e ->
  m = Raise e \/ exists a, m = Ok a /\ k a = Raise e.
Proof.
  destruct m as [a|e']; simpl; intros H; [eauto|].
  left. injection H as ->. reflexivity.
Qed.

(** Case analysis on the code of a decoder function in [H]. *)
Ltac decoder_cases H :=
  repeat match type of H with
         | (if ?b then _ else _) = _ => destruct b
         | match ?x with _ => _ end = _ =>
           let E := fresh "E" in destruct x eqn:E
         | Py.bind _ _ = Ok _ =>
           let E := fresh "E" in
           apply bind_ok_inv in H as ([? ?] & E & H); cbn beta iota in H
         | Py.bind _ _ = Raise _ =>
           let E := fresh "E" in
           apply bind_raise_inv in H as [H|([? ?] & E & H)];
           [|cbn beta iota in H]
         | Raise _ = Ok _ => discriminate H
         | Raise (decode_error _) = Raise RecursionError => discriminate H
         | Ok _ = Raise _ => discriminate H
         end.

(** The lengths the whitespace skips and the earlier results give. *)
Ltac lengths :=
  repeat match goal with
         | E : skip_ws ?r = _ |- _ =>
           let L := fresh "L" in
           assert (L := skip_ws_length r); rewrite E in L; simpl in L;
           clear E
         | E : scanstring _ = Ok _ |- _ => apply scanstring_shorter in E
         end;
  repeat match goal with
         | |- context [skip_ws ?r] =>
           lazymatch goal with
           | L : (length (skip_ws r) <= length r)%nat |- _ => fail
           | _ => assert (length (skip_ws r) <= length r)%nat
                    by apply skip_ws_length
           end
         | E : context [skip_ws ?r] |- _ =>
           lazymatch goal with
           | L : (length (skip_ws r) <= length r)%nat |- _ => fail
           | _ => assert (length (skip_ws r) <= length r)%nat
                    by apply skip_ws_length
           end
         end.

(** The failures of a string literal. *)
Lemma scanstring_raises (s : str) e :
  scanstring s = Raise e -> exists msg, e = JSONDecodeError msg.
Proof.
  remember (length s) as n eqn:Hn. revert s Hn.
  induction n as [n IH] using lt_wf_ind. intros s -> H.
  assert (Hrec : forall c' s',
             (length s' < length s)%nat ->
             cons_char c' (scanstring s') = Raise e ->
             exists msg, e = JSONDecodeError msg).
  { intros c' s' Hlt Hc. unfold cons_char in Hc.
    apply bind_raise_inv in Hc as [Hc|([? ?] & _ & Hc)]; [|discriminate].
    exact (IH _ Hlt s' eq_refl Hc). }
  destruct s as [|c r]; simpl in H; [injection H as <-; eexists; reflexivity|].
  repeat match type of H with
         | (if ?b then _ else _) = _ => destruct b
         | match ?x with _ => _ end = _ =>
           let E := fresh "E" in destruct x eqn:E
         | Raise (decode_error _) = _ =>
           injection H as <-; eexists; reflexivity
         | Ok _ = _ => discriminate H
         | cons_char _ (scanstring _) = _ =>
           eapply Hrec; [|exact H]; simpl; lia
         end.
Qed.

Lemma scanstring_no_recursion (s : str) :
  scanstring s <> Raise RecursionError.
Proof.
  intros H. apply scanstring_raises in H as (msg & H). discriminate.
Qed.

Lemma decode_error_raised {A} (msg : string) (e : exn) :
  Raise (A := A) (decode_error msg) = Raise e -> raised_by_loads e.
Proof. intros [= <-]. right. right. eexists. reflexivity. Qed.

(** ** The loops over the items of a container *)

Section Items.
Variable nested : str -> result (json * str).

Hypothesis nested_shorter :
  forall s v rest, nested s = Ok (v, rest) -> (length rest < length s)%nat.

Lemma parse_array_shorter (items : nat) acc s v rest :
  parse_array nested items acc s = Ok (v, rest) ->
  (length rest < length s)%nat.
Proof.
  revert acc s. induction items as [|items IH]; intros acc s H;
    simpl in H; [discriminate|].
  decoder_cases H.
  all: repeat match goal with
              | E : nested _ = Ok _ |- _ => apply nested_shorter in E
              | E : parse_array _ _ _ _ = Ok _ |- _ => apply IH in E
              end.
  all: lengths; try (injection H as <- <-); simpl in *; lia.
Qed.

Lemma parse_object_shorter (items : nat) acc s v rest :
  parse_object nested items acc s = Ok (v, rest) ->
  (length rest < length s)%nat.
Proof.
  revert acc s. induction items as [|items IH]; intros acc s H;
    simpl in H; [discriminate|].
  decoder_cases H.
  all: repeat match goal with
              | E : nested _ = Ok _ |- _ => apply nested_shorter in E
              | E : parse_object _ _ _ _ = Ok _ |- _ => apply IH in E
              end.
  all: lengths; try (injection H as <- <-); simpl in *; lia.
Qed.

(** The bound on the items is never reached: with a bound above the
    length of the text, the loops give the same result whatever the
    bound. *)
Lemma parse_array_items (items items' : nat) acc s :
  (length s < items)%nat -> (length s < items')%nat ->
  parse_array nested items acc s = parse_array nested items' acc s.
Proof.
  revert items' acc s.
  induction items as [|items IH]; intros items' acc s Hn Hm; [lia|].
  destruct items' as [|items']; [lia|]. simpl.
  destruct (nested s) as [[v rest]|e] eqn:E; simpl; [|reflexivity].
  apply nested_shorter in E.
  destruct (skip_ws rest) as [|c r] eqn:Er; [reflexivity|].
  destruct (c =? 93)%N; [reflexivity|].
  destruct (c =? 44)%N; [|reflexivity].
  lengths. apply IH; simpl in *; lia.
Qed.

Lemma parse_object_items (items items' : nat) acc s :
  (length s < items)%nat -> (length s < items')%nat ->
  parse_object nested items acc s = parse_object nested items' acc s.
Proof.
  revert items' acc s.
  induction items as [|items IH]; intros items' acc s Hn Hm; [lia|].
  destruct items' as [|items']; [lia|]. simpl.
  destruct (scanstring s) as [[key rest]|e] eqn:E; simpl; [|reflexivity].
  apply scanstring_shorter in E.
  destruct (skip_ws rest) as [|c r] eqn:Er; [reflexivity|].
  destruct (c =? 58)%N; [|reflexivity].
  destruct (nested (skip_ws r)) as [[v rest']|e] eqn:Ev; simpl;
    [|reflexivity].
  apply nested_shorter in Ev.
  destruct (skip_ws rest') as [|c' r'] eqn:Er'; [reflexivity|].
  destruct (c' =? 125)%N; [reflexivity|].
  destruct (c' =? 44)%N; [|reflexivity].
  destruct (skip_ws r') as [|c'' r''] eqn:Er''; [reflexivity|].
  destruct (c'' =? 34)%N; [|reflexivity].
  lengths. apply IH; simpl in *; lia.
Qed.

(** The failures of the loops are those of the items and the
    decoder's own, as long as the bound is not reached. *)
Lemma parse_array_raises (items : nat) acc s e :
  (forall t e', nested t = Raise e' -> raised_by_loads e') ->
  parse_array nested items acc s = Raise e -> raised_by_loads e.
Proof.
  intros Hnested. revert acc s.
  induction items as [|items IH]; intros acc s H; simpl in H.
  { injection H as <-. left. reflexivity. }
  decoder_cases H; eauto using decode_error_raised.
Qed.

Lemma parse_object_raises (items : nat) acc s e :
  (forall t e', nested t = Raise e' -> raised_by_loads e') ->
  parse_object nested items acc s = Raise e -> raised_by_loads e.
Proof.
  intros Hnested. revert acc s.
  induction items as [|items IH]; intros acc s H; simpl in H.
  { injection H as <-. left. reflexivity. }
  decoder_cases H; eauto using decode_error_raised.
  apply scanstring_raises in H. right. right. exact H.
Qed.

(** With room for the items, the loops do not raise
    [RecursionError]. *)
Lemma parse_array_room (bound items : nat) acc s :
  (forall t, (length t <= bound)%nat -> nested t <> Raise RecursionError) ->
  (length s <= bound)%nat -> (length s < items)%nat ->
  parse_array nested items acc s <> Raise RecursionError.
Proof.
  intros Hnested. revert acc s.
  induction items as [|items IH]; intros acc s Hb Hn H; [lia|].
  simpl in H. decoder_cases H.
  - exact (Hnested _ Hb H).
  - match goal with
    | E : nested _ = Ok _ |- _ => apply nested_shorter in E
    end.
    lengths. apply IH in H; [exact H| |]; simpl in *; lia.
Qed.

Lemma parse_object_room (bound items : nat) acc s :
  (forall t, (length t <= bound)%nat -> nested t <> Raise RecursionError) ->
  (length s <= bound)%nat -> (length s < items)%nat ->
  parse_object nested items acc s <> Raise RecursionError.
Proof.
  intros Hnested. revert acc s.
  induction items as [|items IH]; intros acc s Hb Hn H; [lia|].
  simpl in H. decoder_cases H.
  - exact (scanstring_no_recursion _ H).
  - lengths. apply Hnested in H; [exact H|]. simpl in *. lia.
  - match goal with
    | E : nested _ = Ok _ |- _ => apply nested_shorter in E
    end.
    lengths. apply IH in H; [exact H| |]; simpl in *; lia.
Qed.
End Items.

(** ** One value *)

(** Every value read consumes at least one character. *)
Lemma scan_value_shorter nested s v rest :
  (forall inner, nested = Some inner ->
     forall t v' rest', inner t = Ok (v', rest') ->
                        (length rest' < length t)%nat) ->
  scan_value nested s = Ok (v, rest) -> (length rest < length s)%nat.
Proof.
  intros Hnested H. destruct s as [|c r]; [discriminate|].
  unfold scan_value in H. cbv beta iota in H.
  decoder_cases H.
  all: repeat match goal with
              | E : parse_array _ _ _ _ = Ok _ |- _ =>
                apply parse_array_shorter in E; [|apply Hnested; reflexivity]
              | E : parse_object _ _ _ _ = Ok _ |- _ =>
                apply parse_object_shorter in E; [|apply Hnested; reflexivity]
              | E : scan_atom _ = Some ?p, H' : ?p = Ok _ |- _ =>
                rewrite H' in E; apply scan_atom_shorter in E
              end.
  all: lengths; try (injection H as <- <-); simpl in *; lia.
Qed.

Lemma scan_once_shorter (room : nat) s v rest :
  scan_once room s = Ok (v, rest) -> (length rest < length s)%nat.
Proof.
  revert s v rest. induction room as [|room IH]; intros s v rest H;
    simpl in H; apply scan_value_shorter in H; try exact H.
  - intros inner [=].
  - intros inner [= <-]. exact IH.
Qed.

Lemma scan_value_raises nested s e :
  (forall inner, nested = Some inner ->
     forall t e', inner t = Raise e' -> raised_by_loads e') ->
  scan_value nested s = Raise e -> raised_by_loads e.
Proof.
  intros Hnested H. destruct s as [|c r].
  { exact (decode_error_raised _ _ H). }
  unfold scan_value in H. cbv beta iota in H.
  decoder_cases H; eauto using decode_error_raised.
  - apply scanstring_raises in H. right. right. exact H.
  - eapply parse_object_raises; [|exact H]. apply Hnested. reflexivity.
  - injection H as <-. left. reflexivity.
  - eapply parse_array_raises; [|exact H]. apply Hnested. reflexivity.
  - injection H as <-. left. reflexivity.
  - match goal with
    | E : scan_atom _ = Some ?p |- _ =>
      rewrite H in E; apply scan_atom_raises in E
    end.
    right. left. assumption.
Qed.

Lemma scan_once_raises (room : nat) s e :
  scan_once room s = Raise e -> raised_by_loads e.
Proof.
  revert s e. induction room as [|room IH]; intros s e H;
    simpl in H; apply scan_value_raises in H; try exact H.
  - intros inner [=].
  - intros inner [= <-]. exact IH.
Qed.

(** [json.loads] fails with [JSONDecodeError], with the [ValueError] of
    an integer of too many digits, or with [RecursionError]. *)
Lemma loads_raises (room : nat) (s : str) e :
  loads room s = Raise e -> raised_by_loads e.
Proof.
  unfold loads. intros H. decoder_cases H;
    eauto using decode_error_raised, scan_once_raises.
Qed.

(** ** Room enough *)

(** A text is never nested deeper than it is long: with room for as many
    containers as the text has characters, the decoder does not raise
    [RecursionError]. *)
Lemma scan_once_room (room : nat) s :
  (length s <= room)%nat -> scan_once room s <> Raise RecursionError.
Proof.
  revert s. induction room as [|room IH]; intros s Hroom H.
  - destruct s; [discriminate|simpl in Hroom; lia].
  - cbn [scan_once] in H. destruct s as [|c r]; [discriminate|].
    unfold scan_value in H. cbv beta iota in H. simpl in Hroom.
    decoder_cases H.
    + exact (scanstring_no_recursion _ H).
    + lengths.
      eapply (parse_object_room _ (scan_once_shorter room) room) in H;
        [exact H|exact IH| |]; simpl in *; lia.
    + lengths.
      eapply (parse_array_room _ (scan_once_shorter room) room) in H;
        [exact H|exact IH| |]; simpl in *; lia.
    + match goal with
      | E : scan_atom _ = Some ?p |- _ =>
        rewrite H in E; apply scan_atom_raises in E as (msg & E)
      end.
      discriminate.
Qed.

Lemma loads_room_suffices (room : nat) (s : str) :
  (length s <= room)%nat -> loads room s <> Raise RecursionError.
Proof.
  unfold loads. intros Hroom H. decoder_cases H.
  apply scan_once_room in H; [exact H|].
  assert (L := skip_ws_length s). lia.
Qed.
(** ** The decoder on nested and on long texts *)

(** A list inside a list, three times, needs room for three containers;
    the empty list needs room for one. *)
Example loads_nested :
  loads 3 (nested_lists 3) = Ok (JList [JList [JList []]])
  /\ loads 3 (nested_lists 4) = Raise RecursionError
  /\ loads 0 (lit "[]") = Raise RecursionError
  /\ loads 0 (lit "{}") = Raise RecursionError
  /\ loads 0 (lit " 12 ") = Ok (JInt 12).
Proof. vm_compute. repeat split; reflexivity. Qed.

(** The room is asked for at the opening bracket, before the rest of the
    text is read. *)
Example loads_nested_unclosed :
  loads 2 (lit "[[[") = Raise RecursionError
  /\ loads 3 (lit "[[[") = Raise (decode_error "Expecting value").
Proof. vm_compute. repeat split; reflexivity. Qed.

(** An integer of 4300 digits is read, one of 4301 digits is not, with
    or without a sign and wherever it stands; a number with a fraction
    has no limit. *)
Example loads_long_integer :
  (exists n, loads 0 (repeat 49%N 4300) = Ok (JInt n))
  /\ loads 0 long_integer = Raise (ValueError (digits_limit_message 4301))
  /\ loads 0 (45%N :: long_integer)
     = Raise (ValueError (digits_limit_message 4301))
  /\ loads 1 (lit "[1, " ++ long_integer ++ lit "]")
     = Raise (ValueError (digits_limit_message 4301))
  /\ loads 0 (lit "0." ++ long_integer)
     = Ok (JFloat (lit "0." ++ long_integer)).
Proof.
  split; [eexists; vm_compute; reflexivity|].
  vm_compute. repeat split; reflexivity.
Qed.
End Decoder.

Section Orchestrator.
Import Schemas LlmClient.

Lemma get_client_pure (w : World) : snd (get_client w) = w.
Proof.
  unfold get_client. destruct (bool_decide _); [reflexivity|].
  destruct (negb _); reflexivity.
Qed.

Lemma get_client_none (w : World) :
  strip (default [] (OPENAI_API_KEY w)) = [] -> get_client w = (Ok None, w).
Proof.
  intros H. unfold get_client. rewrite H. reflexivity.
Qed.

Lemma responses_create_calls req w r w' :
  responses_create req w = (r, w') -> calls w' = calls w ++ [req].
Proof.
  unfold responses_create. destruct (provider w); intros [= <- <-];
    reflexivity.
Qed.

(** A successful [generate] had a client and made exactly one call. *)
Lemma generate_ok prompt_text model_name w raw_text w1 :
  generate prompt_text model_name w = (Ok raw_text, w1) ->
  (exists key, get_client w = (Ok (Some key), w))
  /\ exists req, calls w1 = calls w ++ [req].
Proof.
  unfold generate, iobind. intros H.
  assert (Hpure := get_client_pure w).
  destruct (get_client w) as [[[key|]|e] w0]; simpl in Hpure; subst w0;
    try discriminate.
  split; [eauto|].
  destruct (responses_create _ w) as [[response|e] w'] eqn:Hcall;
    [|discriminate].
  apply responses_create_calls in Hcall.
  eexists. rewrite <- Hcall.
  destruct (negb _); [|destruct (bool_decide _)];
    unfold ret, raise in H; congruence.
Qed.

(** A successful [repair_json] made exactly one call. *)
Lemma repair_json_ok raw_text err model_name w fixed w1 :
  repair_json raw_text err model_name w = (Ok fixed, w1) ->
  exists req, calls w1 = calls w ++ [req].
Proof.
  unfold repair_json, iobind. intros H.
  assert (Hpure := get_client_pure w).
  destruct (get_client w) as [[[key|]|e] w0]; simpl in Hpure; subst w0;
    try discriminate.
  destruct (responses_create _ w) as [[response|e] w'] eqn:Hcall;
    [|discriminate].
  apply responses_create_calls in Hcall.
  eexists. rewrite <- Hcall.
  destruct (bool_decide _); unfold ret, raise in H; congruence.
Qed.

(** The calls of the provider leave the room for recursion as it
    was. *)
Lemma responses_create_room req w r w' :
  responses_create req w = (r, w') -> recursion_room w' = recursion_room w.
Proof.
  unfold responses_create. destruct (provider w); intros [= <- <-];
    reflexivity.
Qed.

Lemma generate_room prompt_text model_name w r w1 :
  generate prompt_text model_name w = (r, w1) ->
  recursion_room w1 = recursion_room w.
Proof.
  unfold generate, iobind. intros H.
  assert (Hpure := get_client_pure w).
  destruct (get_client w) as [[[key|]|e] w0]; simpl in Hpure; subst w0;
    try (unfold raise in H; injection H as <- <-; reflexivity).
  destruct (responses_create _ w) as [[response|e] w'] eqn:Hcall.
  - apply responses_create_room in Hcall. rewrite <- Hcall.
    destruct (negb _); [|destruct (bool_decide _)];
      unfold ret, raise in H; congruence.
  - apply responses_create_room in Hcall. congruence.
Qed.

Lemma repair_json_room raw_text err model_name w r w1 :
  repair_json raw_text err model_name w = (r, w1) ->
  recursion_room w1 = recursion_room w.
Proof.
  unfold repair_json, iobind. intros H.
  assert (Hpure := get_client_pure w).
  destruct (get_client w) as [[[key|]|e] w0]; simpl in Hpure; subst w0;
    try (unfold raise in H; injection H as <- <-; reflexivity).
  destruct (responses_create _ w) as [[response|e] w'] eqn:Hcall.
  - apply responses_create_room in Hcall. rewrite <- Hcall.
    destruct (bool_decide _); unfold ret, raise in H; congruence.
  - apply responses_create_room in Hcall. congruence.
Qed.

(** Whatever makes [parse_and_validate] fail is one of the exceptions the
    handlers of [run_generation] name, or one that [json.loads] raises
    and they do not name: [RecursionError], or the [ValueError] of an
    integer of too many digits. *)
Lemma parse_and_validate_raises room raw_text e :
  parse_and_validate room raw_text = Raise e ->
  caught e = true \/ e = RecursionError \/ exists msg, e = ValueError msg.
Proof.
  assert (Hloads : forall e', raised_by_loads e' ->
            caught e' = true \/ e' = RecursionError
            \/ exists msg, e' = ValueError msg).
  { intros e' [->|[(msg & ->)|(msg & ->)]]; eauto. }
  unfold parse_and_validate. intros H.
  apply bind_raise_inv in H as [H|(json_text & _ & H)].
  - unfold _extract_first_json_object in H.
    destruct (loads _ _) as [v|e'] eqn:E; [discriminate|].
    apply loads_raises in E.
    destruct e'; try (injection H as <-; apply Hloads, E).
    destruct (find_from _ _); [destruct (brace_scan _ _ _ _)|];
      try discriminate; injection H as <-; left; reflexivity.
  - apply bind_raise_inv in H as [H|(payload & _ & H)].
    + apply loads_raises in H. apply Hloads, H.
    + apply model_validate_raises in H as (loc & msg & ->).
      left. reflexivity.
Qed.

(** The first [try] statement of [run_generation] once the answer is
    there, and the second once the repaired answer is. *)
Lemma run_generation_answered
  (prompt_text format_id samples_dir : str) (model_name : option str)
  (w w1 : World) (raw_text : str) :
  generate prompt_text model_name w = (Ok raw_text, w1) ->
  run_generation prompt_text format_id model_name samples_dir false w
  = match parse_and_validate (recursion_room w) raw_text with
    | Ok response => (Ok (response, lit "llm", raw_text), w1)
    | Raise first_error =>
      if caught first_error then
        match repair_json raw_text first_error model_name w1 with
        | (Ok repaired_raw, w2) =>
          match parse_and_validate (recursion_room w) repaired_raw with
          | Ok validated => (Ok (validated, lit "llm", repaired_raw), w2)
          | Raise second_error =>
            if caught second_error
            then (Raise (LLMValidationError
                           (repair_failure_message second_error)), w2)
            else (Raise second_error, w2)
          end
        | (Raise e, w2) => (Raise e, w2)
        end
      else (Raise first_error, w1)
    end.
Proof.
  intros Hgen.
  destruct (generate_ok _ _ _ _ _ Hgen) as ((key & Hclient) & _).
  assert (Hroom1 := generate_room _ _ _ _ _ Hgen).
  unfold run_generation, iobind at 1. unfold iobind at 1.
  rewrite Hclient. unfold ret at 1.
  rewrite bool_decide_eq_false_2 by discriminate.
  unfold iobind at 1. rewrite Hgen.
  unfold try_except at 1. unfold iobind at 1, decoding at 1.
  rewrite Hroom1.
  destruct (parse_and_validate (recursion_room w) raw_text)
    as [response|first_error]; [reflexivity|].
  destruct (caught first_error); [|reflexivity].
  unfold iobind at 1.
  destruct (repair_json raw_text first_error model_name w1)
    as [[repaired_raw|e] w2] eqn:Hrepair; [|reflexivity].
  assert (Hroom2 := repair_json_room _ _ _ _ _ _ Hrepair).
  unfold try_except, iobind, decoding. rewrite Hroom2, Hroom1.
  destruct (parse_and_validate (recursion_room w) repaired_raw)
    as [validated|second_error]; [reflexivity|].
  destruct (caught second_error); reflexivity.
Qed.




(** The same with an answer nested deeper than the interpreter has room
    for: the decoder raises [RecursionError], which ends the run. *)
Example run_generation_nested_answer :
  let w := answering_world [nested_lists 991; sample_response "2" two_copies] in
  let out :=
    run_generation (lit "prompt") (lit "yadirect_text") None (lit "samples")
      false w in
  fst out = Raise RecursionError /\ length (calls (snd out)) = 1%nat.
Proof.
  vm_compute. repeat split; reflexivity.
Qed.

(** C4: when mock mode is forced or no credential is configured,
    [run_generation] leaves the world as it was (no call is made) and
    returns what [load_mock_output] returns for the format id, tagged
    [mock] with an empty raw text; the file read is [sample_output_1.json]
    for the format id [yadirect_text] and [sample_output_2.json] for every
    other one, and when that file holds a valid response, this response is
    the result. *)
Theorem run_generation_mock_mode
  (prompt_text format_id samples_dir : str) (model_name : option str)
  (force_mock : bool) (w : World) :
  force_mock = true \/ strip (default [] (OPENAI_API_KEY w)) = [] ->
  run_generation prompt_text format_id model_name samples_dir force_mock w
  = (let* response :=
       fst (load_mock_output by_run_generation format_id samples_dir w) in
     Ok (response, lit "mock", []), w)
  /\ (forall text response,
        files w !! path_join samples_dir (mock_file_name format_id)
        = Some text ->
        (let* data :=
           loads (recursion_room w (mock_loads by_run_generation)) text in
         SegCraftResponse.model_validate data)
        = Ok response ->
        run_generation prompt_text format_id model_name samples_dir
          force_mock w
        = (Ok (response, lit "mock", []), w))
  /\ mock_file_name (lit "yadirect_text") = lit "sample_output_1.json"
  /\ (forall other, other <> lit "yadirect_text" ->
                    mock_file_name other = lit "sample_output_2.json").
Proof.
  intros Hmock.
  assert (Hrun :
    run_generation prompt_text format_id model_name samples_dir force_mock w
    = (let* response :=
         fst (load_mock_output by_run_generation format_id samples_dir w) in
       Ok (response, lit "mock", []), w)).
  { unfold run_generation.
    assert (Hfirst :
      (if force_mock then ret true
       else let+ client := get_client in ret (bool_decide (client = None))) w
      = (Ok true, w)).
    { destruct force_mock; [reflexivity|].
      destruct Hmock as [Hf|Hkey]; [discriminate|].
      unfold iobind. rewrite (get_client_none w Hkey). reflexivity. }
    unfold iobind at 1. rewrite Hfirst.
    unfold iobind, load_mock_output.
    destruct (files w !! path_join samples_dir (mock_file_name format_id));
      simpl; [|reflexivity].
    destruct (let* data := loads _ s in SegCraftResponse.model_validate data);
      reflexivity. }
  split; [exact Hrun|]. split; [|split].
  - intros text response Hfile Hvalid. rewrite Hrun.
    unfold load_mock_output. rewrite Hfile. simpl. rewrite Hvalid.
    reflexivity.
  - vm_compute. reflexivity.
  - intros other Hother. unfold mock_file_name.
    rewrite str_eqb_false by exact Hother. reflexivity.
Qed.

Lemma run_generation_mock_mode_witness :
  let out :=
    run_generation (lit "prompt") (lit "yadirect_text") None (lit "samples")
      false offline_world in
  snd out = offline_world
  /\ exists response, fst out = Ok (response, lit "mock", []).
Proof.
  destruct (run_generation_mock_mode (lit "prompt") (lit "yadirect_text")
              (lit "samples") None false offline_world) as (Hrun & _).
  - right. vm_compute. reflexivity.
  - intros out. subst out. rewrite Hrun. split; [reflexivity|].
    vm_compute. eexists. reflexivity.
Defined.

(** Any other format id reads the second sample. *)
Example run_generation_mock_other_format :
  fst (run_generation (lit "prompt") (lit "vk_post") None (lit "samples")
         true offline_world)
  = let* response :=
      LlmClient.parse_and_validate ample_room (sample_response "1" sample_copy) in
    Ok (response, lit "mock", []).
Proof. vm_compute. reflexivity. Qed.
End Orchestrator.

(* ===================================================================== *)
(** * Loops that mutate the items of a payload *)
(* ===================================================================== *)

Section Traversals.
Implicit Types f g : json -> result json.

(** Two loops in a row are one loop with the two bodies in a row. *)
Lemma for_each_fuse f g l l1 l2 :
  for_each f l = Ok l1 -> for_each g l1 = Ok l2 ->
  for_each (fun x => let* y := f x in g y) l = Ok l2.
Proof.
  revert l1 l2. induction l as [|x l IH]; intros l1 l2 H1 H2; simpl in *.
  - injection H1 as <-. exact H2.
  - bind_inv H1. injection H1 as <-. simpl in H2. bind_inv H2.
    injection H2 as <-. rewrite Ha. simpl. rewrite Ha1. simpl.
    rewrite (IH _ _ Ha0 Ha2). reflexivity.
Qed.

(** If [g] succeeds on whatever [f] produces, a loop of [g] succeeds on
    what a loop of [f] produced. *)
Lemma for_each_then f g l l1 :
  for_each f l = Ok l1 ->
  (forall x x1, f x = Ok x1 -> exists x2, g x1 = Ok x2) ->
  exists l2, for_each g l1 = Ok l2.
Proof.
  intros H Hg. revert l1 H. induction l as [|x l IH]; intros l1 H;
    simpl in H.
  - injection H as <-. exists []. reflexivity.
  - bind_inv H. injection H as <-. simpl.
    destruct (Hg _ _ Ha) as (x2 & ->). destruct (IH _ Ha0) as (l2 & ->).
    simpl. eauto.
Qed.

(** If [g] leaves alone whatever [f] produces, so does its loop. *)
Lemma for_each_fix f g l l1 :
  for_each f l = Ok l1 ->
  (forall x x1, f x = Ok x1 -> g x1 = Ok x1) ->
  for_each g l1 = Ok l1.
Proof.
  intros H Hg. revert l1 H. induction l as [|x l IH]; intros l1 H;
    simpl in H.
  - injection H as <-. reflexivity.
  - bind_inv H. injection H as <-. simpl.
    rewrite (Hg _ _ Ha), (IH _ Ha0). reflexivity.
Qed.

Lemma for_each_Forall2 f l l1 :
  for_each f l = Ok l1 -> Forall2 (fun x x1 => f x = Ok x1) l l1.
Proof.
  revert l1. induction l as [|x l IH]; intros l1 H; simpl in H.
  - injection H as <-. constructor.
  - bind_inv H. injection H as <-. constructor; auto.
Qed.

Lemma for_each_total f (elem : json -> bool) l :
  (forall x, elem x = true -> exists y, f x = Ok y) ->
  forallb elem l = true -> exists l1, for_each f l = Ok l1.
Proof.
  intros Hf. induction l as [|x l IH]; simpl; intros H.
  - eauto.
  - apply andb_true_iff in H as [Hx Hl].
    destruct (Hf x Hx) as (y & ->). destruct (IH Hl) as (l1 & ->).
    simpl. eauto.
Qed.

(** A loop whose body fails on strings runs over no string. *)
Lemma for_each_strings_nil {A} f (h : A -> str) (l : list A) l1 :
  rejects_str f ->
  for_each f (map (fun a => JStr (h a)) l) = Ok l1 -> l = [].
Proof.
  intros Hf. destruct l as [|item l]; [reflexivity|]. simpl. intros H.
  bind_inv H. exfalso. exact (Hf _ _ Ha).
Qed.

Lemma rejects_str_fuse f g :
  rejects_str f -> rejects_str (fun x => let* y := f x in g y).
Proof.
  intros Hf s y H. apply bind_ok_inv in H as (z & Hz & _).
  exact (Hf _ _ Hz).
Qed.

(** The same three facts for [update_items]. *)
Lemma update_items_fuse f g x x1 x2 :
  rejects_str f ->
  update_items f x = Ok x1 -> update_items g x1 = Ok x2 ->
  update_items (fun c => let* y := f c in g y) x = Ok x2.
Proof.
  intros Hf H1 H2. destruct x; simpl in H1; try discriminate.
  - bind_inv H1. injection H1 as <-.
    apply (for_each_strings_nil f (fun c => [c])) in Ha; [|exact Hf].
    subst s. exact H2.
  - bind_inv H1. injection H1 as <-. simpl in H2. bind_inv H2.
    injection H2 as <-. simpl. rewrite (for_each_fuse _ _ _ _ _ Ha Ha0).
    reflexivity.
  - bind_inv H1. injection H1 as <-.
    apply (for_each_strings_nil f fst) in Ha; [|exact Hf].
    subst d. exact H2.
Qed.

Lemma update_items_then f g x x1 :
  rejects_str f ->
  update_items f x = Ok x1 ->
  (forall c c1, f c = Ok c1 -> exists c2, g c1 = Ok c2) ->
  exists x2, update_items g x1 = Ok x2.
Proof.
  intros Hf H Hg. destruct x; simpl in H; try discriminate.
  - bind_inv H. injection H as <-.
    apply (for_each_strings_nil f (fun c => [c])) in Ha; [|exact Hf].
    subst s. simpl. eauto.
  - bind_inv H. injection H as <-. simpl.
    destruct (for_each_then _ _ _ _ Ha Hg) as (l2 & ->). simpl. eauto.
  - bind_inv H. injection H as <-.
    apply (for_each_strings_nil f fst) in Ha; [|exact Hf].
    subst d. simpl. eauto.
Qed.

Lemma update_items_fix f g x x1 :
  rejects_str f ->
  update_items f x = Ok x1 ->
  (forall c c1, f c = Ok c1 -> g c1 = Ok c1) ->
  update_items g x1 = Ok x1.
Proof.
  intros Hf H Hg. destruct x; simpl in H; try discriminate.
  - bind_inv H. injection H as <-.
    apply (for_each_strings_nil f (fun c => [c])) in Ha; [|exact Hf].
    subst s. reflexivity.
  - bind_inv H. injection H as <-. simpl.
    rewrite (for_each_fix _ _ _ _ Ha Hg). reflexivity.
  - bind_inv H. injection H as <-.
    apply (for_each_strings_nil f fst) in Ha; [|exact Hf].
    subst d. reflexivity.
Qed.

(** And for [update_field]. *)
Lemma update_field_fuse f g d k d1 d2 :
  rejects_str f ->
  update_field f d k = Ok d1 -> update_field g d1 k = Ok d2 ->
  update_field (fun c => let* y := f c in g y) d k = Ok d2.
Proof.
  intros Hf H1 H2. unfold update_field in *.
  destruct (dict_get d k) as [x|] eqn:Hget.
  - bind_inv H1. injection H1 as <-.
    rewrite dict_get_set_eq in H2. bind_inv H2. injection H2 as <-.
    rewrite (update_items_fuse _ _ _ _ _ Hf Ha Ha0). simpl.
    rewrite dict_set_set. reflexivity.
  - injection H1 as <-. rewrite Hget in H2. exact H2.
Qed.

Lemma update_field_then f g d k d1 :
  rejects_str f ->
  update_field f d k = Ok d1 ->
  (forall c c1, f c = Ok c1 -> exists c2, g c1 = Ok c2) ->
  exists d2, update_field g d1 k = Ok d2.
Proof.
  intros Hf H Hg. unfold update_field in *.
  destruct (dict_get d k) as [x|] eqn:Hget.
  - bind_inv H. injection H as <-. rewrite dict_get_set_eq.
    destruct (update_items_then _ _ _ _ Hf Ha Hg) as (x2 & ->). simpl.
    eauto.
  - injection H as <-. rewrite Hget. eauto.
Qed.

Lemma update_field_fix f g d k d1 :
  rejects_str f ->
  update_field f d k = Ok d1 ->
  (forall c c1, f c = Ok c1 -> g c1 = Ok c1) ->
  update_field g d1 k = Ok d1.
Proof.
  intros Hf H Hg. unfold update_field in *.
  destruct (dict_get d k) as [x|] eqn:Hget.
  - bind_inv H. injection H as <-. rewrite dict_get_set_eq.
    rewrite (update_items_fix _ _ _ _ Hf Ha Hg). simpl.
    rewrite dict_set_set. reflexivity.
  - injection H as <-. rewrite Hget. reflexivity.
Qed.

(** The keys other than the one looped over keep their values. *)
Lemma update_field_other f d k d1 k' :
  update_field f d k = Ok d1 -> k <> k' -> dict_get d1 k' = dict_get d k'.
Proof.
  unfold update_field. intros H Hne. destruct (dict_get d k).
  - bind_inv H. injection H as <-. apply dict_get_set_ne, Hne.
  - injection H as <-. reflexivity.
Qed.

Lemma update_field_Forall2 f d k d1 :
  update_field f d k = Ok d1 ->
  Forall2 (fun x x1 => f x = Ok x1) (items d k) (items d1 k).
Proof.
  unfold update_field, items. intros H.
  destruct (dict_get d k) as [x|] eqn:Hget.
  - bind_inv H. injection H as <-. rewrite dict_get_set_eq.
    destruct x; simpl in Ha; try discriminate; bind_inv Ha;
      injection Ha as <-; try constructor.
    apply for_each_Forall2. assumption.
  - injection H as <-. rewrite Hget. constructor.
Qed.

Lemma update_field_total f (elem : json -> bool) d (k : string) :
  (forall x, elem x = true -> exists y, f x = Ok y) ->
  items_shaped elem d k = true ->
  exists d1, update_field f d (lit k) = Ok d1.
Proof.
  intros Hf. unfold items_shaped, update_field.
  destruct (dict_get d (lit k)) as [x|]; [|eauto].
  destruct x; try discriminate. intros Hall. simpl.
  destruct (for_each_total f elem l Hf Hall) as (l1 & ->). simpl. eauto.
Qed.
End Traversals.

Section Monotone.
Implicit Types f g : json -> result json.

(** A body that succeeds wherever another one does, with the same
    result, can replace it in a successful loop. *)
Lemma for_each_mono f g l l1 :
  (forall x y, f x = Ok y -> g x = Ok y) ->
  for_each f l = Ok l1 -> for_each g l = Ok l1.
Proof.
  intros Hfg. revert l1. induction l as [|x l IH]; intros l1 H;
    simpl in *; [exact H|].
  bind_inv H. injection H as <-.
  rewrite (Hfg _ _ Ha), (IH _ Ha0). reflexivity.
Qed.

Lemma update_items_mono f g x x1 :
  (forall c y, f c = Ok y -> g c = Ok y) ->
  update_items f x = Ok x1 -> update_items g x = Ok x1.
Proof.
  intros Hfg H. destruct x; simpl in *; try discriminate;
    bind_inv H; injection H as <-;
    rewrite (for_each_mono _ _ _ _ Hfg Ha); reflexivity.
Qed.

Lemma update_field_mono f g d k d1 :
  (forall c y, f c = Ok y -> g c = Ok y) ->
  update_field f d k = Ok d1 -> update_field g d k = Ok d1.
Proof.
  intros Hfg H. unfold update_field in *.
  destruct (dict_get d k); [|exact H].
  bind_inv H. injection H as <-.
  rewrite (update_items_mono _ _ _ _ Hfg Ha). reflexivity.
Qed.

Lemma Forall2_concat_map {A B} (R : B -> B -> Prop) (h : A -> list B) l l' :
  Forall2 (fun x y => Forall2 R (h x) (h y)) l l' ->
  Forall2 R (concat (map h l)) (concat (map h l')).
Proof.
  induction 1 as [|x y l l' Hxy _ IH]; simpl; [constructor|].
  apply Forall2_app; assumption.
Qed.

Lemma Forall2_impl' {A B} (P Q : A -> B -> Prop) l l' :
  Forall2 P l l' -> (forall x y, P x y -> Q x y) -> Forall2 Q l l'.
Proof. induction 1; intros HPQ; constructor; auto. Qed.
End Monotone.

Section StringFacts.
Lemma rstrip_length (s : str) : (length (rstrip s) <= length s)%nat.
Proof.
  induction s as [|c s IH]; simpl; [lia|].
  destruct (rstrip s) as [|x r].
  - destruct (is_space c); simpl; lia.
  - simpl in *. lia.
Qed.

Lemma rstrip_cons (c : char) (s : str) :
  rstrip (c :: s)
  = match rstrip s with
    | [] => if is_space c then [] else [c]
    | r => c :: r
    end.
Proof. reflexivity. Qed.

Lemma rstrip_idem (s : str) : rstrip (rstrip s) = rstrip s.
Proof.
  induction s as [|c s IH]; simpl; [reflexivity|].
  destruct (rstrip s) as [|x r] eqn:E.
  - destruct (is_space c) eqn:Ec; simpl; [reflexivity|].
    rewrite Ec. reflexivity.
  - rewrite (rstrip_cons c (x :: r)), IH. reflexivity.
Qed.

Lemma slice_to_length (k : Z) (s : str) :
  0 <= k -> len (slice_to k s) <= k.
Proof.
  intros Hk. unfold slice_to, len.
  destruct (Z.leb_spec 0 k); [|lia].
  rewrite length_take. lia.
Qed.

Lemma truncated_fits (k : Z) (s : str) :
  0 <= k -> len (rstrip (slice_to k s)) <= k.
Proof.
  intros Hk. assert (H1 := rstrip_length (slice_to k s)).
  assert (H2 := slice_to_length k s Hk). unfold len in *. lia.
Qed.
End StringFacts.

Section CopyFields.
Lemma text_field_set_eq d (k : string) v :
  text_field (dict_set d (lit k) v) k = v.
Proof. unfold text_field. rewrite dict_get_set_eq. reflexivity. Qed.

Lemma text_field_set_ne d (k : string) key v :
  key <> lit k -> text_field (dict_set d key v) k = text_field d k.
Proof.
  intros H. unfold text_field. rewrite dict_get_set_ne by exact H.
  reflexivity.
Qed.

Lemma flags_field_set_eq d l :
  flags_field (dict_set d (lit "risk_flags") (JList l)) = l.
Proof. unfold flags_field. rewrite dict_get_set_eq. reflexivity. Qed.

Lemma flags_field_set_ne d key v :
  key <> lit "risk_flags" -> flags_field (dict_set d key v) = flags_field d.
Proof.
  intros H. unfold flags_field. rewrite dict_get_set_ne by exact H.
  reflexivity.
Qed.

Lemma dict_get_setdefault_ne d k k' v :
  k <> k' -> dict_get (dict_setdefault d k v) k' = dict_get d k'.
Proof.
  intros H. unfold dict_setdefault. destruct (dict_get d k); [reflexivity|].
  apply dict_get_set_ne, H.
Qed.

Lemma dict_setdefault_present d k v :
  dict_get (dict_setdefault d k v) k <> None.
Proof.
  unfold dict_setdefault. destruct (dict_get d k) eqn:E.
  - rewrite E. discriminate.
  - rewrite dict_get_set_eq. discriminate.
Qed.

Lemma dict_setdefault_id d k v :
  dict_get d k <> None -> dict_setdefault d k v = d.
Proof.
  unfold dict_setdefault. destruct (dict_get d k); [reflexivity|].
  intros H. exfalso. apply H. reflexivity.
Qed.

Lemma flags_field_setdefault d :
  flags_field (dict_setdefault d (lit "risk_flags") (JList []))
  = flags_field d.
Proof.
  unfold flags_field, dict_setdefault.
  destruct (dict_get d (lit "risk_flags")) eqn:E.
  - rewrite E. reflexivity.
  - rewrite dict_get_set_eq. reflexivity.
Qed.
End CopyFields.

Section EnforcerOnOneCopy.
Import ContentSource.

Variables headline_max body_max : Z.
Hypothesis headline_max_nonneg : 0 <= headline_max.
Hypothesis body_max_nonneg : 0 <= body_max.

Lemma exceeds_iff limit text n :
  py_len text = Ok n -> (exceeds limit text <-> (n >? limit) = true).
Proof.
  intros Hn. unfold exceeds. rewrite Z.gtb_ltb, Z.ltb_lt. split.
  - intros (n' & Hn' & Hlt). congruence.
  - eauto.
Qed.

(** One of the two [if len(text) > limit] statements of the loop body. *)
Lemma truncate_step limit text (d : dict) (k : string) (o : bool) n d1 o1 :
  0 <= limit -> py_len text = Ok n ->
  (if n >? limit
   then let* t := truncated text limit in Ok (dict_set d (lit k) t, true)
   else Ok (d, o)) = Ok (d1, o1) ->
  exists after,
    enforced_text limit text after
    /\ ((n >? limit) = true /\ d1 = dict_set d (lit k) after /\ o1 = true
        \/ (n >? limit) = false /\ d1 = d /\ o1 = o /\ after = text).
Proof.
  intros Hlimit Hn H. destruct (n >? limit) eqn:Hgt.
  - bind_inv H. injection H as <- <-.
    destruct text; try discriminate. injection Ha as <-.
    eexists. split; [|left; eauto].
    exists n. split; [exact Hn|]. rewrite Hgt.
    eexists _, _. repeat split.
    + apply truncated_fits, Hlimit.
    + apply rstrip_idem.
  - injection H as <- <-. exists text. split; [|right; auto].
    exists n. split; [exact Hn|]. rewrite Hgt. reflexivity.
Qed.

Lemma enforced_text_fits limit before after :
  enforced_text limit before after ->
  exists n, py_len after = Ok n /\ (n >? limit) = false.
Proof.
  intros (n & Hn & H). destruct (n >? limit) eqn:Hgt.
  - destruct H as (s & t & -> & -> & _ & Hfit & _).
    exists (len t). split; [reflexivity|]. rewrite Z.gtb_ltb.
    apply Z.ltb_ge, Hfit.
  - subst after. eauto.
Qed.

(** What the body of the loop of [ensure_format_limits] does to a copy. *)
Lemma ensure_format_limits_body_spec d c1 :
  ensure_format_limits_body headline_max body_max (JDict d) = Ok c1 ->
  exists d1,
    c1 = JDict d1
    /\ enforced_text headline_max (text_field d "headline")
         (text_field d1 "headline")
    /\ enforced_text body_max (text_field d "body") (text_field d1 "body")
    /\ (exceeds headline_max (text_field d "headline")
        \/ exceeds body_max (text_field d "body") ->
        flags_field d1 = flags_field d ++ [overflow_flag])
    /\ (~ (exceeds headline_max (text_field d "headline")
           \/ exceeds body_max (text_field d "body")) ->
        flags_field d1 = flags_field d).
Proof.
  unfold ensure_format_limits_body.
  fold (text_field d "headline"). fold (text_field d "body").
  intros H. bind_inv H.
  destruct a0 as [d' o']. apply bind_ok_inv in H as (bl & Hbl & H).
  apply bind_ok_inv in H as ([d'' o] & Hstep2 & H).
  destruct (truncate_step _ _ _ _ _ _ _ _ headline_max_nonneg Ha Ha0)
    as (h' & Hh & Hcase1).
  destruct (truncate_step _ _ _ _ _ _ _ _ body_max_nonneg Hbl Hstep2)
    as (b' & Hb & Hcase2).
  assert (Hhead : text_field d'' "headline" = h'
                  /\ text_field d'' "body" = b'
                  /\ flags_field d'' = flags_field d
                  /\ o = (a >? headline_max) || (bl >? body_max)).
  { destruct Hcase1 as [(E1 & -> & ->)|(E1 & -> & -> & ->)];
      destruct Hcase2 as [(E2 & -> & ->)|(E2 & -> & -> & ->)];
      rewrite E1, E2;
      repeat first
        [ rewrite text_field_set_eq
        | rewrite text_field_set_ne by lit_neq
        | rewrite flags_field_set_ne by lit_neq ];
      auto. }
  destruct Hhead as (Eh & Eb & Ef & Eo).
  assert (Hover : exceeds headline_max (text_field d "headline")
                  \/ exceeds body_max (text_field d "body") <-> o = true).
  { rewrite (exceeds_iff _ _ _ Ha), (exceeds_iff _ _ _ Hbl), Eo.
    symmetry. apply orb_true_iff. }
  destruct o.
  - assert (exists d1,
               c1 = JDict d1
               /\ text_field d1 "headline" = h' /\ text_field d1 "body" = b'
               /\ flags_field d1 = flags_field d ++ [overflow_flag])
      as (d1 & -> & Eh1 & Eb1 & Ef1).
    { unfold flags_field in Ef at 1.
      destruct (dict_get d'' (lit "risk_flags")) as [[| | | | |fl|]|] eqn:Eg;
        try discriminate; injection H as <-; eexists;
        (split; [reflexivity|]);
        rewrite !text_field_set_ne by lit_neq;
        rewrite flags_field_set_eq, <- Ef; auto. }
    exists d1. rewrite Eh1, Eb1. repeat split; auto.
    intros Hno. exfalso. apply Hno, Hover. reflexivity.
  - injection H as <-. exists d''. rewrite Eh, Eb. repeat split; auto.
    intros Hyes. apply Hover in Hyes. discriminate.
Qed.

(** What the body of the loop of [enforce_char_counts] does to a copy. *)
Lemma enforce_char_counts_body_spec d c1 :
  enforce_char_counts_body (JDict d) = Ok c1 ->
  exists d1,
    c1 = JDict d1
    /\ text_field d1 "headline" = text_field d "headline"
    /\ text_field d1 "body" = text_field d "body"
    /\ flags_field d1 = flags_field d
    /\ counts_match_texts d1
    /\ dict_get d1 (lit "risk_flags") <> None.
Proof.
  unfold enforce_char_counts_body. simpl get_or. cbn [Py.bind].
  fold (text_field d "headline"). fold (text_field d "body").
  intros H. bind_inv H. injection H as <-.
  eexists. split; [reflexivity|].
  assert (Et : forall k : string,
             lit "char_count" <> lit k -> lit "risk_flags" <> lit k ->
             text_field
               (dict_setdefault
                  (dict_set d (lit "char_count")
                     (JDict [(lit "headline", JInt a); (lit "body", JInt a0)]))
                  (lit "risk_flags") (JList [])) k
             = text_field d k).
  { intros k H1 H2. unfold text_field.
    rewrite dict_get_setdefault_ne by exact H2.
    rewrite dict_get_set_ne by exact H1. reflexivity. }
  rewrite !Et by lit_neq.
  repeat split; auto.
  - rewrite flags_field_setdefault. apply flags_field_set_ne. lit_neq.
  - exists a, a0. rewrite !Et by lit_neq. repeat split; auto.
    rewrite dict_get_setdefault_ne by lit_neq. apply dict_get_set_eq.
  - apply dict_setdefault_present.
Qed.

Lemma body_rejects_non_dict (copy : json) y :
  ensure_format_limits_body headline_max body_max copy = Ok y ->
  exists d, copy = JDict d.
Proof. destruct copy; try discriminate. eauto. Qed.

Lemma enforce_one_spec copy copy' :
  enforce_one headline_max body_max copy = Ok copy' ->
  enforced_copy headline_max body_max copy copy'.
Proof.
  unfold enforce_one. intros H. bind_inv H.
  destruct (body_rejects_non_dict _ _ Ha) as (d & ->).
  apply ensure_format_limits_body_spec in Ha
    as (d1 & -> & Hh & Hb & Hf1 & Hf2).
  apply enforce_char_counts_body_spec in H
    as (d2 & -> & Eh & Eb & Ef & Hc & _).
  exists d, d2. rewrite Eh, Eb, Ef. repeat split; auto.
Qed.

(** A copy within the limits is left alone by the truncation. *)
Lemma ensure_format_limits_body_noop d n m :
  py_len (text_field d "headline") = Ok n -> (n >? headline_max) = false ->
  py_len (text_field d "body") = Ok m -> (m >? body_max) = false ->
  ensure_format_limits_body headline_max body_max (JDict d) = Ok (JDict d).
Proof.
  intros Hn Hgt Hm Hgt'. unfold ensure_format_limits_body.
  fold (text_field d "headline"). fold (text_field d "body").
  rewrite Hn. cbn [Py.bind]. rewrite Hgt. cbn [Py.bind].
  rewrite Hm. cbn [Py.bind]. rewrite Hgt'. reflexivity.
Qed.

(** A copy whose counters are in place is left alone by the recount. *)
Lemma enforce_char_counts_body_noop d :
  counts_match_texts d -> dict_get d (lit "risk_flags") <> None ->
  enforce_char_counts_body (JDict d) = Ok (JDict d).
Proof.
  intros (n & m & Hn & Hm & Hc) Hrf. unfold enforce_char_counts_body.
  simpl get_or. cbn [Py.bind].
  fold (text_field d "headline"). fold (text_field d "body").
  rewrite Hn, Hm. cbn [Py.bind].
  rewrite (dict_set_id _ _ _ Hc), (dict_setdefault_id _ _ _ Hrf).
  reflexivity.
Qed.

(** After one application, both bodies leave the copy alone. *)
Lemma enforce_one_fixed copy copy' :
  enforce_one headline_max body_max copy = Ok copy' ->
  ensure_format_limits_body headline_max body_max copy' = Ok copy'
  /\ enforce_char_counts_body copy' = Ok copy'.
Proof.
  unfold enforce_one. intros H. bind_inv H.
  destruct (body_rejects_non_dict _ _ Ha) as (d & ->).
  apply ensure_format_limits_body_spec in Ha
    as (d1 & -> & Hh & Hb & _ & _).
  apply enforce_char_counts_body_spec in H
    as (d2 & -> & Eh & Eb & _ & Hc & Hrf).
  apply enforced_text_fits in Hh as (n & Hn & Hgt).
  apply enforced_text_fits in Hb as (m & Hm & Hgt').
  rewrite <- Eh in Hn. rewrite <- Eb in Hm. split.
  - eapply ensure_format_limits_body_noop; eauto.
  - apply enforce_char_counts_body_noop; assumption.
Qed.
End EnforcerOnOneCopy.

Section EnforcerOnPayload.
Import ContentSource.

Implicit Types f g : json -> result json.

Lemma for_each_copy_unfold f payload :
  for_each_copy f payload
  = update_field (on_segment f) payload (lit "segments").
Proof. reflexivity. Qed.

Lemma on_segment_rejects_str f : rejects_str (on_segment f).
Proof. intros s y H. discriminate. Qed.

Lemma on_segment_inv f segment y :
  on_segment f segment = Ok y ->
  exists sd sd', segment = JDict sd /\ y = JDict sd'
                 /\ update_field f sd (lit "copies") = Ok sd'.
Proof.
  destruct segment; try discriminate. simpl. intros H. bind_inv H.
  injection H as <-. eauto.
Qed.

Lemma for_each_copy_fuse f g p p1 p2 :
  rejects_str f ->
  for_each_copy f p = Ok p1 -> for_each_copy g p1 = Ok p2 ->
  for_each_copy (fun c => let* y := f c in g y) p = Ok p2.
Proof.
  intros Hf H1 H2. rewrite for_each_copy_unfold in *.
  assert (H := update_field_fuse _ _ _ _ _ _
                 (on_segment_rejects_str f) H1 H2).
  eapply update_field_mono; [|exact H].
  intros segment y Hy. simpl in Hy. bind_inv Hy.
  apply on_segment_inv in Ha as (sd & sd1 & -> & -> & Hsd).
  apply on_segment_inv in Hy as (sd1' & sd2 & [= <-] & -> & Hsd1).
  simpl. rewrite (update_field_fuse _ _ _ _ _ _ Hf Hsd Hsd1). reflexivity.
Qed.

Lemma for_each_copy_then f g p p1 :
  rejects_str f ->
  for_each_copy f p = Ok p1 ->
  (forall c c1, f c = Ok c1 -> exists c2, g c1 = Ok c2) ->
  exists p2, for_each_copy g p1 = Ok p2.
Proof.
  intros Hf H Hg. rewrite for_each_copy_unfold in H.
  eapply update_field_then;
    [apply (on_segment_rejects_str f) | exact H |].
  intros s s1 Hs. apply on_segment_inv in Hs as (sd & sd1 & -> & -> & Hsd).
  destruct (update_field_then _ _ _ _ _ Hf Hsd Hg) as (sd2 & Hsd2).
  exists (JDict sd2). simpl. rewrite Hsd2. reflexivity.
Qed.

Lemma for_each_copy_fix f g p p1 :
  rejects_str f ->
  for_each_copy f p = Ok p1 ->
  (forall c c1, f c = Ok c1 -> g c1 = Ok c1) ->
  for_each_copy g p1 = Ok p1.
Proof.
  intros Hf H Hg. rewrite for_each_copy_unfold in H.
  eapply update_field_fix;
    [apply (on_segment_rejects_str f) | exact H |].
  intros s s1 Hs. apply on_segment_inv in Hs as (sd & sd1 & -> & -> & Hsd).
  simpl. rewrite (update_field_fix _ _ _ _ _ Hf Hsd Hg). reflexivity.
Qed.

Lemma for_each_copy_Forall2 f p p1 :
  for_each_copy f p = Ok p1 ->
  Forall2 (fun c c1 => f c = Ok c1) (payload_copies p) (payload_copies p1).
Proof.
  intros H. rewrite for_each_copy_unfold in H.
  apply update_field_Forall2 in H. unfold payload_copies.
  apply Forall2_concat_map. eapply Forall2_impl'; [exact H|].
  intros s s1 Hs. apply on_segment_inv in Hs as (sd & sd1 & -> & -> & Hsd).
  simpl. apply update_field_Forall2, Hsd.
Qed.

Lemma for_each_copy_other f p p1 k :
  for_each_copy f p = Ok p1 -> lit "segments" <> k ->
  dict_get p1 k = dict_get p k.
Proof. intros H. apply (update_field_other _ _ _ _ _ H). Qed.

Lemma for_each_copy_total f p :
  (forall c, copy_shaped c = true -> exists y, f c = Ok y) ->
  items_shaped segment_shaped p "segments" = true ->
  exists p1, for_each_copy f p = Ok p1.
Proof.
  intros Hf Hp. rewrite for_each_copy_unfold.
  apply (update_field_total _ segment_shaped); [|exact Hp].
  intros s Hs. destruct s; try discriminate. simpl in Hs.
  destruct (update_field_total f copy_shaped d "copies" Hf Hs) as (d1 & Hd1).
  exists (JDict d1). simpl. rewrite Hd1. reflexivity.
Qed.
End EnforcerOnPayload.

Section RecomputedCounts.
Import Schemas.

(** C2: in a response the Schema Validator accepts, every copy variant
    carries the lengths of its own headline and body as its counters; and
    the counters the payload supplied have no influence on the result:
    replacing a valid [char_count] by any other valid one gives the same
    validated variant. The same holds of a payload that
    [enforce_char_counts] has processed: every copy carries the lengths
    of its texts, whatever it carried before. *)
Theorem char_count_recomputed :
  (forall payload r,
      SegCraftResponse.model_validate payload = Ok r ->
      Forall (fun s => Forall counts_synced (SegmentOutput.copies s))
             (SegCraftResponse.segments r))
  /\ (forall loc d supplied supplied' cc cc',
        CharCount.model_validate (loc ++ [lit "char_count"]) supplied = Ok cc ->
        CharCount.model_validate (loc ++ [lit "char_count"]) supplied' = Ok cc' ->
        CopyVariant.model_validate loc
          (JDict (dict_set d (lit "char_count") supplied))
        = CopyVariant.model_validate loc
            (JDict (dict_set d (lit "char_count") supplied')))
  /\ (forall payload payload',
        ContentSource.enforce_char_counts payload = Ok payload' ->
        Forall (fun copy => exists d, copy = JDict d /\ counts_match_texts d)
               (payload_copies payload')).
Proof.
  split; [|split].
  3:{ intros payload payload' H.
      apply for_each_copy_Forall2 in H.
      eapply Forall2_right; [exact H|].
      intros c c1 Hc. destruct c; try discriminate.
      apply enforce_char_counts_body_spec in Hc
        as (d1 & -> & _ & _ & _ & Hcounts & _).
      eauto. }
  - intros payload r H. apply model_validate_fields in H.
    apply validate_fields_segments in H as (d & l & _ & _ & Hall).
    eapply Forall2_right; [exact Hall|].
    intros v s [loc Hs]. eapply SegmentOutput_synced, Hs.
  - intros loc d supplied supplied' cc cc' Hcc Hcc'.
    unfold CopyVariant.model_validate, CopyVariant.validate_fields.
    simpl as_object. cbn [Py.bind].
    rewrite !required_set_eq, Hcc, Hcc'.
    rewrite !required_set_ne, !defaulted_set_ne by lit_neq.
    destruct (required validate_str loc d "headline"); [|reflexivity].
    destruct (required validate_str loc d "body"); [|reflexivity].
    destruct (required validate_str loc d "cta"); [|reflexivity].
    destruct (required validate_str loc d "rationale"); [|reflexivity].
    cbn [Py.bind].
    destruct (defaulted _ _ loc d "risk_flags"); reflexivity.
Qed.

Lemma char_count_recomputed_witness :
  exists r,
    LlmClient.parse_and_validate ample_room (sample_response "2" two_copies) = Ok r
    /\ Forall (fun s => Forall counts_synced (SegmentOutput.copies s))
              (SegCraftResponse.segments r).
Proof.
  destruct sample_response_accepted as (payload & r & _ & Hvalid & Hparse).
  exists r. split; [exact Hparse|].
  exact (proj1 char_count_recomputed payload r Hvalid).
Defined.

(** The sample copy claims 99 and 0; the validated copy says 2 and 4. *)
Example stale_counts_are_corrected :
  (fun m => match m with
            | Ok c => Some (CopyVariant.char_count c)
            | Raise _ => None
            end)
    (let* v := loads (ample_room LlmClient.payload_loads) (litq sample_copy) in CopyVariant.model_validate [] v)
  = Some {| CharCount.headline := 2; CharCount.body := 4 |}.
Proof. vm_compute. reflexivity. Qed.
End RecomputedCounts.

Section EnforcerTheorems.
Import ContentSource.

Lemma ensure_format_limits_unfold payload format_limits :
  ensure_format_limits payload format_limits
  = let* format_id := echoed_format_id payload in
    let* limits := limits_get format_limits format_id in
    match limits with
    | None => Ok payload
    | Some limits =>
      if bool_decide (limits = ∅) then Ok payload
      else
        let* headline_max := limits_item limits (lit "headline_max") in
        let* body_max := limits_item limits (lit "body_max") in
        let* payload' :=
          for_each_copy (ensure_format_limits_body headline_max body_max)
            payload in
        enforce_char_counts payload'
    end.
Proof. reflexivity. Qed.

Lemma limits_item_ok limits key v :
  limits_item limits key = Ok v <-> limits !! key = Some v.
Proof.
  unfold limits_item. destruct (limits !! key); split; congruence.
Qed.

Lemma limits_get_nonneg format_limits format_id limits key v :
  limits_nonneg format_limits ->
  limits_get format_limits format_id = Ok (Some limits) ->
  limits !! key = Some v -> 0 <= v.
Proof.
  intros Hnn Hget Hv. destruct format_id; simpl in Hget; try discriminate.
  injection Hget as Hget. exact (Hnn _ _ _ _ Hget Hv).
Qed.

Lemma body_rejects_str headline_max body_max :
  rejects_str (ensure_format_limits_body headline_max body_max).
Proof. intros s y H. discriminate. Qed.

Lemma echoed_format_id_kept f payload payload' :
  for_each_copy f payload = Ok payload' ->
  echoed_format_id payload' = echoed_format_id payload.
Proof.
  intros H. unfold echoed_format_id.
  rewrite (for_each_copy_other _ _ _ (lit "input_echo") H) by lit_neq.
  reflexivity.
Qed.

(** The two loops of the enforcer are one loop of [enforce_one]. *)
Lemma two_loops headline_max body_max payload p1 p2 :
  for_each_copy (ensure_format_limits_body headline_max body_max) payload
  = Ok p1 ->
  enforce_char_counts p1 = Ok p2 ->
  for_each_copy (enforce_one headline_max body_max) payload = Ok p2.
Proof.
  intros H1 H2.
  exact (for_each_copy_fuse _ _ _ _ _
           (body_rejects_str headline_max body_max) H1 H2).
Qed.

Lemma enforce_one_rejects_str headline_max body_max :
  rejects_str (enforce_one headline_max body_max).
Proof. apply rejects_str_fuse, body_rejects_str. Qed.

(** C6 (as the code has it): with non-negative maxima the enforcer is
    idempotent: applying it to its own result gives that result again,
    and where the first application raises, so does the pair. *)
Theorem ensure_format_limits_idempotent
  (payload : dict) (format_limits : gmap str (gmap str Z)) :
  limits_nonneg format_limits ->
  (let* once := ensure_format_limits payload format_limits in
   ensure_format_limits once format_limits)
  = ensure_format_limits payload format_limits.
Proof.
  intros Hnn.
  destruct (ensure_format_limits payload format_limits) as [p2|e] eqn:E;
    [|reflexivity].
  simpl. rewrite ensure_format_limits_unfold in E |- *.
  apply bind_ok_inv in E as (format_id & Hid & E).
  apply bind_ok_inv in E as (limits & Hlim & E).
  destruct limits as [limits|].
  2:{ injection E as <-. rewrite Hid. simpl. rewrite Hlim. reflexivity. }
  destruct (bool_decide (limits = ∅)) eqn:Hempty.
  { injection E as <-. rewrite Hid. simpl. rewrite Hlim. simpl.
    rewrite Hempty. reflexivity. }
  apply bind_ok_inv in E as (headline_max & Hh & E).
  apply bind_ok_inv in E as (body_max & Hb & E).
  apply bind_ok_inv in E as (p1 & H1 & H2).
  assert (Hh0 : 0 <= headline_max).
  { eapply limits_get_nonneg; eauto. apply limits_item_ok, Hh. }
  assert (Hb0 : 0 <= body_max).
  { eapply limits_get_nonneg; eauto. apply limits_item_ok, Hb. }
  assert (Hone := two_loops _ _ _ _ _ H1 H2).
  assert (Hkept : echoed_format_id p2 = echoed_format_id payload).
  { apply (echoed_format_id_kept _ _ _ Hone). }
  rewrite Hkept, Hid. simpl. rewrite Hlim. simpl. rewrite Hempty, Hh. simpl.
  rewrite Hb. simpl.
  rewrite (for_each_copy_fix _
             (ensure_format_limits_body headline_max body_max) _ _
             (enforce_one_rejects_str _ _) Hone).
  - simpl. unfold enforce_char_counts.
    apply (for_each_copy_fix _ enforce_char_counts_body _ _
             (enforce_one_rejects_str _ _) Hone).
    intros c c1 Hc. apply (enforce_one_fixed _ _ Hh0 Hb0 _ _ Hc).
  - intros c c1 Hc. apply (enforce_one_fixed _ _ Hh0 Hb0 _ _ Hc).
Qed.

Lemma one_format_nonneg headline_max body_max :
  0 <= headline_max -> 0 <= body_max ->
  limits_nonneg (one_format headline_max body_max).
Proof.
  intros Hh Hb format_id limits key v H1 H2. unfold one_format in H1.
  apply lookup_singleton_Some in H1 as [_ <-].
  apply lookup_insert_Some in H2 as [[_ <-]|[_ H2]]; [exact Hh|].
  apply lookup_singleton_Some in H2 as [_ <-]. exact Hb.
Defined.

Lemma ensure_format_limits_idempotent_witness :
  limits_nonneg (one_format 10 100)
  /\ exists once,
      ensure_format_limits (payload_with long_copy) (one_format 10 100)
      = Ok once
      /\ ensure_format_limits once (one_format 10 100) = Ok once.
Proof.
  assert (Hnn : limits_nonneg (one_format 10 100))
    by (apply one_format_nonneg; lia).
  split; [exact Hnn|].
  assert (H := ensure_format_limits_idempotent (payload_with long_copy)
                 (one_format 10 100) Hnn).
  destruct (ensure_format_limits (payload_with long_copy)
              (one_format 10 100)) as [once|e] eqn:E.
  - exists once. split; [reflexivity|exact H].
  - vm_compute in E. discriminate E.
Defined.

(** C6 as the specification states it fails: with a negative maximum
    every application removes one more character and adds one more
    flag. *)
Lemma ensure_format_limits_idempotent_counterexample :
  let limits := one_format (-1) 100 in
  let headlines p :=
    map (fun c => match c with
                  | JDict d => text_field d "headline"
                  | _ => JNull
                  end) (payload_copies p) in
  (let* once := ensure_format_limits (payload_with long_copy) limits in
   ensure_format_limits once limits)
  <> ensure_format_limits (payload_with long_copy) limits
  /\ (let* once := ensure_format_limits (payload_with long_copy) limits in
      Ok (headlines once))
     = Ok [JStr (lit "Fifteen   char")]
  /\ (let* once := ensure_format_limits (payload_with long_copy) limits in
      let* twice := ensure_format_limits once limits in
      Ok (headlines twice))
     = Ok [JStr (lit "Fifteen   cha")].
Proof.
  split; [|split].
  - vm_compute. discriminate.
  - vm_compute. reflexivity.
  - vm_compute. reflexivity.
Qed.

Lemma ensure_format_limits_body_total headline_max body_max c :
  copy_shaped c = true ->
  exists y, ensure_format_limits_body headline_max body_max c = Ok y.
Proof.
  destruct c as [| | | | | |d]; try discriminate. simpl.
  unfold text_ok. intros H.
  apply andb_true_iff in H as [H Hrf]. apply andb_true_iff in H as [Hh Hb].
  destruct (dict_get d (lit "headline")) as [[| | | |h| |]|];
    try discriminate;
    destruct (dict_get d (lit "body")) as [[| | | |b| |]|];
    try discriminate; simpl;
    repeat match goal with
           | |- context [if ?c then _ else _] => destruct c; simpl
           end;
    repeat match goal with
           | |- context [dict_get ?x (lit "risk_flags")] =>
             rewrite ?dict_get_set_ne by lit_neq;
             destruct (dict_get d (lit "risk_flags")) as [[| | | | | |]|];
             try discriminate
           end;
    eauto.
Qed.

Lemma enforce_char_counts_body_total d n m :
  py_len (text_field d "headline") = Ok n ->
  py_len (text_field d "body") = Ok m ->
  exists y, enforce_char_counts_body (JDict d) = Ok y.
Proof.
  intros Hn Hm. unfold enforce_char_counts_body. simpl get_or.
  cbn [Py.bind]. fold (text_field d "headline"). fold (text_field d "body").
  rewrite Hn, Hm. simpl. eauto.
Qed.

(** C7 (as the code has it). When the echoed format id has no entry in
    the mapping, or an empty one, the payload is returned unchanged.
    When its entry gives non-negative [headline_max] and [body_max], a
    payload of the shape of a response is processed without failure, and
    whenever the enforcer returns, each copy variant of the result is the
    corresponding copy variant of the payload with: a headline (a body)
    longer than the maximum cut to the maximum and stripped of trailing
    whitespace, hence at most the maximum long; the fixed
    [format_overflow] flag appended exactly when one of the two was cut;
    and [char_count] equal to the lengths of the final texts. *)
Theorem ensure_format_limits_enforces
  (payload : dict) (format_limits : gmap str (gmap str Z))
  (format_id : json) :
  echoed_format_id payload = Ok format_id ->
  (limits_get format_limits format_id = Ok None
   \/ limits_get format_limits format_id = Ok (Some ∅) ->
   ensure_format_limits payload format_limits = Ok payload)
  /\ (forall limits headline_max body_max,
        limits_get format_limits format_id = Ok (Some limits) ->
        limits !! lit "headline_max" = Some headline_max ->
        limits !! lit "body_max" = Some body_max ->
        0 <= headline_max -> 0 <= body_max ->
        (forall payload',
            ensure_format_limits payload format_limits = Ok payload' ->
            Forall2 (enforced_copy headline_max body_max)
              (payload_copies payload) (payload_copies payload'))
        /\ (payload_shaped payload = true ->
            exists payload',
              ensure_format_limits payload format_limits = Ok payload')).
Proof.
  intros Hid. rewrite ensure_format_limits_unfold, Hid. simpl. split.
  - intros [-> | ->]; reflexivity.
  - intros limits headline_max body_max Hlim Hh Hb Hh0 Hb0.
    rewrite Hlim. simpl.
    rewrite bool_decide_eq_false_2
      by (intros ->; rewrite lookup_empty in Hh; discriminate).
    rewrite (proj2 (limits_item_ok _ _ _) Hh). simpl.
    rewrite (proj2 (limits_item_ok _ _ _) Hb). simpl. split.
    + intros payload' H. apply bind_ok_inv in H as (p1 & H1 & H2).
      assert (Hone := two_loops _ _ _ _ _ H1 H2).
      apply for_each_copy_Forall2 in Hone.
      eapply Forall2_impl'; [exact Hone|].
      intros c c1 Hc. apply (enforce_one_spec _ _ Hh0 Hb0 _ _ Hc).
    + intros Hshape.
      destruct (for_each_copy_total
                  (ensure_format_limits_body headline_max body_max) payload)
        as (p1 & H1); [|exact Hshape|].
      { intros c Hc. apply ensure_format_limits_body_total, Hc. }
      rewrite H1. simpl. unfold enforce_char_counts.
      apply (for_each_copy_then _ _ _ _ (body_rejects_str _ _) H1).
      intros c c1 Hc.
      destruct (body_rejects_non_dict _ _ _ _ Hc) as (d & ->).
      apply (ensure_format_limits_body_spec _ _ Hh0 Hb0) in Hc
        as (d1 & -> & Hth & Htb & _).
      apply enforced_text_fits in Hth as (n & Hn & _).
      apply enforced_text_fits in Htb as (m & Hm & _).
      eapply enforce_char_counts_body_total; eauto.
Qed.

Lemma ensure_format_limits_enforces_witness :
  exists payload',
    ensure_format_limits (payload_with long_copy) (one_format 10 100)
    = Ok payload'
    /\ Forall2 (enforced_copy 10 100)
         (payload_copies (payload_with long_copy))
         (payload_copies payload').
Proof.
  destruct (ensure_format_limits_enforces (payload_with long_copy)
              (one_format 10 100) (JStr (lit "banner")))
    as [_ H]; [vm_compute; reflexivity|].
  destruct (H {[ lit "headline_max" := 10; lit "body_max" := 100 ]} 10 100)
    as [Hspec Htotal];
    [vm_compute; reflexivity | vm_compute; reflexivity
     | vm_compute; reflexivity | lia | lia |].
  destruct Htotal as (payload' & Hrun); [vm_compute; reflexivity|].
  exists payload'. split; [exact Hrun | exact (Hspec payload' Hrun)].
Defined.

(** C7 as the specification states it fails: with a negative maximum
    the headline is cut but stays longer than the maximum. *)
Lemma ensure_format_limits_enforces_counterexample :
  exists payload' d',
    ensure_format_limits (payload_with long_copy) (one_format (-1) 100)
    = Ok payload'
    /\ payload_copies payload' = [JDict d']
    /\ text_field d' "headline" = JStr (lit "Fifteen   char")
    /\ ~ len (lit "Fifteen   char") <= -1.
Proof.
  eexists _, _. split; [vm_compute; reflexivity|].
  split; [vm_compute; reflexivity|].
  split; [vm_compute; reflexivity|].
  vm_compute. intros H. apply H. reflexivity.
Qed.

(** The scenario of the specification: a limit of 10 and a headline of 15
    characters. *)
Example ensure_format_limits_scenario :
  (let* payload' :=
     ensure_format_limits (payload_with long_copy) (one_format 10 100) in
   Ok (payload_copies payload'))
  = Ok [JDict [(lit "headline", JStr (lit "Fifteen"));
               (lit "body", JStr (lit "short"));
               (lit "risk_flags", JList [overflow_flag]);
               (lit "char_count",
                JDict [(lit "headline", JInt 7); (lit "body", JInt 5)])]].
Proof. vm_compute. reflexivity. Qed.
End EnforcerTheorems.

(* ===================================================================== *)
(** * Further facts about strings *)
(* ===================================================================== *)

Section StripFacts.
Lemma lstrip_idem (s : str) : lstrip (lstrip s) = lstrip s.
Proof.
  induction s as [|c s IH]; simpl; [reflexivity|].
  destruct (is_space c) eqn:E; [exact IH|]. simpl. rewrite E. reflexivity.
Qed.

Lemma rstrip_lstrip (s : str) : rstrip s = s -> rstrip (lstrip s) = lstrip s.
Proof.
  induction s as [|c s IH]; intros H; [reflexivity|].
  simpl. destruct (is_space c) eqn:E; [|exact H].
  apply IH. rewrite rstrip_cons in H.
  destruct (rstrip s) as [|x r]; [|congruence].
  rewrite E in H. discriminate.
Qed.

Lemma strip_idem (s : str) : strip (strip s) = strip s.
Proof.
  unfold strip. rewrite rstrip_lstrip by apply rstrip_idem.
  apply lstrip_idem.
Qed.

Lemma rstrip_strip (s : str) : rstrip (strip s) = strip s.
Proof. unfold strip. apply rstrip_lstrip, rstrip_idem. Qed.

(** A stripped text starts with no whitespace. *)
Lemma lstrip_head (s : str) c r : lstrip s = c :: r -> is_space c = false.
Proof.
  induction s as [|x s IH]; simpl; [discriminate|].
  destruct (is_space x) eqn:E; [exact IH|]. intros [= <- <-]. exact E.
Qed.

Lemma strip_head (s : str) c r : strip s = c :: r -> is_space c = false.
Proof. apply lstrip_head. Qed.

(** A text that is its own [rstrip] ends with no whitespace. *)
Lemma rstrip_fixed_last (s : str) c :
  rstrip s = s -> last s = Some c -> is_space c = false.
Proof.
  induction s as [|x s IH]; intros H Hl; [discriminate|].
  rewrite rstrip_cons in H. destruct s as [|y s'].
  - simpl in *. injection Hl as <-.
    destruct (is_space x); [discriminate|reflexivity].
  - apply IH; [|exact Hl].
    destruct (rstrip (y :: s')) as [|z r]; [|congruence].
    destruct (is_space x); discriminate.
Qed.

Lemma rstrip_fixed_intro (s : str) :
  (forall c, last s = Some c -> is_space c = false) -> rstrip s = s.
Proof.
  induction s as [|x s IH]; intros H; [reflexivity|].
  rewrite rstrip_cons. destruct s as [|y s'].
  - simpl. rewrite (H x eq_refl). reflexivity.
  - rewrite IH; [reflexivity|]. intros c Hc. apply H. exact Hc.
Qed.

(** A text that starts and ends with no whitespace is its own [strip]. *)
Lemma strip_fixed_intro (c : char) (s : str) :
  is_space c = false ->
  (forall x, last (c :: s) = Some x -> is_space x = false) ->
  strip (c :: s) = c :: s.
Proof.
  intros Hc Hl. unfold strip. rewrite rstrip_fixed_intro by exact Hl.
  simpl. rewrite Hc. reflexivity.
Qed.

(** Stripping brings in no character. *)
Lemma existsb_lstrip (P : char -> bool) (s : str) :
  existsb P s = false -> existsb P (lstrip s) = false.
Proof.
  induction s as [|c s IH]; simpl; [reflexivity|]. intros H.
  apply orb_false_iff in H as [Hc Hs].
  destruct (is_space c); [apply IH, Hs|]. simpl. rewrite Hc. exact Hs.
Qed.

Lemma existsb_rstrip (P : char -> bool) (s : str) :
  existsb P s = false -> existsb P (rstrip s) = false.
Proof.
  induction s as [|c s IH]; simpl; [reflexivity|]. intros H.
  apply orb_false_iff in H as [Hc Hs]. specialize (IH Hs).
  destruct (rstrip s) as [|x r].
  - destruct (is_space c); simpl; [reflexivity|]. rewrite Hc. reflexivity.
  - cbn [existsb]. rewrite Hc. exact IH.
Qed.

Lemma existsb_strip (P : char -> bool) (s : str) :
  existsb P s = false -> existsb P (strip s) = false.
Proof. intros H. apply existsb_lstrip, existsb_rstrip, H. Qed.

(** The parts of a split hold no separator. *)
Lemma split_once_fst_absent (x : char) (s : str) :
  contains_char x (fst (split_once x s)) = false.
Proof.
  unfold contains_char. induction s as [|c s IH]; simpl; [reflexivity|].
  destruct (c =? x)%N eqn:E; [reflexivity|].
  destruct (split_once x s) as [a b]. simpl in *. rewrite E. exact IH.
Qed.

Lemma split_all_absent (x : char) (s : str) :
  Forall (fun part => contains_char x part = false) (split_all x s).
Proof.
  unfold contains_char. induction s as [|c s IH]; simpl.
  - repeat constructor.
  - destruct (c =? x)%N eqn:E.
    + constructor; [reflexivity|exact IH].
    + destruct (split_all x s) as [|p ps].
      * constructor; [simpl; rewrite E; reflexivity|constructor].
      * inversion IH as [|? ? Hp Hps]; subst.
        constructor; [simpl; rewrite E; exact Hp|exact Hps].
Qed.

(** A line of [splitlines] holds no line boundary. *)
Lemma splitlines_no_linebreak (s : str) :
  Forall (fun line => existsb is_linebreak line = false) (splitlines s).
Proof.
  assert (H : forall n (t : str),
             (length t <= n)%nat ->
             Forall (fun line => existsb is_linebreak line = false)
               (splitlines t));
    [|exact (H (length s) s (le_n _))].
  clear s. induction n as [|n IH]; intros t Hn; destruct t as [|c s];
    simpl in Hn; try lia; [constructor|constructor|].
  simpl. destruct (is_linebreak c) eqn:E.
  - destruct s as [|c' r'].
    + repeat constructor.
    + destruct ((c =? 13) && (c' =? 10))%N.
      * constructor; [reflexivity|]. apply IH. cbn [length] in *. lia.
      * constructor; [reflexivity|]. apply IH. cbn [length] in *. lia.
  - assert (Hs := IH s ltac:(lia)).
    destruct (splitlines s) as [|l ls].
    + constructor; [simpl; rewrite E; reflexivity|constructor].
    + inversion Hs as [|? ? Hl Hls]; subst.
      constructor; [simpl; rewrite E; exact Hl|exact Hls].
Qed.
End StripFacts.

(* ===================================================================== *)
(** * Further properties of the client and of the orchestrator *)
(* ===================================================================== *)

Section OrchestratorPaths.
Import Schemas LlmClient Attempts.

Lemma get_client_result (w : World) :
  get_client w = (fst (get_client w), w).
Proof.
  rewrite <- (get_client_pure w) at 3. destruct (get_client w); reflexivity.
Qed.

Lemma load_mock_output_pure c format_id samples_dir (w : World) :
  snd (load_mock_output c format_id samples_dir w) = w.
Proof.
  unfold load_mock_output. destruct (files w !! _); reflexivity.
Qed.

Lemma load_mock_output_result c format_id samples_dir (w : World) :
  load_mock_output c format_id samples_dir w
  = (fst (load_mock_output c format_id samples_dir w), w).
Proof.
  rewrite <- (load_mock_output_pure c format_id samples_dir w) at 3.
  destruct (load_mock_output _ _ _ w); reflexivity.
Qed.

Lemma made_calls_refl (w : World) : made_calls w w [].
Proof. split; [rewrite app_nil_r; reflexivity|repeat split]. Qed.

Lemma made_calls_trans (w w1 w2 : World) a b :
  made_calls w w1 a -> made_calls w1 w2 b -> made_calls w w2 (a ++ b).
Proof.
  intros (Ha & E1 & E2 & E3 & E4 & E5) (Hb & F1 & F2 & F3 & F4 & F5).
  split; [rewrite Hb, Ha, app_assoc; reflexivity|].
  repeat split; congruence.
Qed.

Lemma responses_create_made req (w : World) :
  made_calls w (snd (responses_create req w)) [req].
Proof.
  unfold responses_create. destruct (provider w); repeat split.
Qed.

(** The provider hands out its answers in order. *)
Lemma responses_create_ok req (w w' : World) response :
  responses_create req w = (Ok response, w') ->
  provider w = response :: provider w'.
Proof.
  unfold responses_create. destruct (provider w); intros [= <- <-];
    reflexivity.
Qed.

(** Whatever [generate] does, it calls the provider at most once. *)
Lemma generate_made prompt_text model_name w :
  exists made,
    made_calls w (snd (generate prompt_text model_name w)) made
    /\ (length made <= 1)%nat.
Proof.
  unfold generate, iobind. rewrite (get_client_result w).
  destruct (fst (get_client w)) as [[key|]|e]; simpl;
    [|exists []; split; [apply made_calls_refl|simpl; lia]..].
  assert (Hmade := responses_create_made
                     {| req_model := choose_model model_name w;
                        req_input := prompt_text;
                        req_temperature := lit "0.35" |} w).
  destruct (responses_create _ w) as [[response|e] w']; simpl in Hmade;
    eexists [_]; (split; [|simpl; lia]); [|exact Hmade].
  destruct (negb _); [|destruct (bool_decide _)]; exact Hmade.
Qed.

Lemma repair_json_made raw_text err model_name w :
  exists made,
    made_calls w (snd (repair_json raw_text err model_name w)) made
    /\ (length made <= 1)%nat.
Proof.
  unfold repair_json, iobind. rewrite (get_client_result w).
  destruct (fst (get_client w)) as [[key|]|e]; simpl;
    [|exists []; split; [apply made_calls_refl|simpl; lia]..].
  assert (Hmade := responses_create_made
                     {| req_model := choose_model model_name w;
                        req_input := repair_prompt raw_text err;
                        req_temperature := lit "0" |} w).
  destruct (responses_create _ w) as [[response|e] w']; simpl in Hmade;
    eexists [_]; (split; [|simpl; lia]); [|exact Hmade].
  destruct (bool_decide _); exact Hmade.
Qed.

(** [run_generation] in terms of its branches. *)
Lemma run_generation_unfold prompt_text format_id model_name samples_dir
  force_mock :
  run_generation prompt_text format_id model_name samples_dir force_mock
  = let+ use_mock :=
      if force_mock then ret true
      else let+ client := get_client in
           ret (bool_decide (client = None)) in
    if use_mock : bool then mock_branch format_id samples_dir
    else
      let+ raw_text := generate prompt_text model_name in
      first_attempt raw_text model_name.
Proof. reflexivity. Qed.

Lemma mock_branch_run format_id samples_dir (w : World) :
  mock_branch format_id samples_dir w
  = (let* response :=
       fst (load_mock_output by_run_generation format_id samples_dir w) in
     Ok (response, lit "mock", []), w).
Proof.
  unfold mock_branch, iobind.
  rewrite (load_mock_output_result by_run_generation format_id samples_dir w).
  destruct (fst (load_mock_output by_run_generation format_id samples_dir w));
    reflexivity.
Qed.

Lemma second_attempt_run repaired_raw (w : World) :
  second_attempt repaired_raw w
  = (match parse_and_validate (recursion_room w) repaired_raw with
     | Ok validated => Ok (validated, lit "llm", repaired_raw)
     | Raise second_error =>
       if caught second_error
       then Raise (LLMValidationError (repair_failure_message second_error))
       else Raise second_error
     end, w).
Proof.
  unfold second_attempt, try_except, iobind, decoding.
  destruct (parse_and_validate (recursion_room w) repaired_raw) as [r|e];
    [reflexivity|].
  destruct (caught e); reflexivity.
Qed.

Lemma first_attempt_run raw_text model_name (w : World) :
  first_attempt raw_text model_name w
  = match parse_and_validate (recursion_room w) raw_text with
    | Ok response => (Ok (response, lit "llm", raw_text), w)
    | Raise first_error =>
      if caught first_error then
        match repair_json raw_text first_error model_name w with
        | (Ok repaired_raw, w2) => second_attempt repaired_raw w2
        | (Raise e, w2) => (Raise e, w2)
        end
      else (Raise first_error, w)
    end.
Proof.
  unfold first_attempt, try_except at 1. unfold iobind at 1, decoding at 1.
  destruct (parse_and_validate (recursion_room w) raw_text) as [r|e];
    [reflexivity|].
  destruct (caught e); [|reflexivity]. unfold iobind.
  destruct (repair_json raw_text e model_name w) as [[fixed|e'] w2];
    reflexivity.
Qed.

Lemma run_generation_run prompt_text format_id model_name samples_dir
  force_mock (w : World) :
  run_generation prompt_text format_id model_name samples_dir force_mock w
  = if force_mock then mock_branch format_id samples_dir w
    else
      match fst (get_client w) with
      | Ok None => mock_branch format_id samples_dir w
      | Ok (Some _) =>
        match generate prompt_text model_name w with
        | (Ok raw_text, w1) => first_attempt raw_text model_name w1
        | (Raise e, w1) => (Raise e, w1)
        end
      | Raise e => (Raise e, w)
      end.
Proof.
  rewrite run_generation_unfold. unfold iobind at 1.
  destruct force_mock; [reflexivity|].
  unfold iobind at 1. rewrite (get_client_result w).
  destruct (fst (get_client w)) as [[key|]|e]; reflexivity.
Qed.

Lemma first_attempt_made raw_text model_name (w : World) :
  exists made,
    made_calls w (snd (first_attempt raw_text model_name w)) made
    /\ (length made <= 1)%nat.
Proof.
  rewrite first_attempt_run.
  destruct (parse_and_validate (recursion_room w) raw_text) as [r|e];
    [exists []; split; [apply made_calls_refl|simpl; lia]|].
  destruct (caught e);
    [|exists []; split; [apply made_calls_refl|simpl; lia]].
  destruct (repair_json_made raw_text e model_name w) as (made & Hmade & Hlen).
  exists made. split; [|exact Hlen].
  destruct (repair_json raw_text e model_name w) as [[fixed|e'] w2];
    [|exact Hmade].
  rewrite second_attempt_run. exact Hmade.
Qed.

Lemma run_generation_made
  (prompt_text format_id samples_dir : str) (model_name : option str)
  (force_mock : bool) (w : World) :
  exists made,
    made_calls w
      (snd (run_generation prompt_text format_id model_name samples_dir
              force_mock w))
      made
    /\ (length made <= 2)%nat.
Proof.
  rewrite run_generation_run.
  assert (Hmock : exists made,
             made_calls w (snd (mock_branch format_id samples_dir w)) made
             /\ (length made <= 2)%nat).
  { rewrite mock_branch_run. exists [].
    split; [apply made_calls_refl|simpl; lia]. }
  destruct force_mock; [exact Hmock|].
  destruct (fst (get_client w)) as [[key|]|e]; [|exact Hmock|];
    [|exists []; split; [apply made_calls_refl|simpl; lia]].
  destruct (generate_made prompt_text model_name w)
    as (made1 & Hmade1 & Hlen1).
  destruct (generate prompt_text model_name w) as [[raw_text|e] w1];
    simpl in Hmade1; [|exists made1; split; [exact Hmade1|lia]].
  destruct (first_attempt_made raw_text model_name w1)
    as (made2 & Hmade2 & Hlen2).
  exists (made1 ++ made2). split.
  - exact (made_calls_trans _ _ _ _ _ Hmade1 Hmade2).
  - rewrite length_app. lia.
Qed.

(** X1: in every world and for every argument, [run_generation] calls
    the provider at most twice, whatever the provider answers and however
    the run ends, and it leaves the environment and the files as they
    were. *)
Theorem run_generation_at_most_two_calls
  (prompt_text format_id samples_dir : str) (model_name : option str)
  (force_mock : bool) (w : World) :
  exists made,
    made_calls w
      (snd (run_generation prompt_text format_id model_name samples_dir
              force_mock w))
      made
    /\ (length made <= 2)%nat.
Proof. apply run_generation_made. Qed.

Lemma run_generation_ok_inv
  (prompt_text format_id samples_dir : str) (model_name : option str)
  (force_mock : bool) (w w' : World)
  (response : SegCraftResponse.t) (mode raw_text : str) :
  run_generation prompt_text format_id model_name samples_dir force_mock w
  = (Ok (response, mode, raw_text), w') ->
  (exists payload, SegCraftResponse.model_validate payload = Ok response)
  /\ (mode = lit "mock" /\ raw_text = [] /\ w' = w
      /\ sample_in_place by_run_generation format_id samples_dir w response
      \/ mode = lit "llm" /\ force_mock = false
         /\ parse_and_validate (recursion_room w) raw_text = Ok response).
Proof.
  rewrite run_generation_run. intros H.
  assert (Hmock : mock_branch format_id samples_dir w
                  = (Ok (response, mode, raw_text), w') ->
                  (exists payload,
                      SegCraftResponse.model_validate payload = Ok response)
                  /\ mode = lit "mock" /\ raw_text = [] /\ w' = w
                  /\ sample_in_place by_run_generation format_id samples_dir
                       w response).
  { clear H. rewrite mock_branch_run. unfold load_mock_output.
    destruct (files w !! _) as [text|] eqn:Hfile; [|discriminate].
    simpl. intros H. injection H as H <-.
    apply bind_ok_inv in H as (r & Hr & H). injection H as <- <- <-.
    assert (Hr' := Hr). apply bind_ok_inv in Hr' as (data & _ & Hdata).
    split; [eauto|]. repeat split. exists text. split; assumption. }
  assert (Hllm : forall raw (w1 : World),
             recursion_room w1 = recursion_room w ->
             first_attempt raw model_name w1
             = (Ok (response, mode, raw_text), w') ->
             (exists payload,
                 SegCraftResponse.model_validate payload = Ok response)
             /\ mode = lit "llm"
             /\ parse_and_validate (recursion_room w) raw_text
                = Ok response).
  { clear H Hmock. intros raw w1 Hroom. rewrite first_attempt_run, Hroom.
    assert (Hv : forall text r,
               parse_and_validate (recursion_room w) text = Ok r ->
               exists payload, SegCraftResponse.model_validate payload = Ok r).
    { unfold parse_and_validate. intros text r H.
      apply bind_ok_inv in H as (json_text & _ & H).
      apply bind_ok_inv in H as (payload & _ & H). eauto. }
    destruct (parse_and_validate (recursion_room w) raw) as [r|e] eqn:E.
    - intros [= <- <- <- <-]. eauto.
    - destruct (caught e); [|discriminate].
      destruct (repair_json raw e model_name w1) as [[fixed|e'] w2] eqn:Hr;
        [|discriminate].
      apply repair_json_room in Hr.
      rewrite second_attempt_run, Hr, Hroom.
      destruct (parse_and_validate (recursion_room w) fixed) as [r|e2] eqn:E2;
        [|destruct (caught e2); discriminate].
      intros [= <- <- <- <-]. eauto. }
  destruct force_mock.
  - destruct (Hmock H) as (Hv & Hrest). split; [exact Hv|left; exact Hrest].
  - destruct (fst (get_client w)) as [[key|]|e]; [| |discriminate].
    + destruct (generate prompt_text model_name w) as [[raw|e] w1] eqn:Hg;
        [|discriminate].
      apply generate_room in Hg.
      destruct (Hllm _ _ Hg H) as (Hv & Hmode & Hparse).
      split; [exact Hv|right; auto].
    + destruct (Hmock H) as (Hv & Hrest).
      split; [exact Hv|left; exact Hrest].
Qed.

(** X2: every response [run_generation] returns has passed the Schema
    Validator. It is tagged [mock] with an empty raw text, and is then
    what the sample file of the format holds, the world being untouched;
    or it is tagged [llm], mock mode was not forced, and it is the
    validated content of the raw text returned with it. *)
Theorem run_generation_returns_validated
  (prompt_text format_id samples_dir : str) (model_name : option str)
  (force_mock : bool) (w w' : World)
  (response : SegCraftResponse.t) (mode raw_text : str) :
  run_generation prompt_text format_id model_name samples_dir force_mock w
  = (Ok (response, mode, raw_text), w') ->
  (exists payload, SegCraftResponse.model_validate payload = Ok response)
  /\ (mode = lit "mock" /\ raw_text = [] /\ w' = w
      /\ sample_in_place by_run_generation format_id samples_dir w response
      \/ mode = lit "llm" /\ force_mock = false
         /\ parse_and_validate (recursion_room w) raw_text = Ok response).
Proof. apply run_generation_ok_inv. Qed.

Lemma run_generation_returns_validated_witness :
  exists response,
    sample_in_place by_run_generation (lit "yadirect_text") (lit "samples")
      offline_world response
    /\ exists payload, SegCraftResponse.model_validate payload = Ok response.
Proof.
  destruct sample_response_accepted as (payload & r & _ & _ & Hparse).
  edestruct (run_generation_returns_validated (lit "prompt")
               (lit "yadirect_text") (lit "samples") None false
               offline_world offline_world)
    as (Hv & [(_ & _ & _ & Hs)|(_ & _ & Hllm)]).
  - vm_compute. reflexivity.
  - eexists. split; [exact Hs|exact Hv].
  - eexists. split; [|exact Hv]. vm_compute in Hllm. discriminate Hllm.
Defined.

Lemma get_client_some (w : World) raw_text w1 prompt_text model_name :
  generate prompt_text model_name w = (Ok raw_text, w1) ->
  exists key, fst (get_client w) = Ok (Some key).
Proof.
  intros H. destruct (generate_ok _ _ _ _ _ H) as ((key & Hkey) & _).
  exists key. rewrite Hkey. reflexivity.
Qed.

(** X3: when the first answer holds a valid response, [run_generation]
    returns it tagged [llm] together with the raw answer, after exactly
    one call: no repair is attempted. *)
Theorem run_generation_first_answer_valid
  (prompt_text format_id samples_dir : str) (model_name : option str)
  (w w1 : World) (raw_text : str) (response : SegCraftResponse.t) :
  generate prompt_text model_name w = (Ok raw_text, w1) ->
  parse_and_validate (recursion_room w) raw_text = Ok response ->
  run_generation prompt_text format_id model_name samples_dir false w
  = (Ok (response, lit "llm", raw_text), w1)
  /\ calls w1 = calls w ++ [generate_request prompt_text model_name w].
Proof.
  intros Hgen Hparse. split.
  - rewrite (run_generation_answered _ _ _ _ _ _ _ Hgen), Hparse.
    reflexivity.
  - revert Hgen. unfold generate, iobind. rewrite (get_client_result w).
    destruct (fst (get_client w)) as [[key|]|e]; try discriminate.
    fold (generate_request prompt_text model_name w).
    destruct (responses_create _ w) as [[r|e] w'] eqn:Hcall;
      [|discriminate].
    apply responses_create_calls in Hcall. intros H. rewrite <- Hcall.
    destruct (negb _); [|destruct (bool_decide _)];
      unfold ret, raise in H; congruence.
Qed.

Lemma run_generation_first_answer_valid_witness :
  let out :=
    run_generation (lit "prompt") (lit "f") None (lit "samples") false
      (answering_world [sample_response "2" two_copies]) in
  (exists response, fst out = Ok (response, lit "llm",
                                  sample_response "2" two_copies))
  /\ length (calls (snd out)) = 1%nat.
Proof.
  destruct sample_response_accepted as (payload & r & _ & _ & Hparse).
  edestruct (run_generation_first_answer_valid (lit "prompt") (lit "f")
               (lit "samples") None
               (answering_world [sample_response "2" two_copies]))
    as (Hrun & Hcalls).
  - vm_compute. reflexivity.
  - exact Hparse.
  - cbv zeta. rewrite Hrun. split; [eauto|]. simpl snd. rewrite Hcalls.
    reflexivity.
Defined.

(** X4: when the first answer fails extraction or validation with a
    failure the orchestrator handles (a JSON decoding error, a validation
    failure or the extractor's own error) and the repaired answer holds a
    valid response, [run_generation] returns that response tagged [llm]
    together with the repaired text (not the first answer), after exactly
    two calls. *)
Theorem run_generation_repair_succeeds
  (prompt_text format_id samples_dir : str) (model_name : option str)
  (w w1 w2 : World) (raw_text repaired_raw : str) (first_error : exn)
  (response : SegCraftResponse.t) :
  generate prompt_text model_name w = (Ok raw_text, w1) ->
  parse_and_validate (recursion_room w) raw_text = Raise first_error ->
  caught first_error = true ->
  repair_json raw_text first_error model_name w1 = (Ok repaired_raw, w2) ->
  parse_and_validate (recursion_room w) repaired_raw = Ok response ->
  run_generation prompt_text format_id model_name samples_dir false w
  = (Ok (response, lit "llm", repaired_raw), w2)
  /\ exists req1 req2, calls w2 = calls w ++ [req1; req2].
Proof.
  intros Hgen Hfirst Hcaught Hrepair Hsecond. split.
  - rewrite (run_generation_answered _ _ _ _ _ _ _ Hgen), Hfirst, Hcaught,
      Hrepair, Hsecond.
    reflexivity.
  - destruct (generate_ok _ _ _ _ _ Hgen) as (_ & req1 & Hcalls1).
    destruct (repair_json_ok _ _ _ _ _ _ Hrepair) as (req2 & Hcalls2).
    exists req1, req2. rewrite Hcalls2, Hcalls1, <- app_assoc. reflexivity.
Qed.

Lemma run_generation_repair_succeeds_witness :
  let out :=
    run_generation (lit "prompt") (lit "f") None (lit "samples") false
      (answering_world [lit "Sorry, no JSON today.";
                        sample_response "2" two_copies]) in
  (exists response, fst out = Ok (response, lit "llm",
                                  sample_response "2" two_copies))
  /\ length (calls (snd out)) = 2%nat.
Proof.
  destruct sample_response_accepted as (payload & r & _ & _ & Hparse).
  edestruct (run_generation_repair_succeeds (lit "prompt") (lit "f")
               (lit "samples") None
               (answering_world [lit "Sorry, no JSON today.";
                                 sample_response "2" two_copies]))
    as (Hrun & req1 & req2 & Hcalls).
  - vm_compute. reflexivity.
  - vm_compute. reflexivity.
  - reflexivity.
  - vm_compute. reflexivity.
  - exact Hparse.
  - cbv zeta. rewrite Hrun. split; [eauto|]. simpl snd. rewrite Hcalls.
    reflexivity.
Defined.

(** X5: when the first answer fails with a failure the orchestrator
    handles and the repair call itself fails (no answer text, no
    credential, a failure of the provider), [run_generation] ends with
    that very exception: it is not wrapped into the [LLMValidationError]
    of a failed repair, and no validation is attempted any more. *)
Theorem run_generation_repair_call_fails
  (prompt_text format_id samples_dir : str) (model_name : option str)
  (w w1 w2 : World) (raw_text : str) (first_error e : exn) :
  generate prompt_text model_name w = (Ok raw_text, w1) ->
  parse_and_validate (recursion_room w) raw_text = Raise first_error ->
  caught first_error = true ->
  repair_json raw_text first_error model_name w1 = (Raise e, w2) ->
  run_generation prompt_text format_id model_name samples_dir false w
  = (Raise e, w2).
Proof.
  intros Hgen Hfirst Hcaught Hrepair.
  rewrite (run_generation_answered _ _ _ _ _ _ _ Hgen), Hfirst, Hcaught,
    Hrepair.
  reflexivity.
Qed.

Lemma run_generation_repair_call_fails_witness :
  fst (run_generation (lit "prompt") (lit "f") None (lit "samples") false
         (answering_world [lit "Sorry, no JSON today."; lit "   "]))
  = Raise (LLMClientError (lit "Repair attempt вернул пустой ответ."))
  /\ fst (run_generation (lit "prompt") (lit "f") None (lit "samples") false
            (answering_world [lit "Sorry, no JSON today."]))
     = Raise APIError.
Proof.
  split.
  - erewrite (run_generation_repair_call_fails (lit "prompt") (lit "f")
                (lit "samples") None
                (answering_world [lit "Sorry, no JSON today."; lit "   "]));
      [reflexivity|vm_compute; reflexivity..].
  - erewrite (run_generation_repair_call_fails (lit "prompt") (lit "f")
                (lit "samples") None
                (answering_world [lit "Sorry, no JSON today."]));
      [reflexivity|vm_compute; reflexivity..].
Defined.

(** X6: a text [generate] returns is never empty, and it needed a
    non-blank credential and the provider's package. The text is the
    [output_text] of the provider's next answer as it stands, or, when
    that is empty, the stripped join of the non-empty texts of the
    answer's output items. Without a credential [generate] raises its
    [LLMClientError] and makes no call. *)
Theorem generate_returns_text
  (prompt_text : str) (model_name : option str) (w : World) :
  (forall raw_text w1,
      generate prompt_text model_name w = (Ok raw_text, w1) ->
      raw_text <> []
      /\ strip (default [] (OPENAI_API_KEY w)) <> []
      /\ openai_installed w = true
      /\ exists response,
          provider w = response :: provider w1
          /\ raw_text
             = if bool_decide (output_text response = [])
               then strip (join nl (output_parts response))
               else output_text response)
  /\ (strip (default [] (OPENAI_API_KEY w)) = [] ->
      generate prompt_text model_name w
      = (Raise (LLMClientError
                  (lit "OPENAI_API_KEY не найден. Включите mock mode.")), w)).
Proof.
  split.
  - intros raw_text w1. unfold generate, iobind, get_client.
    destruct (bool_decide (strip (default [] (OPENAI_API_KEY w)) = []))
      eqn:Hkey; [discriminate|].
    apply bool_decide_eq_false in Hkey.
    destruct (openai_installed w); [|discriminate]. simpl.
    destruct (responses_create _ w) as [[response|e] w'] eqn:Hcall;
      [|discriminate].
    apply responses_create_ok in Hcall.
    destruct (bool_decide (output_text response = [])) eqn:Hout; simpl.
    + destruct (bool_decide (strip (join nl (output_parts response)) = []))
        eqn:Hparts; [discriminate|].
      apply bool_decide_eq_false in Hparts.
      intros [= <- <-]. repeat split; auto.
      exists response. rewrite Hout. auto.
    + apply bool_decide_eq_false in Hout.
      intros [= <- <-]. repeat split; auto.
      exists response. rewrite bool_decide_eq_false_2 by exact Hout. auto.
  - intros Hkey. unfold generate, iobind.
    rewrite (get_client_none w Hkey). reflexivity.
Qed.

(** X7: a text [repair_json] returns is never empty and has no white
    space at its ends. The one request it made has temperature 0, and
    its input holds both the text of the validation failure and the raw
    answer to repair. *)
Theorem repair_json_returns_stripped
  (raw_text : str) (validation_error : exn) (model_name : option str)
  (w w1 : World) (fixed : str) :
  repair_json raw_text validation_error model_name w = (Ok fixed, w1) ->
  fixed <> [] /\ strip fixed = fixed
  /\ exists req response,
      calls w1 = calls w ++ [req]
      /\ provider w = response :: provider w1
      /\ fixed = strip (output_text response)
      /\ req_model req = choose_model model_name w
      /\ req_temperature req = lit "0"
      /\ contains (exc_str validation_error) (req_input req) = true
      /\ contains raw_text (req_input req) = true.
Proof.
  unfold repair_json, iobind. rewrite (get_client_result w).
  destruct (fst (get_client w)) as [[key|]|e]; try discriminate.
  destruct (responses_create _ w) as [[response|e] w'] eqn:Hcall;
    [|discriminate].
  assert (Hcalls := responses_create_calls _ _ _ _ Hcall).
  apply responses_create_ok in Hcall.
  destruct (bool_decide (strip (output_text response) = [])) eqn:Hfixed;
    [discriminate|].
  apply bool_decide_eq_false in Hfixed. intros [= <- <-].
  split; [exact Hfixed|]. split; [apply strip_idem|].
  eexists _, response. repeat split; try eassumption; try reflexivity.
  - simpl.
    replace (repair_prompt raw_text validation_error)
      with ((lit "Исправь JSON. Верни ТОЛЬКО валидный JSON без markdown и пояснений."
               ++ nl ++ nl ++ lit "Ошибка валидации:" ++ nl)
              ++ exc_str validation_error
              ++ (nl ++ nl ++ lit "Текущий ответ:" ++ nl ++ raw_text))
      by (unfold repair_prompt; rewrite <- !app_assoc; reflexivity).
    apply contains_app.
  - simpl. unfold repair_prompt. rewrite !app_assoc.
    apply contains_app_end.
Qed.

Lemma repair_json_returns_stripped_witness :
  exists fixed w1,
    repair_json (lit "raw") (JSONDecodeError (lit "Expecting value")) None
      (answering_world [lit "  {}  "]) = (Ok fixed, w1)
    /\ strip fixed = fixed.
Proof.
  eexists _, _. split; [vm_compute; reflexivity|].
  eapply (repair_json_returns_stripped (lit "raw")
            (JSONDecodeError (lit "Expecting value")) None
            (answering_world [lit "  {}  "])).
  vm_compute. reflexivity.
Defined.

(** X8: [load_mock_output] leaves the world as it was. It raises an
    [LLMClientError] exactly when the sample file of the format is
    missing; a sample file that is there but does not hold a valid
    response makes it raise what [json.loads] raises (the decoder's
    [JSONDecodeError], or [RecursionError], or the [ValueError] of an
    integer of too many digits) or the validator's own exception. *)
Theorem load_mock_output_failures (c : caller) (format_id samples_dir : str)
  (w : World) :
  snd (load_mock_output c format_id samples_dir w) = w
  /\ (files w !! path_join samples_dir (mock_file_name format_id) = None
      <-> exists msg,
          fst (load_mock_output c format_id samples_dir w)
          = Raise (LLMClientError msg))
  /\ (forall text e,
        files w !! path_join samples_dir (mock_file_name format_id)
        = Some text ->
        fst (load_mock_output c format_id samples_dir w) = Raise e ->
        raised_by_loads e \/ is_validation_error e).
Proof.
  split; [apply load_mock_output_pure|].
  unfold load_mock_output.
  destruct (files w !! _) as [text|] eqn:Hfile; simpl.
  - assert (Hraise : forall e,
               (let* data := loads (recursion_room w (mock_loads c)) text in
                SegCraftResponse.model_validate data) = Raise e ->
               raised_by_loads e \/ is_validation_error e).
    { intros e H. apply bind_raise_inv in H as [H|(data & _ & H)].
      - left. exact (loads_raises _ _ _ H).
      - right. apply model_validate_raises in H. exact H. }
    split.
    + split; [discriminate|]. intros (msg & H).
      apply Hraise in H as [[H|[(m & H)|(m & H)]]|(loc & m & H)];
        discriminate.
    + intros text' e _. apply Hraise.
  - split.
    + split; [eauto|reflexivity].
    + discriminate.
Qed.

(** The path of the sample file is the one [pathlib] writes: a slash at
    the end of the directory, a doubled slash and a [.] leave no trace. *)
Example path_join_samples :
  path_join (lit "samples") (lit "sample_output_1.json")
  = lit "samples/sample_output_1.json"
  /\ path_join (lit "samples/") (lit "sample_output_1.json")
     = lit "samples/sample_output_1.json"
  /\ path_join (lit "/srv//app/./samples") (lit "sample_output_2.json")
     = lit "/srv/app/samples/sample_output_2.json"
  /\ path_join [] (lit "sample_output_2.json") = lit "sample_output_2.json".
Proof. vm_compute. repeat split; reflexivity. Qed.

Lemma generate_returns_text_witness :
  exists raw_text w1,
    generate (lit "prompt") None (answering_world [lit "{}"])
    = (Ok raw_text, w1)
    /\ raw_text <> [].
Proof.
  eexists _, _. split; [vm_compute; reflexivity|].
  eapply (proj1 (generate_returns_text (lit "prompt") None
                   (answering_world [lit "{}"]))).
  vm_compute. reflexivity.
Defined.

Lemma load_mock_output_failures_witness :
  exists msg,
    fst (load_mock_output by_app (lit "banner") (lit "samples")
           stubborn_world)
    = Raise (LLMClientError msg).
Proof.
  apply (proj1 (proj2 (load_mock_output_failures by_app (lit "banner")
                         (lit "samples") stubborn_world))).
  vm_compute. reflexivity.
Defined.

(** What the calls of the client can raise. *)
Lemma generate_raises prompt_text model_name (w : World) e :
  fst (generate prompt_text model_name w) = Raise e ->
  App.caught_by_main e = true \/ e = APIError.
Proof.
  unfold generate, iobind, get_client.
  destruct (bool_decide _); [intros [= <-]; left; reflexivity|].
  destruct (negb _); [intros [= <-]; left; reflexivity|]. simpl.
  unfold responses_create.
  destruct (provider w) as [|response rest];
    [intros [= <-]; right; reflexivity|]. simpl.
  destruct (negb _); [discriminate|]. destruct (bool_decide _);
    [intros [= <-]; left; reflexivity|discriminate].
Qed.

Lemma repair_json_raises raw_text err model_name (w : World) e :
  fst (repair_json raw_text err model_name w) = Raise e ->
  App.caught_by_main e = true \/ e = APIError.
Proof.
  unfold repair_json, iobind, get_client.
  destruct (bool_decide _); [intros [= <-]; left; reflexivity|].
  destruct (negb _); [intros [= <-]; left; reflexivity|]. simpl.
  unfold responses_create.
  destruct (provider w) as [|response rest];
    [intros [= <-]; right; reflexivity|]. simpl.
  destruct (bool_decide _);
    [intros [= <-]; left; reflexivity|discriminate].
Qed.

Lemma first_attempt_raises raw_text model_name (w : World) e :
  fst (first_attempt raw_text model_name w) = Raise e ->
  App.caught_by_main e = true \/ escapes e.
Proof.
  assert (Hparse : forall room text e',
             parse_and_validate room text = Raise e' ->
             caught e' = false -> escapes e').
  { intros room text e' H Hc.
    destruct (parse_and_validate_raises _ _ _ H) as [Hc'|[->|(msg & ->)]];
      [congruence|right; left; reflexivity|right; right; eauto]. }
  rewrite first_attempt_run.
  destruct (parse_and_validate (recursion_room w) raw_text) as [r|e1] eqn:E1;
    [discriminate|].
  destruct (caught e1) eqn:Hc1;
    [|intros [= <-]; right; exact (Hparse _ _ _ E1 Hc1)].
  assert (H := repair_json_raises raw_text e1 model_name w).
  destruct (repair_json raw_text e1 model_name w) as [[fixed|e2] w2].
  - rewrite second_attempt_run.
    destruct (parse_and_validate (recursion_room w2) fixed) as [r|e2] eqn:E2;
      [discriminate|].
    destruct (caught e2) eqn:Hc2; intros [= <-];
      [left; reflexivity|right; exact (Hparse _ _ _ E2 Hc2)].
  - intros [= <-]. destruct (H e2 eq_refl) as [Hm| ->];
      [left; exact Hm|right; left; reflexivity].
Qed.

(** What [run_generation] can raise: an exception of the client, one that
    escapes, or, on the mock branch, whatever reading the sample file
    raises. *)
Lemma run_generation_raises prompt_text format_id model_name samples_dir
  force_mock (w : World) e :
  fst (run_generation prompt_text format_id model_name samples_dir
         force_mock w) = Raise e ->
  App.caught_by_main e = true \/ escapes e
  \/ fst (load_mock_output by_run_generation format_id samples_dir w)
     = Raise e.
Proof.
  rewrite run_generation_run.
  assert (Hmock : fst (mock_branch format_id samples_dir w) = Raise e ->
                  fst (load_mock_output by_run_generation format_id
                         samples_dir w) = Raise e).
  { rewrite mock_branch_run. simpl.
    destruct (fst (load_mock_output by_run_generation format_id
                     samples_dir w));
      [discriminate|]. intros [= <-]. reflexivity. }
  destruct force_mock; [auto|].
  unfold get_client.
  destruct (bool_decide _); [auto|].
  destruct (negb _); [intros [= <-]; left; reflexivity|]. simpl.
  assert (Hg := generate_raises prompt_text model_name w).
  destruct (generate prompt_text model_name w) as [[raw|e1] w1].
  - intros H. apply first_attempt_raises in H as [H|H]; auto.
  - intros [= <-]. destruct (Hg e1 eq_refl) as [H| ->]; auto.
    right. left. left. reflexivity.
Qed.

Lemma load_mock_output_sample c format_id samples_dir (w w' : World) sample :
  sample_in_place c format_id samples_dir w sample ->
  same_surroundings w w' ->
  load_mock_output c format_id samples_dir w' = (Ok sample, w').
Proof.
  intros (text & Hfile & Hvalid) (_ & _ & _ & Hfiles & Hroom).
  unfold load_mock_output.
  rewrite Hfiles, Hfile, Hroom, Hvalid. reflexivity.
Qed.

(** X9: the [try] statement of the page around [run_generation]. With a
    valid sample file of the format in place, the page gets a validated
    response, or the run ends with an exception that neither
    [run_generation] nor the page catches: the failure of the provider,
    or the [RecursionError] or [ValueError] that [json.loads] raises on
    an answer of the provider. The response is that of the provider's
    answer tagged [llm], or the sample tagged [mock], or, when the run
    ended with an [LLMClientError] or an [LLMValidationError], the sample
    tagged [mock-fallback]. At most two calls are made. *)
Theorem generate_or_fallback_answers
  (prompt_text format_id samples_dir : str) (force_mock : bool) (w : World)
  (sample : SegCraftResponse.t) :
  (forall c, sample_in_place c format_id samples_dir w sample) ->
  let out :=
    App.generate_or_fallback prompt_text format_id samples_dir force_mock w in
  ((exists response mode,
       fst out = Ok (response, mode)
       /\ (exists payload,
              SegCraftResponse.model_validate payload = Ok response)
       /\ (mode = lit "llm"
           \/ (mode = lit "mock" \/ mode = lit "mock-fallback")
              /\ response = sample))
   \/ exists e, fst out = Raise e /\ escapes e)
  /\ exists made, made_calls w (snd out) made /\ (length made <= 2)%nat.
Proof.
  intros Hsample. cbv zeta.
  unfold App.generate_or_fallback, try_except, iobind.
  destruct (run_generation_made prompt_text format_id samples_dir None
              force_mock w) as (made & Hmade & Hlen).
  assert (Hraise := run_generation_raises prompt_text format_id None
                      samples_dir force_mock w).
  assert (Hok := run_generation_ok_inv prompt_text format_id samples_dir
                   None force_mock w).
  destruct (run_generation prompt_text format_id None samples_dir
              force_mock w) as [[[[response mode] raw]|e] w'];
    simpl in Hmade.
  - split; [|exists made; auto]. left. exists response, mode.
    split; [reflexivity|].
    destruct (Hok _ _ _ _ eq_refl)
      as (Hv & [(-> & _ & _ & text & Hfile & Hvalid)|(-> & _)]);
      split; auto.
    right. split; [auto|].
    destruct (Hsample by_run_generation) as (text' & Hfile' & Hvalid').
    congruence.
  - assert (Hload : load_mock_output by_run_generation format_id samples_dir w
                    = (Ok sample, w)).
    { apply (load_mock_output_sample _ _ _ w w sample
               (Hsample by_run_generation)).
      repeat split. }
    assert (Hescape : forall x, escapes x -> App.caught_by_main x = false).
    { intros x [->|[->|(msg & ->)]]; reflexivity. }
    destruct (Hraise e eq_refl) as [Hc|[He|Hl]].
    + rewrite Hc.
      rewrite (load_mock_output_sample _ _ _ w w' sample (Hsample by_app))
        by apply Hmade.
      split; [|exists made; auto]. left. exists sample, (lit "mock-fallback").
      split; [reflexivity|]. split; [|auto].
      destruct (Hsample by_app) as (text & Hfile & Hvalid).
      apply bind_ok_inv in Hvalid as (data & _ & Hdata). eauto.
    + rewrite (Hescape e He).
      split; [right; exists e; auto|exists made; auto].
    + rewrite Hload in Hl. discriminate.
Qed.

Lemma generate_or_fallback_answers_witness :
  exists sample w',
    App.generate_or_fallback (lit "prompt") (lit "yadirect_text")
      (lit "samples") false
      (answering_world [lit "Sorry, no JSON today."; lit "{ still broken"])
    = (Ok (sample, lit "mock-fallback"), w')
    /\ length (calls w') = 2%nat.
Proof.
  destruct sample_response_accepted as (payload & r & Hloads & Hvalid & _).
  eexists _, _. split; [vm_compute; reflexivity|].
  edestruct (generate_or_fallback_answers (lit "prompt")
               (lit "yadirect_text") (lit "samples") false
               (answering_world [lit "Sorry, no JSON today.";
                                 lit "{ still broken"]) r)
    as (_ & made & (Hcalls & _) & _).
  - intros c. exists (sample_response "2" two_copies).
    split; [vm_compute; reflexivity|].
    change (recursion_room _ _) with (ample_room payload_loads).
    rewrite Hloads. exact Hvalid.
  - vm_compute. reflexivity.
Defined.

(** The page does not catch what the decoder raises on an answer: an
    answer that is an integer of 4301 digits ends the run with the
    [ValueError] of [int], although the sample file is in place. *)
Example generate_or_fallback_escape :
  fst (App.generate_or_fallback (lit "prompt") (lit "yadirect_text")
         (lit "samples") false (answering_world [long_integer]))
  = Raise (ValueError (digits_limit_message 4301)).
Proof. vm_compute. reflexivity. Qed.

End OrchestratorPaths.

(* ===================================================================== *)
(** * Further properties of the extractor *)
(* ===================================================================== *)

Section ExtractorShape.
Import Schemas LlmClient.

Lemma find_from_split (x : char) (s t : str) :
  find_from x s = Some t ->
  exists before r,
    s = before ++ t /\ t = x :: r /\ contains_char x before = false.
Proof.
  induction s as [|c s IH]; simpl; [discriminate|].
  destruct (c =? x)%N eqn:E.
  - intros [= <-]. apply N.eqb_eq in E as ->.
    exists [], s. repeat split.
  - intros H. destruct (IH H) as (before & r & -> & -> & Hno).
    exists (c :: before), r. repeat split. unfold contains_char. simpl.
    rewrite E. exact Hno.
Qed.

(** The scan returns a prefix of the text it scans, ending with a closing
    brace. *)
Lemma brace_scan_prefix (text : str) :
  forall depth in_string escaped object_text,
    brace_scan depth in_string escaped text = Some object_text ->
    exists inner after,
      object_text = inner ++ [125%N] /\ text = object_text ++ after.
Proof.
  induction text as [|char rest IH]; intros depth in_string escaped obj;
    simpl; [discriminate|].
  assert (Hstep : forall d i e,
             cons char <$> brace_scan d i e rest = Some obj ->
             exists inner after,
               obj = inner ++ [125%N] /\ char :: rest = obj ++ after).
  { intros d i e H.
    destruct (brace_scan d i e rest) as [obj'|] eqn:E; [|discriminate].
    injection H as <-.
    destruct (IH _ _ _ _ E) as (inner & after & -> & Hrest).
    exists (char :: inner), after. split; [reflexivity|].
    simpl. rewrite <- Hrest. reflexivity. }
  destruct escaped; [apply Hstep|].
  destruct (char =? 92)%N; [apply Hstep|].
  destruct (char =? 34)%N; [apply Hstep|].
  destruct in_string; [apply Hstep|].
  destruct (char =? 123)%N; [apply Hstep|].
  destruct (char =? 125)%N eqn:E; [|apply Hstep].
  destruct (depth - 1 =? 0); [|apply Hstep].
  intros [= <-]. apply N.eqb_eq in E as ->. exists [], rest. split; reflexivity.
Qed.

(** X10: what [_extract_first_json_object] returns is never invented: it
    is the whole cleaned text, when that is valid JSON, or else a piece
    of the cleaned text that starts at its first opening brace and ends
    with a closing brace. What it raises is its own [LLMValidationError],
    when the cleaned text is not valid JSON, or else the [RecursionError]
    or the [ValueError] that [json.loads] raised on the cleaned text,
    passed on as it is. *)
Theorem extract_first_json_object_is_part (room : loads_call -> nat)
  (raw_text : str) :
  let text := strip_fence (strip raw_text) in
  (forall object_text,
      _extract_first_json_object room raw_text = Ok object_text ->
      (object_text = text
       /\ exists value, loads (room extract_loads) text = Ok value)
      \/ exists before inner after,
          text = before ++ object_text ++ after
          /\ object_text = 123%N :: inner ++ [125%N]
          /\ contains_char 123%N before = false)
  /\ (forall e,
        _extract_first_json_object room raw_text = Raise e ->
        ((exists msg, e = LLMValidationError msg)
         /\ exists msg, loads (room extract_loads) text
                        = Raise (JSONDecodeError msg))
        \/ (loads (room extract_loads) text = Raise e
            /\ (e = RecursionError \/ exists msg, e = ValueError msg))).
Proof.
  cbv zeta. unfold _extract_first_json_object.
  destruct (loads (room extract_loads) (strip_fence (strip raw_text)))
    as [value|e] eqn:Hloads.
  - split; [|discriminate]. intros obj [= <-]. left. eauto.
  - destruct (loads_raises _ _ _ Hloads) as [->|[(msg & ->)|(msg & ->)]].
    { split; [discriminate|]. intros e [= <-]. right. auto. }
    { split; [discriminate|]. intros e [= <-]. right. eauto. }
    destruct (find_from 123%N (strip_fence (strip raw_text)))
      as [from_start|] eqn:Hfind.
    2:{ split; [discriminate|]. intros e [= <-]. left. eauto. }
    destruct (brace_scan 0 false false from_start) as [obj|] eqn:Hscan.
    2:{ split; [discriminate|]. intros e [= <-]. left. eauto. }
    split; [|discriminate]. intros obj' [= <-]. right.
    apply find_from_split in Hfind as (before & r & Htext & -> & Hno).
    apply brace_scan_prefix in Hscan as (inner & after & -> & Hafter).
    destruct inner as [|c inner].
    + simpl in Hafter. discriminate Hafter.
    + injection Hafter as <- Hr.
      exists before, inner, after. rewrite Htext. simpl. rewrite Hr.
      repeat split. exact Hno.
Qed.

Lemma extract_first_json_object_is_part_witness :
  exists before inner after,
    strip_fence (strip boundary_output)
    = before ++ (123%N :: inner ++ [125%N]) ++ after
    /\ contains_char 123%N before = false.
Proof.
  destruct (proj1 (extract_first_json_object_is_part ample_room
                     boundary_output)
              (litq "{`a`: {`b`: `}`}}"))
    as [(Heq & _)|(before & inner & after & Htext & Hobj & Hno)].
  - vm_compute. reflexivity.
  - vm_compute in Heq. discriminate Heq.
  - exists before, inner, after. rewrite <- Hobj. split; assumption.
Defined.
End ExtractorShape.

(* ===================================================================== *)
(** * Further properties of the Schema Validator *)
(* ===================================================================== *)

Section AcceptedResponses.
Import Schemas.

Lemma validate_literal_ok allowed loc v s :
  validate_literal allowed loc v = Ok s -> In s allowed.
Proof.
  unfold validate_literal. destruct v; try discriminate.
  destruct (existsb (str_eqb s0) allowed) eqn:E; [|discriminate].
  intros [= <-]. apply existsb_exists in E as (x & Hin & Hx).
  apply str_eqb_true in Hx as ->. exact Hin.
Qed.

Lemma validate_int_range_ok lo hi loc v n :
  validate_int_range lo hi loc v = Ok n -> lo <= n <= hi.
Proof.
  unfold validate_int_range. intros H.
  apply bind_ok_inv in H as (n1 & H1 & H). unfold validate_int_ge in H1.
  apply bind_ok_inv in H1 as (n0 & _ & H1).
  destruct (n0 <? lo) eqn:Elo; [discriminate|]. injection H1 as <-.
  destruct (hi <? n0) eqn:Ehi; [discriminate|]. injection H as <-.
  apply Z.ltb_ge in Elo, Ehi. lia.
Qed.

Lemma validate_version_ok loc v s :
  validate_version loc v = Ok s -> version_matches s = true.
Proof.
  unfold validate_version. intros H.
  apply bind_ok_inv in H as (s0 & _ & H).
  destruct (version_matches s0) eqn:E; [|discriminate].
  injection H as <-. exact E.
Qed.

Lemma InputEcho_ok loc v echo :
  InputEcho.model_validate loc v = Ok echo ->
  In (InputEcho.tone echo) ToneLiteral
  /\ 1 <= InputEcho.variants_per_segment echo <= 3.
Proof.
  unfold InputEcho.model_validate. intros H. bind_inv H.
  injection H as <-. simpl.
  repeat match goal with
         | Hr : required _ _ _ _ = Ok _ |- _ =>
           apply required_ok_inv in Hr as (? & _ & Hr)
         end.
  match goal with
  | Hl : validate_literal _ _ _ = Ok _ |- _ => apply validate_literal_ok in Hl
  end.
  match goal with
  | Hi : validate_int_range _ _ _ _ = Ok _ |- _ =>
    apply validate_int_range_ok in Hi
  end.
  split; assumption.
Qed.

Lemma QuestionItem_ok loc v question :
  QuestionItem.model_validate loc v = Ok question ->
  In (QuestionItem.priority question) PriorityLiteral.
Proof.
  unfold QuestionItem.model_validate. intros H. bind_inv H.
  injection H as <-. simpl.
  repeat match goal with
         | Hr : required _ _ _ _ = Ok _ |- _ =>
           apply required_ok_inv in Hr as (? & _ & Hr)
         end.
  match goal with
  | Hl : validate_literal _ _ _ = Ok _ |- _ => apply validate_literal_ok in Hl
  end.
  assumption.
Qed.

Lemma defaulted_list_ok {A} (item : list str -> json -> result A)
  (P : A -> Prop) loc d name xs :
  (forall loc' v x, item loc' v = Ok x -> P x) ->
  defaulted (validate_list item) [] loc d name = Ok xs -> Forall P xs.
Proof.
  intros Hitem. unfold defaulted.
  destruct (dict_get d (lit name)) as [v|]; [|intros [= <-]; constructor].
  intros H. apply validate_list_ok_inv in H as (l & _ & Hall).
  eapply Forall2_right; [exact Hall|].
  intros v' x (loc' & Hx). eapply Hitem, Hx.
Qed.

(** X11: the constraints the declared fields put on a response hold of
    every response the Schema Validator accepts: the version is decimal
    digits (of any script), a dot and decimal digits; the tone is one of the four tones and the priority of
    every question one of the three priorities; the requested number of
    variants lies between 1 and 3, and so, by the check of the lengths,
    does the number of copies of every segment. *)
Theorem accepted_response_constraints
  (payload : json) (r : SegCraftResponse.t) :
  SegCraftResponse.model_validate payload = Ok r ->
  version_matches (SegCraftResponse.version r) = true
  /\ In (InputEcho.tone (SegCraftResponse.input_echo r)) ToneLiteral
  /\ 1 <= InputEcho.variants_per_segment (SegCraftResponse.input_echo r) <= 3
  /\ Forall (fun question => In (QuestionItem.priority question)
                               PriorityLiteral)
       (SegCraftResponse.questions r)
  /\ Forall (fun segment =>
               (1 <= length (SegmentOutput.copies segment) <= 3)%nat)
       (SegCraftResponse.segments r).
Proof.
  intros H.
  assert (Hfields := model_validate_fields _ _ H).
  assert (Hlen : Forall (copies_match
                           (InputEcho.variants_per_segment
                              (SegCraftResponse.input_echo r)))
                   (SegCraftResponse.segments r)).
  { unfold SegCraftResponse.model_validate in H.
    apply bind_ok_inv in H as (self & Hself & H).
    unfold SegCraftResponse.validate_lengths in H.
    destruct (SegCraftResponse.validate_lengths_loop _ _) as [[]|e] eqn:E.
    - simpl in H. injection H as <-.
      apply validate_lengths_loop_ok, E.
    - simpl in H. destruct e; discriminate. }
  unfold SegCraftResponse.validate_fields in Hfields. bind_inv Hfields.
  injection Hfields as <-. simpl in *.
  match goal with
  | Hv : required validate_version _ _ _ = Ok _ |- _ =>
    apply required_ok_inv in Hv as (? & _ & Hv);
      apply validate_version_ok in Hv
  end.
  match goal with
  | He : required InputEcho.model_validate _ _ _ = Ok _ |- _ =>
    apply required_ok_inv in He as (? & _ & He);
      apply InputEcho_ok in He as (Htone & Hrange)
  end.
  match goal with
  | Hq : defaulted (validate_list QuestionItem.model_validate) _ _ _ _
         = Ok _ |- _ =>
    apply (defaulted_list_ok _
             (fun question => In (QuestionItem.priority question)
                                PriorityLiteral)) in Hq;
      [|intros ? ? ?; apply QuestionItem_ok]
  end.
  repeat split; try assumption; try lia.
  eapply Forall_impl; [exact Hlen|].
  intros segment Hs. unfold copies_match in Hs. lia.
Qed.

Lemma accepted_response_constraints_witness :
  exists r,
    LlmClient.parse_and_validate ample_room (sample_response "2" two_copies) = Ok r
    /\ Forall (fun segment =>
                 (1 <= length (SegmentOutput.copies segment) <= 3)%nat)
         (SegCraftResponse.segments r).
Proof.
  destruct sample_response_accepted as (payload & r & _ & Hvalid & Hparse).
  exists r. split; [exact Hparse|].
  apply (accepted_response_constraints payload r Hvalid).
Defined.

(** The digit class of the pattern is not limited to the ASCII digits. *)
Example version_pattern_digits :
  version_matches (lit "1.0") = true
  /\ version_matches (lit "١.٢") = true
  /\ version_matches (lit "1.0.0") = false.
Proof. vm_compute. repeat split; reflexivity. Qed.
End AcceptedResponses.

(* ===================================================================== *)
(** * Further properties of the record parsers and of the form helpers *)
(* ===================================================================== *)

Section KeyValues.
Import ContentSource.

(** What an entry of a parsed block is made from: a line that is no
    comment and holds an equals sign, cut at its first equals sign. *)
Lemma parse_key_values_step_entries (P : str -> str -> Prop)
  (result : gmap str str) (line : str) :
  (forall k v, result !! k = Some v -> P k v) ->
  (contains_char 61%N (strip line) = true ->
   startswith (lit "#") (strip line) = false ->
   P (strip (fst (split_once 61%N (strip line))))
     (strip (snd (split_once 61%N (strip line))))) ->
  forall k v, parse_key_values_step result line !! k = Some v -> P k v.
Proof.
  intros Hresult Hline k v. unfold parse_key_values_step.
  destruct (bool_decide (strip line = [])); [apply Hresult|].
  destruct (startswith (lit "#") (strip line)); [apply Hresult|]. simpl.
  destruct (contains_char 61%N (strip line)); [|apply Hresult]. simpl.
  destruct (split_once 61%N (strip line)) as [key value]. simpl in Hline.
  intros H. apply lookup_insert_Some in H as [(<- & <-)|(_ & H)].
  - apply Hline; reflexivity.
  - apply Hresult, H.
Qed.

Lemma parse_key_values_fold_entries (P : str -> str -> Prop)
  (lines : list str) :
  forall result : gmap str str,
    (forall k v, result !! k = Some v -> P k v) ->
    (forall line,
        In line lines ->
        contains_char 61%N (strip line) = true ->
        startswith (lit "#") (strip line) = false ->
        P (strip (fst (split_once 61%N (strip line))))
          (strip (snd (split_once 61%N (strip line))))) ->
    forall k v,
      foldl parse_key_values_step result lines !! k = Some v -> P k v.
Proof.
  induction lines as [|line lines IH]; intros result Hresult Hlines;
    simpl; [exact Hresult|].
  apply IH.
  - apply parse_key_values_step_entries; [exact Hresult|].
    apply Hlines. left. reflexivity.
  - intros l Hl. apply Hlines. right. exact Hl.
Qed.

(** X12: every entry of a block parsed by [parse_key_values] comes from
    one of its lines that is not a comment and holds an equals sign: the
    key is the stripped text before the first equals sign of the line and
    the value the stripped text after it. So a key holds no equals sign,
    and neither a key nor a value has white space at its ends or holds a
    line break. *)
Theorem parse_key_values_entries (block k v : str) :
  parse_key_values block !! k = Some v ->
  (exists line,
      In line (splitlines block)
      /\ contains_char 61%N (strip line) = true
      /\ startswith (lit "#") (strip line) = false
      /\ k = strip (fst (split_once 61%N (strip line)))
      /\ v = strip (snd (split_once 61%N (strip line))))
  /\ strip k = k /\ strip v = v
  /\ contains_char 61%N k = false
  /\ existsb is_linebreak k = false /\ existsb is_linebreak v = false.
Proof.
  unfold parse_key_values. revert k v.
  apply parse_key_values_fold_entries.
  - intros k v H. rewrite lookup_empty in H. discriminate.
  - intros line Hin Heq Hhash.
    assert (Hline : existsb is_linebreak (strip line) = false).
    { apply existsb_strip.
      exact (proj1 (List.Forall_forall _ _) (splitlines_no_linebreak block)
               line Hin). }
    assert (Hparts : existsb is_linebreak (fst (split_once 61%N (strip line)))
                     = false
                     /\ existsb is_linebreak
                          (snd (split_once 61%N (strip line))) = false).
    { clear -Hline. induction (strip line) as [|c s IH]; simpl;
        [split; reflexivity|].
      simpl in Hline. apply orb_false_iff in Hline as [Hc Hs].
      destruct (c =? 61)%N; [split; [reflexivity|exact Hs]|].
      destruct (IH Hs) as [Ha Hb].
      destruct (split_once 61%N s) as [a b]. simpl in *.
      rewrite Hc. split; assumption. }
    split; [exists line; repeat split; assumption|].
    split; [apply strip_idem|]. split; [apply strip_idem|].
    split; [apply existsb_strip, split_once_fst_absent|].
    split; apply existsb_strip, Hparts.
Qed.

Lemma parse_key_values_entries_witness :
  parse_key_values (lit "  name = A = B  ") !! lit "name" = Some (lit "A = B")
  /\ strip (lit "name") = lit "name".
Proof.
  split; [vm_compute; reflexivity|].
  refine (proj1 (proj2 (parse_key_values_entries (lit "  name = A = B  ")
                          (lit "name") (lit "A = B") _))).
  vm_compute. reflexivity.
Defined.

Lemma omap_stripped_items (lines : list str) (item : str) :
  In item
    (omap (fun line =>
             let s := strip line in
             if bool_decide (s = []) then None else Some s) lines) ->
  exists line, In line lines /\ item = strip line /\ item <> [].
Proof.
  intros H. apply list_elem_of_In, list_elem_of_omap in H
    as (line & Hin & Hline).
  apply list_elem_of_In in Hin. cbv zeta in Hline.
  destruct (bool_decide (strip line = [])) eqn:E; [discriminate|].
  apply bool_decide_eq_false in E. injection Hline as <-. eauto.
Qed.

(** X13: every item [split_semicolon_list] returns is a non-empty piece
    of the value between two semicolons, stripped: it holds no semicolon
    and has no white space at its ends. An absent or empty value gives
    no item. *)
Theorem split_semicolon_list_items (raw_value : option str) :
  (forall item,
      In item (split_semicolon_list raw_value) ->
      item <> [] /\ strip item = item /\ contains_char 59%N item = false
      /\ exists value piece,
          raw_value = Some value /\ In piece (split_all 59%N value)
          /\ item = strip piece)
  /\ (raw_value = None \/ raw_value = Some [] ->
      split_semicolon_list raw_value = []).
Proof.
  split.
  - intros item. unfold split_semicolon_list.
    destruct raw_value as [[|c value]|]; try (intros []).
    intros H. apply omap_stripped_items in H as (piece & Hin & -> & Hne).
    split; [exact Hne|]. split; [apply strip_idem|]. split.
    + apply existsb_strip.
      exact (proj1 (List.Forall_forall _ _) (split_all_absent 59%N (c :: value))
               piece Hin).
    + eauto.
  - intros [-> | ->]; reflexivity.
Qed.

Lemma split_semicolon_list_items_witness :
  split_semicolon_list (Some (lit " a ; ;b;")) = [lit "a"; lit "b"]
  /\ split_semicolon_list None = [].
Proof.
  split; [vm_compute; reflexivity|].
  apply (proj2 (split_semicolon_list_items None)). left. reflexivity.
Defined.
End KeyValues.

Section FormHelpers.
Import ContentSource.

Lemma replace_char_absent (old : char) (new s : str) :
  contains_char old new = false ->
  contains_char old (App.replace_char old new s) = false.
Proof.
  unfold contains_char, App.replace_char. intros Hnew.
  induction s as [|c s IH]; [reflexivity|].
  cbn [flat_map]. rewrite existsb_app. apply orb_false_iff.
  split; [|exact IH].
  destruct (c =? old)%N eqn:E; [exact Hnew|]. simpl. rewrite E. reflexivity.
Qed.

Lemma existsb_splitlines (P : char -> bool) (s : str) :
  existsb P s = false ->
  Forall (fun line => existsb P line = false) (splitlines s).
Proof.
  assert (H : forall n (t : str),
             (length t <= n)%nat -> existsb P t = false ->
             Forall (fun line => existsb P line = false) (splitlines t));
    [|exact (H (length s) s (le_n _))].
  clear s. induction n as [|n IH]; intros t Hn Ht; destruct t as [|c s];
    simpl in Hn; try lia; [constructor|constructor|].
  simpl in Ht. apply orb_false_iff in Ht as [Hc Hs].
  simpl. destruct (is_linebreak c) eqn:E.
  - destruct s as [|c' r'].
    + repeat constructor.
    + destruct ((c =? 13) && (c' =? 10))%N.
      * constructor; [reflexivity|]. apply IH; [cbn [length] in *; lia|].
        simpl in Hs. apply orb_false_iff in Hs as [_ Hs]. exact Hs.
      * constructor; [reflexivity|]. apply IH; [cbn [length] in *; lia|].
        exact Hs.
  - assert (Hl := IH s ltac:(lia) Hs).
    destruct (splitlines s) as [|l ls].
    + constructor; [simpl; rewrite Hc; reflexivity|constructor].
    + inversion Hl as [|? ? Hl1 Hls]; subst.
      constructor; [simpl; rewrite Hc; exact Hl1|exact Hls].
Qed.

(** X14: every constraint [parse_constraints] returns is non-empty, has
    no white space at its ends and holds neither a semicolon nor a line
    break: semicolons and line breaks both separate constraints, and
    blank pieces are dropped. *)
Theorem parse_constraints_items (raw_text item : str) :
  In item (App.parse_constraints raw_text) ->
  item <> [] /\ strip item = item
  /\ contains_char 59%N item = false
  /\ existsb is_linebreak item = false.
Proof.
  unfold App.parse_constraints. intros H.
  apply omap_stripped_items in H as (line & Hin & -> & Hne).
  split; [exact Hne|]. split; [apply strip_idem|]. split.
  - apply existsb_strip.
    refine (proj1 (List.Forall_forall _ _) (existsb_splitlines _ _ _) line Hin).
    apply replace_char_absent. reflexivity.
  - apply existsb_strip.
    exact (proj1 (List.Forall_forall _ _) (splitlines_no_linebreak _) line Hin).
Qed.

Lemma parse_constraints_items_witness :
  App.parse_constraints (lit "no slang; ;  18+ only
be brief") = [lit "no slang"; lit "18+ only"; lit "be brief"]
  /\ strip (lit "18+ only") = lit "18+ only".
Proof.
  split; [vm_compute; reflexivity|].
  refine (proj1 (proj2 (parse_constraints_items (lit "no slang; ;  18+ only
be brief") (lit "18+ only") _))).
  vm_compute. right. left. reflexivity.
Defined.

Lemma split_all_hd (x : char) (s : str) :
  hd [] (split_all x s) = fst (split_once x s).
Proof.
  induction s as [|c s IH]; simpl; [reflexivity|].
  destruct (c =? x)%N; [reflexivity|].
  destruct (split_all x s) as [|p ps]; destruct (split_once x s) as [a b];
    simpl in *; congruence.
Qed.

Lemma split_once_fst_prefix (x : char) (s : str) :
  exists rest, s = fst (split_once x s) ++ rest.
Proof.
  induction s as [|c s IH]; simpl; [exists []; reflexivity|].
  destruct (c =? x)%N; [exists (c :: s); reflexivity|].
  destruct IH as (rest & IH). destruct (split_once x s) as [a b].
  simpl in *. exists rest. congruence.
Qed.

Lemma existsb_take (P : char -> bool) (n : nat) (s : str) :
  existsb P s = false -> existsb P (take n s) = false.
Proof.
  revert n. induction s as [|c s IH]; intros [|n]; simpl; try reflexivity.
  intros H. apply orb_false_iff in H as [-> Hs]. apply IH, Hs.
Qed.

(** X15: the segment [create_custom_segment] builds from the free text
    of the form has the fixed identifier [custom_segment] and the
    stripped text as its audience and its job. Its name is the start of
    the stripped text up to the first full stop, cut to 48 characters: it
    is at most 48 characters long and holds no full stop; it is empty
    when the text starts with a full stop; and it is the fixed default
    name when the text is blank. *)
Theorem create_custom_segment_name (text : str) :
  let segment := App.create_custom_segment text in
  segment_id segment = lit "custom_segment"
  /\ who segment = strip text /\ job_to_be_done segment = strip text
  /\ (strip text = [] -> seg_name segment = lit "Пользовательский сегмент")
  /\ (strip text <> [] ->
      (length (seg_name segment) <= 48)%nat
      /\ contains_char 46%N (seg_name segment) = false
      /\ (exists rest, strip text = seg_name segment ++ rest)
      /\ (forall rest, strip text = 46%N :: rest -> seg_name segment = [])).
Proof.
  cbv zeta. unfold App.create_custom_segment. simpl.
  split; [reflexivity|]. split; [reflexivity|]. split; [reflexivity|].
  split.
  - intros ->. reflexivity.
  - intros Hne. rewrite bool_decide_eq_false_2 by exact Hne. simpl.
    rewrite split_all_hd. unfold slice_to. simpl.
    split; [|split; [|split]].
    + rewrite length_take. lia.
    + apply existsb_take, split_once_fst_absent.
    + destruct (split_once_fst_prefix 46%N (strip text)) as (rest & Hrest).
      exists (drop 48 (fst (split_once 46%N (strip text))) ++ rest).
      rewrite app_assoc, take_drop. exact Hrest.
    + intros rest ->. reflexivity.
Qed.

Lemma create_custom_segment_name_witness :
  seg_name (App.create_custom_segment (lit "  Owners of small cafes. They need guests on weekdays.  "))
  = lit "Owners of small cafes"
  /\ (length (lit "Owners of small cafes") <= 48)%nat.
Proof.
  split; [vm_compute; reflexivity|].
  replace (lit "Owners of small cafes")
    with (seg_name (App.create_custom_segment
                      (lit "  Owners of small cafes. They need guests on weekdays.  ")))
    by (vm_compute; reflexivity).
  refine (proj1 (proj2 (proj2 (proj2 (proj2
            (create_custom_segment_name
               (lit "  Owners of small cafes. They need guests on weekdays.  ")))))
            _)).
  vm_compute. discriminate.
Defined.
End FormHelpers.

(* ===================================================================== *)
(** * Further properties of the segment parser *)
(* ===================================================================== *)

Section ClosedRecords.
Import ContentSource.

(** Inside an open record the kept lines are appended to the buffer. *)
Lemma parse_segments_fold_inside (lines : list str) :
  forall segs buf,
    Forall (fun line => strip line <> lit "SEGMENT"
                        /\ strip line <> lit "END") lines ->
    foldl parse_segments_step
      {| segments := segs; buffer := buf; in_segment := true |} lines
    = {| segments := segs; buffer := buf ++ kept_lines lines;
         in_segment := true |}.
Proof.
  induction lines as [|line lines IH]; intros segs buf Hall.
  - simpl. rewrite app_nil_r. reflexivity.
  - inversion Hall as [|? ? [Hopen Hend] Hrest]; subst.
    cbn [foldl]. unfold kept_lines. cbn [omap list_omap]. cbv zeta.
    fold (kept_lines lines).
    unfold parse_segments_step at 2.
    destruct (bool_decide (strip line = [])
              || startswith (lit "#") (strip line)).
    + apply IH, Hrest.
    + rewrite (str_eqb_false _ _ Hopen), (str_eqb_false _ _ Hend).
      cbn [in_segment segments buffer]. rewrite IH by exact Hrest.
      rewrite <- app_assoc. reflexivity.
Qed.

Lemma parse_segments_step_close (st : SegState) (line : str) :
  strip line = lit "END" -> in_segment st = true ->
  parse_segments_step st line
  = {| segments := segments st ++ [segment_of_buffer (buffer st)];
       buffer := []; in_segment := false |}.
Proof.
  intros H Hin. unfold parse_segments_step. rewrite H, Hin. reflexivity.
Qed.

Lemma parse_segments_fold_block (st : SegState) (b : Block) :
  closed_record b ->
  foldl parse_segments_step st (block_lines b)
  = {| segments :=
         segments st ++ [segment_of_buffer (kept_lines (inside b))];
       buffer := []; in_segment := false |}.
Proof.
  intros (Hgap & Hopen & Hinside & Hend). unfold block_lines.
  rewrite foldl_app. cbn [foldl].
  rewrite (parse_segments_step_open _ _ Hopen).
  rewrite parse_segments_fold_keeps by exact Hgap.
  rewrite foldl_app. cbn [foldl].
  rewrite (parse_segments_fold_inside _ _ _ Hinside).
  rewrite (parse_segments_step_close _ _ Hend) by reflexivity.
  reflexivity.
Qed.

Lemma parse_segments_fold_blocks (blocks : list Block) :
  forall st,
    Forall closed_record blocks ->
    segments (foldl parse_segments_step st (concat (map block_lines blocks)))
    = segments st
        ++ map (fun b => segment_of_buffer (kept_lines (inside b))) blocks.
Proof.
  induction blocks as [|b blocks IH]; intros st Hall.
  - simpl. rewrite app_nil_r. reflexivity.
  - inversion Hall as [|? ? Hb Hrest]; subst.
    cbn [map concat]. rewrite foldl_app.
    rewrite (parse_segments_fold_block _ _ Hb), IH by exact Hrest.
    cbn [segments map]. rewrite <- app_assoc. reflexivity.
Qed.

(** X16: a text in which every [END] line closes a record yields one
    segment for each closed record, in the order of the text, and
    nothing else. The segment of a record is built from the lines between
    the [SEGMENT] line that opened it last and its [END] line, stripped,
    without the blank lines and the comments; whatever stands between the
    records, and an unclosed record at the end, is ignored. *)
Theorem parse_segments_closed_records
  (section_text : str) (blocks : list Block) (rest : list str) :
  splitlines section_text = concat (map block_lines blocks) ++ rest ->
  Forall closed_record blocks ->
  Forall (fun line => strip line <> lit "END") rest ->
  parse_segments section_text
  = map (fun b => segment_of_buffer (kept_lines (inside b))) blocks.
Proof.
  intros Hlines Hblocks Hrest.
  unfold parse_segments, parse_segments_lines.
  rewrite Hlines, foldl_app.
  rewrite parse_segments_fold_keeps by exact Hrest.
  rewrite parse_segments_fold_blocks by exact Hblocks. reflexivity.
Qed.

Lemma parse_segments_closed_records_witness :
  map segment_id
    (parse_segments (lit "# segments
SEGMENT
id=stale
SEGMENT
  id = cafes
# a comment

  pains = no guests; costs
END
noise
SEGMENT
id=gyms
END
SEGMENT
id=open"))
  = [lit "cafes"; lit "gyms"].
Proof.
  rewrite (parse_segments_closed_records _
             [ {| gap := [lit "# segments"; lit "SEGMENT"; lit "id=stale"];
                  open_line := lit "SEGMENT";
                  inside := [lit "  id = cafes"; lit "# a comment"; [];
                             lit "  pains = no guests; costs"];
                  end_line := lit "END" |};
               {| gap := [lit "noise"];
                  open_line := lit "SEGMENT";
                  inside := [lit "id=gyms"];
                  end_line := lit "END" |} ]
             [lit "SEGMENT"; lit "id=open"]).
  - vm_compute. reflexivity.
  - vm_compute. reflexivity.
  - repeat constructor; try (vm_compute; reflexivity);
      try (intros H; vm_compute in H; discriminate H).
  - repeat constructor; intros H; vm_compute in H; discriminate H.
Defined.
End ClosedRecords.

(* ===================================================================== *)
(** * Further properties of the enforcers *)
(* ===================================================================== *)

Section Recount.
Import ContentSource.

Lemma enforce_char_counts_body_rejects_str :
  rejects_str enforce_char_counts_body.
Proof. intros s y H. discriminate. Qed.

Lemma enforce_char_counts_body_inv copy y :
  enforce_char_counts_body copy = Ok y -> exists d, copy = JDict d.
Proof. destruct copy; try discriminate. eauto. Qed.

(** After one recount, a second one changes nothing. *)
Lemma enforce_char_counts_body_fixed copy copy' :
  enforce_char_counts_body copy = Ok copy' ->
  enforce_char_counts_body copy' = Ok copy'.
Proof.
  intros H. destruct (enforce_char_counts_body_inv _ _ H) as (d & ->).
  apply enforce_char_counts_body_spec in H as (d1 & -> & _ & _ & _ & Hc & Hrf).
  apply enforce_char_counts_body_noop; assumption.
Qed.

(** X17: [enforce_char_counts] is idempotent on every payload: applied
    to its own result it returns that result again, and where the first
    application raises, so does the pair. *)
Theorem enforce_char_counts_idempotent (payload : dict) :
  (let* once := enforce_char_counts payload in enforce_char_counts once)
  = enforce_char_counts payload.
Proof.
  destruct (enforce_char_counts payload) as [once|e] eqn:E; [|reflexivity].
  simpl. unfold enforce_char_counts in *.
  exact (for_each_copy_fix _ _ _ _ enforce_char_counts_body_rejects_str E
           enforce_char_counts_body_fixed).
Qed.

Lemma dict_get_setdefault_eq (d : dict) (k : str) (v : json) :
  dict_get (dict_setdefault d k v) k = Some (default v (dict_get d k)).
Proof.
  unfold dict_setdefault. destruct (dict_get d k) as [x|] eqn:E.
  - exact E.
  - apply dict_get_set_eq.
Qed.

Lemma enforce_char_counts_body_recounted copy copy' :
  enforce_char_counts_body copy = Ok copy' -> recounted_copy copy copy'.
Proof.
  intros H. destruct (enforce_char_counts_body_inv _ _ H) as (d & ->).
  assert (Hspec := enforce_char_counts_body_spec _ _ H).
  destruct Hspec as (d1 & -> & _ & _ & _ & Hc & _).
  exists d, d1. repeat split; try assumption.
  - intros k Hk1 Hk2. revert H. unfold enforce_char_counts_body.
    simpl get_or. cbn [Py.bind]. intros H. bind_inv H. injection H as <-.
    rewrite dict_get_setdefault_ne by congruence.
    apply dict_get_set_ne. congruence.
  - revert H. unfold enforce_char_counts_body.
    simpl get_or. cbn [Py.bind]. intros H. bind_inv H. injection H as <-.
    rewrite dict_get_setdefault_eq.
    rewrite dict_get_set_ne by lit_neq. reflexivity.
Qed.

(** X18: [enforce_char_counts] changes nothing but the counters and the
    presence of the risk flags: every key of the payload other than
    [segments] keeps its value, the payload has as many copies as before,
    and in each copy every field but [char_count] and [risk_flags] is as
    it was, and so is the value of [risk_flags] when the copy had one; a
    copy without risk flags gets an empty list. *)
Theorem enforce_char_counts_keeps (payload payload' : dict) :
  enforce_char_counts payload = Ok payload' ->
  (forall k, k <> lit "segments" -> dict_get payload' k = dict_get payload k)
  /\ Forall2 recounted_copy (payload_copies payload)
       (payload_copies payload').
Proof.
  intros H. unfold enforce_char_counts in H. split.
  - intros k Hk. apply (for_each_copy_other _ _ _ _ H). congruence.
  - eapply Forall2_impl'; [apply for_each_copy_Forall2, H|].
    apply enforce_char_counts_body_recounted.
Qed.

Lemma enforce_char_counts_keeps_witness :
  exists payload',
    enforce_char_counts (payload_with bare_copy) = Ok payload'
    /\ Forall2 recounted_copy (payload_copies (payload_with bare_copy))
         (payload_copies payload').
Proof.
  eexists. split; [vm_compute; reflexivity|].
  eapply (enforce_char_counts_keeps (payload_with bare_copy)).
  vm_compute. reflexivity.
Defined.
End Recount.

(* ===================================================================== *)
(** * The sample outputs written by the synchronisation tool *)
(* ===================================================================== *)

Section SampleOutputs.
Import ContentSource SyncFromText.

Lemma format_limits_of_snoc (formats : list Format) (fmt : Format) :
  format_limits_of (formats ++ [fmt])
  = <[format_id fmt := limits_entry fmt]> (format_limits_of formats).
Proof. unfold format_limits_of. rewrite foldl_app. reflexivity. Qed.

Lemma last_with_id_snoc (id : str) (formats : list Format) (fmt : Format) :
  last_with_id id (formats ++ [fmt])
  = if str_eqb (format_id fmt) id then Some fmt
    else last_with_id id formats.
Proof.
  unfold last_with_id. rewrite List.filter_app. simpl.
  destruct (str_eqb (format_id fmt) id).
  - apply last_snoc.
  - rewrite app_nil_r. reflexivity.
Qed.

Lemma format_limits_of_lookup (formats : list Format) (id : str) :
  format_limits_of formats !! id = limits_entry <$> last_with_id id formats.
Proof.
  induction formats as [|fmt formats IH] using rev_ind.
  - reflexivity.
  - rewrite format_limits_of_snoc, last_with_id_snoc.
    destruct (str_eqb (format_id fmt) id) eqn:E.
    + apply str_eqb_true in E as <-. apply lookup_insert_eq.
    + rewrite lookup_insert_ne; [exact IH|].
      intros Heq. rewrite Heq, str_eqb_refl in E. discriminate.
Qed.

Lemma limits_entry_items (fmt : Format) :
  limits_entry fmt <> ∅
  /\ limits_item (limits_entry fmt) (lit "headline_max")
     = Ok (headline_max (limits fmt))
  /\ limits_item (limits_entry fmt) (lit "body_max")
     = Ok (body_max (limits fmt)).
Proof.
  unfold limits_entry. split; [apply insert_non_empty|].
  split; apply limits_item_ok.
  - apply lookup_insert_eq.
  - rewrite lookup_insert_ne by lit_neq. apply lookup_singleton_eq.
Qed.

(** X19: the mapping [main] builds from the parsed formats gives, for a
    format id, the two maxima of the last format of that id, and nothing
    for an id no format has. So every entry is non-empty and has both
    keys: [ensure_format_limits] never fails to find a maximum in it. *)
Theorem format_limits_of_last_wins (formats : list Format) (id : str) :
  format_limits_of formats !! id = limits_entry <$> last_with_id id formats
  /\ (forall limits,
        format_limits_of formats !! id = Some limits ->
        limits <> ∅
        /\ (exists headline_max,
               limits_item limits (lit "headline_max") = Ok headline_max)
        /\ (exists body_max,
               limits_item limits (lit "body_max") = Ok body_max)).
Proof.
  split; [apply format_limits_of_lookup|].
  intros limits. rewrite format_limits_of_lookup.
  destruct (last_with_id id formats) as [fmt|]; [|discriminate].
  intros [= <-]. destruct (limits_entry_items fmt) as (Hne & Hh & Hb).
  eauto.
Qed.

Lemma format_limits_of_last_wins_witness :
  format_limits_of [banner_format 30 0; banner_format 20 90] !! lit "banner"
  = Some (limits_entry (banner_format 20 90))
  /\ limits_entry (banner_format 20 90) <> ∅.
Proof.
  assert (H : format_limits_of [banner_format 30 0; banner_format 20 90]
              !! lit "banner"
              = Some (limits_entry (banner_format 20 90))).
  { rewrite (proj1 (format_limits_of_last_wins _ _)).
    replace (last_with_id (lit "banner")
               [banner_format 30 0; banner_format 20 90])
      with (Some (banner_format 20 90)) by (vm_compute; reflexivity).
    reflexivity. }
  split; [exact H|].
  apply (proj2 (format_limits_of_last_wins _ _) _ H).
Defined.

(** The recount and the truncation keep the shape of a copy. *)
Lemma text_ok_py_len (d : dict) (k : string) :
  text_ok d k = true -> exists n, py_len (text_field d k) = Ok n.
Proof.
  unfold text_ok, text_field.
  destruct (dict_get d (lit k)) as [[| | | |s| |]|]; try discriminate;
    simpl; eauto.
Qed.

Lemma enforce_char_counts_body_shaped copy :
  copy_shaped copy = true ->
  exists copy', enforce_char_counts_body copy = Ok copy'.
Proof.
  destruct copy as [| | | | | |d]; try discriminate. simpl. intros H.
  apply andb_true_iff in H as [H _]. apply andb_true_iff in H as [Hh Hb].
  destruct (text_ok_py_len _ _ Hh) as (n & Hn).
  destruct (text_ok_py_len _ _ Hb) as (m & Hm).
  exact (enforce_char_counts_body_total d n m Hn Hm).
Qed.

Lemma recounted_copy_shaped copy copy' :
  copy_shaped copy = true -> recounted_copy copy copy' ->
  copy_shaped copy' = true.
Proof.
  intros Hshape (d & d' & -> & -> & Hkeep & Hflags & _).
  simpl in *. unfold text_ok in *.
  rewrite !Hkeep by lit_neq. rewrite Hflags.
  apply andb_true_iff in Hshape as [Htexts Hf]. rewrite Htexts. simpl.
  destruct (dict_get d (lit "risk_flags")) as [[| | | | |l|]|];
    try discriminate; reflexivity.
Qed.
Lemma ensure_format_limits_body_shaped headline_max body_max copy copy' :
  copy_shaped copy = true ->
  ensure_format_limits_body headline_max body_max copy = Ok copy' ->
  copy_shaped copy' = true.
Proof.
  destruct copy as [| | | | | |d]; try discriminate.
  cbn [copy_shaped]. unfold text_ok. intros H.
  apply andb_true_iff in H as [H Hrf]. apply andb_true_iff in H as [Hh Hb].
  unfold ensure_format_limits_body.
  destruct (dict_get d (lit "headline")) as [[| | | |h| |]|] eqn:Eh;
    try discriminate;
    destruct (dict_get d (lit "body")) as [[| | | |b| |]|] eqn:Eb;
    try discriminate;
    destruct (dict_get d (lit "risk_flags")) as [[| | | | |l|]|] eqn:Er;
    try discriminate;
    simpl;
    repeat match goal with
           | |- context [if ?c then _ else _] => destruct c; simpl
           end;
    rewrite ?dict_get_set_ne by lit_neq;
    rewrite ?Er; intros [= <-]; cbn [copy_shaped]; unfold text_ok;
    repeat first [rewrite dict_get_set_eq
                 | rewrite dict_get_set_ne by lit_neq];
    rewrite ?Eh, ?Eb, ?Er; reflexivity.
Qed.

Lemma on_shaped_rejects_str f : rejects_str (on_shaped f).
Proof. intros s y H. discriminate. Qed.

Lemma on_shaped_inv f copy y :
  on_shaped f copy = Ok y -> copy_shaped copy = true /\ f copy = Ok y.
Proof.
  unfold on_shaped. destruct (copy_shaped copy); [auto|discriminate].
Qed.

Lemma for_each_copy_mono f g p p1 :
  (forall c y, f c = Ok y -> g c = Ok y) ->
  for_each_copy f p = Ok p1 -> for_each_copy g p = Ok p1.
Proof.
  intros Hfg. rewrite !for_each_copy_unfold. apply update_field_mono.
  intros segment y Hy.
  apply on_segment_inv in Hy as (sd & sd1 & -> & -> & Hsd).
  simpl. rewrite (update_field_mono _ _ _ _ _ Hfg Hsd). reflexivity.
Qed.

(** On a payload of the shape of a response the three loops of the
    tool run through: the recount, the truncation and the recount of
    [ensure_format_limits], whatever the maxima. *)
Lemma three_loops_total (payload : dict) (headline_max body_max : Z) :
  payload_shaped payload = true ->
  exists p1 p2 p3,
    enforce_char_counts payload = Ok p1
    /\ for_each_copy (ensure_format_limits_body headline_max body_max) p1
       = Ok p2
    /\ enforce_char_counts p2 = Ok p3.
Proof.
  intros Hshape. unfold enforce_char_counts.
  set (f1 := on_shaped enforce_char_counts_body).
  set (g := ensure_format_limits_body headline_max body_max).
  destruct (for_each_copy_total f1 payload) as (p1 & H1).
  { intros c Hc. unfold f1, on_shaped. rewrite Hc.
    apply enforce_char_counts_body_shaped, Hc. }
  { exact Hshape. }
  assert (Hg : forall c c1, f1 c = Ok c1 ->
                            copy_shaped c1 = true).
  { intros c c1 Hc. apply on_shaped_inv in Hc as (Hc & Hc1).
    eapply recounted_copy_shaped; [exact Hc|].
    apply enforce_char_counts_body_recounted, Hc1. }
  destruct (for_each_copy_then f1 g payload p1 (on_shaped_rejects_str _) H1)
    as (p2 & H2).
  { intros c c1 Hc. apply ensure_format_limits_body_total, (Hg _ _ Hc). }
  assert (H12 := for_each_copy_fuse _ _ _ _ _ (on_shaped_rejects_str _)
                   H1 H2).
  destruct (for_each_copy_then _ enforce_char_counts_body payload p2
              (rejects_str_fuse f1 g (on_shaped_rejects_str _)) H12)
    as (p3 & H3).
  { intros c c2 Hc. apply bind_ok_inv in Hc as (c1 & Hc1 & Hc2).
    apply enforce_char_counts_body_shaped.
    eapply ensure_format_limits_body_shaped; [|exact Hc2].
    apply (Hg _ _ Hc1). }
  exists p1, p2, p3. split; [|split; assumption].
  eapply for_each_copy_mono; [|exact H1].
  intros c y Hc. apply on_shaped_inv in Hc as (_ & Hc). exact Hc.
Qed.

Lemma recounted_copy_counted copy copy' :
  recounted_copy copy copy' -> counted_copy copy'.
Proof.
  intros (d & d' & _ & -> & _ & Hrf & Hc).
  exists d'. repeat split; [exact Hc|]. rewrite Hrf. discriminate.
Qed.

Lemma enforce_char_counts_counted (payload payload' : dict) :
  enforce_char_counts payload = Ok payload' ->
  Forall2 recounted_copy (payload_copies payload) (payload_copies payload')
  /\ Forall counted_copy (payload_copies payload').
Proof.
  intros H. unfold enforce_char_counts in H.
  assert (H2 : Forall2 recounted_copy (payload_copies payload)
                 (payload_copies payload')).
  { eapply Forall2_impl'; [apply for_each_copy_Forall2, H|].
    apply enforce_char_counts_body_recounted. }
  split; [exact H2|].
  eapply Forall2_right; [exact H2|]. apply recounted_copy_counted.
Qed.

(** The truncation seen from the copy before the first recount. *)
Lemma enforced_after_recount headline_max body_max copy copy1 copy2 :
  recounted_copy copy copy1 ->
  enforced_copy headline_max body_max copy1 copy2 ->
  enforced_copy headline_max body_max copy copy2.
Proof.
  intros (d & d1 & -> & -> & Hkeep & Hrf & _)
         (d1' & d2 & [= <-] & -> & Hh & Hb & Hyes & Hno & Hc).
  assert (Eh : text_field d1 "headline" = text_field d "headline")
    by (unfold text_field; rewrite Hkeep by lit_neq; reflexivity).
  assert (Eb : text_field d1 "body" = text_field d "body")
    by (unfold text_field; rewrite Hkeep by lit_neq; reflexivity).
  assert (Ef : flags_field d1 = flags_field d).
  { unfold flags_field. rewrite Hrf.
    destruct (dict_get d (lit "risk_flags")) as [[| | | | |l|]|];
      reflexivity. }
  rewrite Eh, Eb, Ef in *. exists d, d2. repeat split; assumption.
Qed.

Lemma Forall2_compose {A} (P Q R : A -> A -> Prop) (l l1 l2 : list A) :
  (forall x y z, P x y -> Q y z -> R x z) ->
  Forall2 P l l1 -> Forall2 Q l1 l2 -> Forall2 R l l2.
Proof.
  intros H H1. revert l2. induction H1 as [|x y l l1 Hxy _ IH];
    intros l2 H2; inversion H2; subst; constructor; eauto.
Qed.

(** X20: what [main] does to a sample output, the recount followed by
    the enforcer with the mapping built from the parsed formats. On a
    sample of the shape of a response whose echoed format id is a string
    it never fails, whatever the formats are; the sample written has as
    many copies as the one read, each with counters equal to the lengths
    of its texts and with risk flags. When the last format of the echoed
    id has non-negative maxima, each copy written is the copy read,
    enforced; when no format has the echoed id, it is the copy read,
    recounted. *)
Theorem normalise_sample_written
  (sample_output : dict) (formats : list Format) (id : str) :
  payload_shaped sample_output = true ->
  echoed_format_id sample_output = Ok (JStr id) ->
  exists written,
    normalise_sample sample_output (format_limits_of formats) = Ok written
    /\ Forall counted_copy (payload_copies written)
    /\ length (payload_copies written)
       = length (payload_copies sample_output)
    /\ (forall fmt,
          last_with_id id formats = Some fmt ->
          0 <= headline_max (limits fmt) -> 0 <= body_max (limits fmt) ->
          Forall2 (enforced_copy (headline_max (limits fmt))
                     (body_max (limits fmt)))
            (payload_copies sample_output) (payload_copies written))
    /\ (last_with_id id formats = None ->
        Forall2 recounted_copy (payload_copies sample_output)
          (payload_copies written)).
Proof.
  intros Hshape Hid. unfold normalise_sample.
  destruct (last_with_id id formats) as [fmt|] eqn:Hlast.
  - destruct (three_loops_total sample_output (headline_max (limits fmt))
                (body_max (limits fmt)) Hshape)
      as (p1 & p2 & p3 & H1 & H2 & H3).
    rewrite H1. cbn [Py.bind]. rewrite ensure_format_limits_unfold.
    unfold enforce_char_counts in H1 at 1.
    rewrite (echoed_format_id_kept _ _ _ H1), Hid. cbn [Py.bind limits_get].
    rewrite format_limits_of_lookup, Hlast. cbn [fmap option_fmap option_map].
    destruct (limits_entry_items fmt) as (Hne & Hh & Hb).
    rewrite bool_decide_eq_false_2 by exact Hne.
    rewrite Hh, Hb. cbn [Py.bind]. rewrite H2. cbn [Py.bind].
    exists p3. split; [exact H3|].
    fold (enforce_char_counts sample_output) in H1.
    destruct (enforce_char_counts_counted _ _ H1) as (R1 & _).
    destruct (enforce_char_counts_counted _ _ H3) as (R3 & C3).
    assert (R2 := for_each_copy_Forall2 _ _ _ H2).
    split; [exact C3|]. split.
    + rewrite <- (Forall2_length _ _ _ R3), <- (Forall2_length _ _ _ R2).
      symmetry. exact (Forall2_length _ _ _ R1).
    + split; [|discriminate]. intros fmt' [= <-] Hh0 Hb0.
      assert (R13 := for_each_copy_Forall2 _ _ _ (two_loops _ _ _ _ _ H2 H3)).
      eapply Forall2_compose; [|exact R1|exact R13].
      intros x y z Hxy Hyz. eapply enforced_after_recount; [exact Hxy|].
      apply (enforce_one_spec _ _ Hh0 Hb0), Hyz.
  - destruct (three_loops_total sample_output 0 0 Hshape)
      as (p1 & _ & _ & H1 & _ & _).
    rewrite H1. cbn [Py.bind]. rewrite ensure_format_limits_unfold.
    unfold enforce_char_counts in H1 at 1.
    rewrite (echoed_format_id_kept _ _ _ H1), Hid. cbn [Py.bind limits_get].
    rewrite format_limits_of_lookup, Hlast. cbn [fmap option_fmap option_map].
    fold (enforce_char_counts sample_output) in H1.
    destruct (enforce_char_counts_counted _ _ H1) as (R1 & C1).
    exists p1. split; [reflexivity|]. split; [exact C1|]. split.
    + symmetry. exact (Forall2_length _ _ _ R1).
    + split; [discriminate|]. intros _. exact R1.
Qed.

Lemma normalise_sample_written_witness :
  exists written,
    normalise_sample (payload_with long_copy)
      (format_limits_of [banner_format 30 0; banner_format 10 90])
    = Ok written
    /\ Forall counted_copy (payload_copies written).
Proof.
  destruct (normalise_sample_written (payload_with long_copy)
              [banner_format 30 0; banner_format 10 90] (lit "banner"))
    as (written & Hrun & Hcounted & _).
  - vm_compute. reflexivity.
  - vm_compute. reflexivity.
  - exists written. split; assumption.
Defined.
End SampleOutputs.

(* ===================================================================== *)
(** * Properties of the section parser *)
(* ===================================================================== *)

Section Sections.
Import ContentSource ContentSourceRest.

Lemma span_tag_fst (s : str) : forallb is_tag_char (fst (span_tag s)) = true.
Proof.
  induction s as [|c s IH]; simpl; [reflexivity|].
  destruct (is_tag_char c) eqn:E; [|reflexivity].
  destruct (span_tag s) as [t rest]. simpl in *. rewrite E. exact IH.
Qed.

Lemma section_match_name (s name : str) :
  section_match s = Some name ->
  name <> [] /\ forallb is_tag_char name = true.
Proof.
  unfold section_match. destruct s as [|c r]; [discriminate|].
  destruct (c =? 91)%N; [|discriminate].
  assert (H := span_tag_fst r).
  destruct (span_tag r) as [[|x name'] [|c' ws]]; try discriminate.
  destruct ((c' =? 93)%N && forallb is_space ws); [|discriminate].
  intros [= <-]. split; [discriminate|exact H].
Qed.

Lemma parse_sections_step_names (P : str -> Prop) (st : SecState)
  (line : str) :
  (forall name lines, sections st !! name = Some lines -> P name) ->
  (forall name, section_match (strip line) = Some name -> P name) ->
  forall name lines,
    sections (parse_sections_step st line) !! name = Some lines -> P name.
Proof.
  intros Hst Hline name lines. unfold parse_sections_step.
  destruct (section_match (strip line)) as [tag|].
  - simpl. intros H. apply lookup_insert_Some in H as [(<- & _)|(_ & H)].
    + apply Hline. reflexivity.
    + eapply Hst, H.
  - destruct (current st) as [cur|]; [|apply Hst]. simpl. intros H.
    apply lookup_alter_Some in H as [(<- & old & H & _)|(_ & H)];
      eapply Hst, H.
Qed.

Lemma parse_sections_fold_names (P : str -> Prop) (all_lines : list str) :
  forall st,
    (forall name lines, sections st !! name = Some lines -> P name) ->
    (forall line name,
        In line all_lines -> section_match (strip line) = Some name ->
        P name) ->
    forall name lines,
      sections (foldl parse_sections_step st all_lines) !! name = Some lines ->
      P name.
Proof.
  induction all_lines as [|line all_lines IH]; intros st Hst Hlines;
    simpl; [exact Hst|].
  apply IH.
  - apply parse_sections_step_names; [exact Hst|].
    intros name. apply Hlines. left. reflexivity.
  - intros l name Hl. apply Hlines. right. exact Hl.
Qed.

(** X21: every section [parse_sections] returns is named by a tag line
    of the text, a line that, stripped, is an opening bracket, a
    non-empty name of capitals, digits and underscores, and a closing
    bracket; and its body has no white space at its ends. A text without
    a tag line has no section: what precedes the first tag line is
    dropped. *)
Theorem parse_sections_names (raw_text : str) :
  (forall name body,
      parse_sections raw_text !! name = Some body ->
      name <> [] /\ forallb is_tag_char name = true
      /\ strip body = body
      /\ exists line,
          In line (splitlines raw_text)
          /\ section_match (strip line) = Some name)
  /\ (Forall (fun line => section_match (strip line) = None)
        (splitlines raw_text) ->
      parse_sections raw_text = ∅).
Proof.
  split.
  - intros name body. unfold parse_sections. rewrite lookup_fmap.
    destruct (sections (parse_sections_lines (splitlines raw_text)) !! name)
      as [lines|] eqn:E; [|discriminate].
    simpl. intros [= <-].
    assert (H : (name <> [] /\ forallb is_tag_char name = true)
                /\ exists line,
                    In line (splitlines raw_text)
                    /\ section_match (strip line) = Some name).
    { revert name lines E. unfold parse_sections_lines.
      apply parse_sections_fold_names.
      - intros name lines H. unfold parse_sections_init in H.
        cbn [sections] in H. rewrite lookup_empty in H. discriminate.
      - intros line name Hin Hmatch.
        split; [exact (section_match_name _ _ Hmatch)|eauto]. }
    destruct H as ((Hne & Htag) & Hline).
    repeat split; try assumption. apply strip_idem.
  - intros Hnone. unfold parse_sections, parse_sections_lines.
    assert (H : foldl parse_sections_step parse_sections_init
                  (splitlines raw_text) = parse_sections_init).
    { induction Hnone as [|line lines Hline _ IH]; [reflexivity|].
      simpl. unfold parse_sections_step at 2. rewrite Hline. exact IH. }
    rewrite H. apply fmap_empty.
Qed.

Lemma parse_sections_names_witness :
  parse_sections (lit "preamble
[PROJECT_META]
name=SegCraft

[EMPTY]
") !! lit "PROJECT_META" = Some (lit "name=SegCraft")
  /\ forallb is_tag_char (lit "PROJECT_META") = true.
Proof.
  split; [vm_compute; reflexivity|].
  refine (proj1 (proj2 (proj1 (parse_sections_names (lit "preamble
[PROJECT_META]
name=SegCraft

[EMPTY]
")) (lit "PROJECT_META") (lit "name=SegCraft") _))).
  vm_compute. reflexivity.
Defined.

(** The lines that follow a tag line are gathered under its name. *)
Lemma parse_sections_fold_body (body_lines : list str) :
  forall st name gathered,
    current st = Some name ->
    sections st !! name = Some gathered ->
    Forall (fun line => section_match (strip line) = None) body_lines ->
    let st' := foldl parse_sections_step st body_lines in
    current st' = Some name
    /\ sections st' !! name = Some (gathered ++ body_lines).
Proof.
  induction body_lines as [|line body_lines IH];
    intros st name gathered Hcur Hsec Hall; cbv zeta.
  - simpl. rewrite app_nil_r. auto.
  - inversion Hall as [|? ? Hline Hrest]; subst. cbn [foldl].
    destruct (IH (parse_sections_step st line) name (gathered ++ [line]))
      as (Hc & Hs); try exact Hrest.
    + unfold parse_sections_step. rewrite Hline, Hcur. reflexivity.
    + unfold parse_sections_step. rewrite Hline, Hcur. simpl.
      rewrite lookup_alter_eq, Hsec. reflexivity.
    + rewrite <- app_assoc in Hs. auto.
Qed.

(** Lines gathered under other names and tag lines of other names leave
    a section as it is. *)
Lemma parse_sections_fold_other (rest : list str) (name : str) :
  forall st,
    current st <> Some name ->
    Forall (fun line => section_match (strip line) <> Some name) rest ->
    sections (foldl parse_sections_step st rest) !! name
    = sections st !! name.
Proof.
  induction rest as [|line rest IH]; intros st Hcur Hall; [reflexivity|].
  inversion Hall as [|? ? Hline Hrest]; subst. cbn [foldl].
  rewrite IH; [| |exact Hrest].
  - unfold parse_sections_step.
    destruct (section_match (strip line)) as [tag|].
    + simpl. apply lookup_insert_ne. congruence.
    + destruct (current st) as [cur|]; [|reflexivity]. simpl.
      apply lookup_alter_ne. congruence.
  - unfold parse_sections_step.
    destruct (section_match (strip line)) as [tag|]; simpl.
    + congruence.
    + destruct (current st) as [cur|] eqn:Ec; [exact Hcur|].
      rewrite Ec. discriminate.
Qed.

(** X22: the body of a section is what stands between its tag line and
    the next tag line, joined by line feeds and stripped; a later section
    of the same name replaces an earlier one. Precisely: when the lines of
    the text are a tag line of a name, lines that are no tag lines, and
    then either nothing or a tag line followed by lines among which no
    tag line has that name, the section of that name is the stripped
    join of the lines after its tag line, whatever precedes. *)
Theorem parse_sections_body
  (raw_text : str) (before body_lines rest : list str)
  (tag_line name : str) :
  splitlines raw_text = before ++ tag_line :: body_lines ++ rest ->
  section_match (strip tag_line) = Some name ->
  Forall (fun line => section_match (strip line) = None) body_lines ->
  Forall (fun line => section_match (strip line) <> Some name) rest ->
  (forall line, head rest = Some line ->
                section_match (strip line) <> None) ->
  parse_sections raw_text !! name = Some (strip (join nl body_lines)).
Proof.
  intros Hlines Htag Hbody Hrest Hhead.
  unfold parse_sections, parse_sections_lines.
  rewrite lookup_fmap, Hlines, foldl_app. cbn [foldl].
  rewrite foldl_app.
  set (st0 := foldl parse_sections_step parse_sections_init before).
  assert (Hstep : parse_sections_step st0 tag_line
                  = {| sections := <[name := []]> (sections st0);
                       current := Some name |})
    by (unfold parse_sections_step; rewrite Htag; reflexivity).
  rewrite Hstep.
  destruct (parse_sections_fold_body body_lines
              {| sections := <[name := []]> (sections st0);
                 current := Some name |} name [] eq_refl
              (lookup_insert_eq _ _ _) Hbody) as (Hcur & Hsec).
  set (st1 := foldl parse_sections_step _ body_lines) in *.
  destruct rest as [|next rest].
  - simpl. rewrite Hsec. reflexivity.
  - inversion Hrest as [|? ? Hnext Hrest']; subst. cbn [foldl].
    rewrite parse_sections_fold_other; [| |exact Hrest'].
    + unfold parse_sections_step.
      destruct (section_match (strip next)) as [tag|] eqn:E.
      * simpl. rewrite lookup_insert_ne by congruence.
        rewrite Hsec. reflexivity.
      * exfalso. exact (Hhead next eq_refl E).
    + unfold parse_sections_step.
      destruct (section_match (strip next)) as [tag|] eqn:E.
      * simpl. congruence.
      * exfalso. exact (Hhead next eq_refl E).
Qed.

Lemma parse_sections_body_witness :
  parse_sections (lit "[SLIDES]
old
[SLIDES]
  SLIDE 1
title=Intro

[DEMO_SCRIPT]
step_1=Open") !! lit "SLIDES" = Some (lit "SLIDE 1
title=Intro").
Proof.
  rewrite (parse_sections_body _ [lit "[SLIDES]"; lit "old"]
             [lit "  SLIDE 1"; lit "title=Intro"; []]
             [lit "[DEMO_SCRIPT]"; lit "step_1=Open"]
             (lit "[SLIDES]") (lit "SLIDES")).
  - vm_compute. reflexivity.
  - vm_compute. reflexivity.
  - vm_compute. reflexivity.
  - repeat constructor; vm_compute; reflexivity.
  - repeat constructor; intros H; vm_compute in H; discriminate H.
  - intros line [= <-] H. vm_compute in H. discriminate H.
Defined.
End Sections.

(* ===================================================================== *)
(** * Properties of the check of the required sections *)
(* ===================================================================== *)

Section RequiredSections.
Import ContentSource ContentSourceRest.

Lemma contains_skip (sub a s : str) :
  contains sub s = true -> contains sub (a ++ s) = true.
Proof.
  intros H. induction a as [|c a IH]; [exact H|].
  simpl. rewrite IH. apply orb_true_r.
Qed.

Lemma contains_join (sep x : str) (parts : list str) :
  In x parts -> contains x (join sep parts) = true.
Proof.
  induction parts as [|p parts IH]; [intros []|].
  intros [-> | Hin].
  - destruct parts as [|q parts]; simpl join.
    + apply contains_app_end with (a := []).
    + apply contains_app with (a := []).
  - destruct parts as [|q parts]; [destruct Hin|].
    change (join sep (p :: q :: parts))
      with (p ++ sep ++ join sep (q :: parts)).
    apply contains_skip, contains_skip, IH, Hin.
Qed.

Lemma is_missing_false (sections : gmap str str) (name : str) :
  is_missing sections name = false
  <-> exists body, sections !! name = Some body /\ strip body <> [].
Proof.
  unfold is_missing. destruct (sections !! name) as [body|]; split.
  - intros H. apply bool_decide_eq_false in H. eauto.
  - intros (b & [= <-] & H). apply bool_decide_eq_false. exact H.
  - discriminate.
  - intros (b & H & _). discriminate.
Qed.

Lemma startswith_app_l (p s t : str) :
  startswith p s = true -> startswith p (s ++ t) = true.
Proof.
  revert s. induction p as [|a p IH]; intros [|b s]; simpl;
    try reflexivity; try discriminate.
  intros H. apply andb_true_iff in H as [-> H]. apply IH, H.
Qed.

Lemma contains_app_l (sub s t : str) :
  contains sub s = true -> contains sub (s ++ t) = true.
Proof.
  induction s as [|c s IH].
  - simpl. rewrite orb_false_r. destruct sub; [|discriminate].
    intros _. destruct t; reflexivity.
  - intros H. simpl in H. apply orb_true_iff in H as [H|H].
    + change (startswith sub ((c :: s) ++ t) || contains sub (s ++ t) = true).
      rewrite (startswith_app_l _ _ _ H). reflexivity.
    + change (startswith sub ((c :: s) ++ t) || contains sub (s ++ t) = true).
      rewrite (IH H). apply orb_true_r.
Qed.

Lemma require_sections_message (sections : gmap str str)
  (required : list str) (msg : str) :
  require_sections sections required = ContentSourceError msg ->
  msg = lit "В input_texts/text.txt не хватает обязательных секций: "
          ++ join (lit ", ")
               (map (fun name => lit "[" ++ name ++ lit "]")
                  (List.filter (is_missing sections) required))
          ++ lit ". Добавьте их и повторите генерацию.".
Proof.
  unfold require_sections.
  destruct (List.filter (is_missing sections) required) eqn:E;
    [discriminate|].
  intros H. injection H as H. rewrite <- H. reflexivity.
Qed.

(** X23: [require_sections] returns exactly when every required name has
    a section whose body is not blank. Otherwise it raises
    [ContentSourceError], never another exception, and the message names
    in brackets every required section that is absent or blank. *)
Theorem require_sections_complete
  (sections : gmap str str) (required : list str) :
  (require_sections sections required = Returned tt
   <-> Forall (fun name => exists body,
                   sections !! name = Some body /\ strip body <> [])
         required)
  /\ (forall e, require_sections sections required <> Raised e)
  /\ (forall msg name,
        require_sections sections required = ContentSourceError msg ->
        In name required -> is_missing sections name = true ->
        contains (lit "[" ++ name ++ lit "]") msg = true).
Proof.
  split; [|split].
  - unfold require_sections.
    destruct (List.filter (is_missing sections) required) as [|m missing]
      eqn:E.
    + split; [|reflexivity]. intros _.
      apply List.Forall_forall. intros name Hin. apply is_missing_false.
      destruct (is_missing sections name) eqn:Hm; [|reflexivity].
      assert (Hf : In name (List.filter (is_missing sections) required))
        by (apply List.filter_In; auto).
      rewrite E in Hf. destruct Hf.
    + split; [discriminate|]. intros Hall. exfalso.
      assert (Hf : In m (List.filter (is_missing sections) required))
        by (rewrite E; left; reflexivity).
      apply List.filter_In in Hf as [Hin Hm].
      apply (proj1 (List.Forall_forall _ _) Hall) in Hin.
      apply is_missing_false in Hin. congruence.
  - intros e. unfold require_sections.
    destruct (List.filter (is_missing sections) required); discriminate.
  - intros msg name Hmsg Hin Hm.
    rewrite (require_sections_message _ _ _ Hmsg).
    apply contains_skip, contains_app_l, contains_join.
    apply (in_map (fun n => lit "[" ++ n ++ lit "]")).
    apply List.filter_In. auto.
Qed.

Lemma require_sections_complete_witness :
  exists msg,
    require_sections
      (parse_sections (lit "[PROJECT_META]
name=SegCraft
[SLIDES]

[DEMO_SCRIPT]
step_1=Open"))
      [lit "PROJECT_META"; lit "SLIDES"; lit "AD_FORMATS"]
    = ContentSourceError msg
    /\ contains (lit "[" ++ lit "SLIDES" ++ lit "]") msg = true.
Proof.
  eexists. split; [vm_compute; reflexivity|].
  refine (proj2 (proj2 (require_sections_complete
                          (parse_sections (lit "[PROJECT_META]
name=SegCraft
[SLIDES]

[DEMO_SCRIPT]
step_1=Open"))
                          [lit "PROJECT_META"; lit "SLIDES";
                           lit "AD_FORMATS"])) _ (lit "SLIDES") _ _ _).
  - vm_compute. reflexivity.
  - vm_compute. right. left. reflexivity.
  - vm_compute. reflexivity.
Defined.
End RequiredSections.

(* ===================================================================== *)
(** * Properties of the slide parser *)
(* ===================================================================== *)

Section Slides.
Import ContentSource ContentSourceRest.

Lemma insert_by_perm {A K} (ltb : K -> K -> bool) (key : A -> K) x l :
  Permutation (insert_by ltb key x l) (x :: l).
Proof.
  induction l as [|y l IH]; simpl; [reflexivity|].
  destruct (ltb (key y) (key x)); [|reflexivity].
  rewrite IH. apply perm_swap.
Qed.

Lemma sort_by_perm {A K} (ltb : K -> K -> bool) (key : A -> K) l :
  Permutation (sort_by ltb key l) l.
Proof.
  induction l as [|x l IH]; simpl; [reflexivity|].
  rewrite insert_by_perm, IH. reflexivity.
Qed.

Lemma ascending_insert {A} (key : A -> Z) x l :
  ascending (map key l) -> ascending (map key (insert_by Z.ltb key x l)).
Proof.
  induction l as [|y l IH]; simpl; [intros _; split; [constructor|exact I]|].
  intros [Hy Hl]. destruct (key y <? key x) eqn:E.
  - apply Z.ltb_lt in E. simpl. split; [|apply IH, Hl].
    eapply Permutation_Forall.
    + symmetry. apply Permutation_map, insert_by_perm.
    + simpl. constructor; [lia|exact Hy].
  - apply Z.ltb_ge in E. simpl. split; [|split; assumption].
    constructor; [exact E|].
    eapply Forall_impl; [exact Hy|]. intros k Hk. simpl in Hk. lia.
Qed.

Lemma ascending_sort_by {A} (key : A -> Z) l :
  ascending (map key (sort_by Z.ltb key l)).
Proof.
  induction l as [|x l IH]; simpl; [exact I|].
  apply ascending_insert, IH.
Qed.

Lemma forallb_perm {A} (p : A -> bool) l l' :
  Permutation l l' -> forallb p l = forallb p l'.
Proof.
  induction 1; simpl; try congruence.
  destruct (p x), (p y); reflexivity.
Qed.

(** What the sort returns. *)
Lemma sort_slides_returned (l result : list dict) :
  sort_slides l = Returned result ->
  Permutation l result
  /\ (forallb has_int_number result = true ->
      ascending (map int_key result)).
Proof.
  unfold sort_slides.
  destruct (forallb has_int_number l) eqn:Hint.
  - intros [= <-]. split; [symmetry; apply sort_by_perm|].
    intros _. apply ascending_sort_by.
  - destruct (forallb has_str_number l) eqn:Hstr.
    + intros [= <-]. split; [symmetry; apply sort_by_perm|].
      rewrite (forallb_perm _ _ _ (sort_by_perm str_ltb str_key l)).
      congruence.
    + destruct l as [|a [|b l]]; try discriminate;
        intros [= <-]; (split; [reflexivity|]); intros _; simpl; auto.
Qed.

Lemma sort_slides_raised (l : list dict) e :
  sort_slides l = Raised e -> e = TypeError.
Proof.
  unfold sort_slides.
  destruct (forallb has_int_number l); [discriminate|].
  destruct (forallb has_str_number l); [discriminate|].
  destruct l as [|a [|b l]]; try discriminate. intros [= <-]. reflexivity.
Qed.

Lemma sort_slides_no_error (l : list dict) msg :
  sort_slides l <> ContentSourceError msg.
Proof.
  unfold sort_slides.
  destruct (forallb has_int_number l); [discriminate|].
  destruct (forallb has_str_number l); [discriminate|].
  destruct l as [|a [|b l]]; discriminate.
Qed.

(** An invariant of the state that the lines of a given kind keep is
    kept by the loop. *)
Lemma parse_slides_loop_inv (I : SlideState -> Prop) (L : str -> Prop)
  (lines : list str) :
  (forall st line st',
      I st -> L line -> parse_slides_step st line = Returned st' -> I st') ->
  Forall L lines ->
  forall st st',
    I st -> parse_slides_loop st lines = Returned st' -> I st'.
Proof.
  intros Hstep Hall. induction Hall as [|line lines Hline _ IH];
    intros st st' Hst; simpl.
  - intros [= <-]. exact Hst.
  - destruct (parse_slides_step st line) as [st1|msg|e] eqn:E;
      try discriminate.
    apply IH. exact (Hstep _ _ _ Hst Hline E).
Qed.

Lemma flush_all (P : dict -> bool) (st : SlideState) :
  all_slides P st -> forallb P (flush st) = true.
Proof.
  intros [Hs Hc]. unfold flush.
  destruct (current_slide st) as [[|item items]|]; try exact Hs.
  rewrite forallb_app, Hs. simpl. rewrite (Hc _ eq_refl). reflexivity.
Qed.

Lemma number_of_set_eq (cur : dict) (v : json) :
  number_of (dict_set cur (lit "number") v) = v.
Proof. unfold number_of. rewrite dict_get_set_eq. reflexivity. Qed.

Lemma number_of_set_ne (cur : dict) (k : str) (v : json) :
  k <> lit "number" -> number_of (dict_set cur k v) = number_of cur.
Proof.
  intros H. unfold number_of. rewrite dict_get_set_ne by congruence.
  reflexivity.
Qed.

Lemma number_of_new (n : Z) : number_of [(lit "number", JInt n)] = JInt n.
Proof. apply (number_of_set_eq [] (JInt n)). Qed.

(** The step of the loop keeps a property of the slides that a new
    slide has and that the assignment of a field keeps. *)
Lemma parse_slides_step_all (P : dict -> bool) (st st' : SlideState)
  (line : str) :
  (forall n, P [(lit "number", JInt n)] = true) ->
  (forall cur key value,
      P cur = true ->
      split_once 61%N (strip line) = (key, value) ->
      P (dict_set cur (strip key)
           (if str_eqb (strip key) (lit "bullets")
            then JList (split_bullets (strip value))
            else JStr (strip value))) = true) ->
  all_slides P st -> parse_slides_step st line = Returned st' ->
  all_slides P st'.
Proof.
  intros Hnew Hset Hst. unfold parse_slides_step.
  destruct (bool_decide (strip line = [])
            || startswith (lit "#") (strip line));
    [intros [= <-]; exact Hst|].
  destruct (startswith (lit "SLIDE ") (strip line)).
  - destruct (int_of_str _) as [n|]; [|discriminate].
    intros [= <-]. split; simpl.
    + apply flush_all, Hst.
    + intros cur [= <-]. apply Hnew.
  - destruct (current_slide st) as [cur|] eqn:Ecur;
      [|intros [= <-]; exact Hst].
    destruct (negb (contains_char 61%N (strip line)));
      [intros [= <-]; exact Hst|].
    destruct (split_once 61%N (strip line)) as [key value] eqn:Esplit.
    intros [= <-]. destruct Hst as [Hs Hc]. split; simpl; [exact Hs|].
    intros cur' [= <-]. apply Hset; [|reflexivity].
    apply Hc, Ecur.
Qed.

Lemma parse_slides_step_numbered (st st' : SlideState) (line : str) :
  all_slides numbered st -> parse_slides_step st line = Returned st' ->
  all_slides numbered st'.
Proof.
  apply parse_slides_step_all.
  - intros n. unfold numbered, has_int_number.
    rewrite number_of_new. reflexivity.
  - intros cur key value Hcur _. unfold numbered, has_int_number,
      has_str_number in *.
    destruct (decide (strip key = lit "number")) as [->|Hne].
    + rewrite number_of_set_eq.
      destruct (str_eqb (lit "number") (lit "bullets")) eqn:E;
        [vm_compute in E; discriminate E|reflexivity].
    + rewrite number_of_set_ne by exact Hne. exact Hcur.
Qed.

Lemma parse_slides_step_int (st st' : SlideState) (line : str) :
  all_slides has_int_number st -> ~ sets_number line ->
  parse_slides_step st line = Returned st' ->
  all_slides has_int_number st'.
Proof.
  intros Hst Hline. apply parse_slides_step_all; [| |exact Hst].
  - intros n. unfold has_int_number. rewrite number_of_new. reflexivity.
  - intros cur key value Hcur Hsplit. unfold has_int_number in *.
    rewrite number_of_set_ne; [exact Hcur|].
    intros Hkey. apply Hline. unfold sets_number. rewrite Hsplit.
    exact Hkey.
Qed.

Lemma all_slides_init (P : dict -> bool) : all_slides P parse_slides_init.
Proof. split; [reflexivity|discriminate]. Qed.

Lemma Forall_True {A} (l : list A) : Forall (fun _ => True) l.
Proof. induction l; constructor; auto. Qed.

(** X24: the slides [parse_slides] returns are the slides it has read,
    the last one included, in another order at most; each has a number;
    and when all the numbers are integers, as they are unless a
    [number=...] line replaced one, the slides come in ascending order of
    their numbers. *)
Theorem parse_slides_sorted (section_text : str) (result : list dict) :
  parse_slides section_text = Returned result ->
  (exists st,
      parse_slides_loop parse_slides_init (splitlines section_text)
      = Returned st
      /\ Permutation (flush st) result)
  /\ forallb numbered result = true
  /\ (forallb has_int_number result = true ->
      ascending (map int_key result))
  /\ (Forall (fun line => ~ sets_number line) (splitlines section_text) ->
      forallb has_int_number result = true).
Proof.
  unfold parse_slides.
  destruct (parse_slides_loop parse_slides_init (splitlines section_text))
    as [st|msg|e] eqn:Hloop; try discriminate.
  intros Hsort. apply sort_slides_returned in Hsort as [Hperm Hasc].
  split; [eauto|]. split; [|split; [exact Hasc|]].
  - rewrite <- (forallb_perm _ _ _ Hperm). apply flush_all.
    apply (parse_slides_loop_inv (all_slides numbered) (fun _ => True)
             (splitlines section_text)
             (fun st line st' Hst _ => parse_slides_step_numbered st st' line Hst)
             (Forall_True _) _ _ (all_slides_init _) Hloop).
  - intros Hlines. rewrite <- (forallb_perm _ _ _ Hperm). apply flush_all.
    apply (parse_slides_loop_inv (all_slides has_int_number)
             (fun line => ~ sets_number line) (splitlines section_text)
             (fun st line st' Hst Hl => parse_slides_step_int st st' line Hst Hl)
             Hlines _ _ (all_slides_init _) Hloop).
Qed.

Lemma parse_slides_sorted_witness :
  exists result,
    parse_slides (lit "SLIDE 2
title=Problem
bullets= slow | | costly
# appendix
SLIDE 10
title=Ask
SLIDE 1
title=Intro") = Returned result
    /\ map int_key result = [1; 2; 10]
    /\ ascending (map int_key result).
Proof.
  eexists. split; [vm_compute; reflexivity|].
  split; [vm_compute; reflexivity|].
  refine (proj1 (proj2 (proj2 (parse_slides_sorted (lit "SLIDE 2
title=Problem
bullets= slow | | costly
# appendix
SLIDE 10
title=Ask
SLIDE 1
title=Intro") _ _))) _).
  - vm_compute. reflexivity.
  - vm_compute. reflexivity.
Defined.

Lemma parse_slides_loop_error (lines : list str) :
  forall st msg,
    parse_slides_loop st lines = ContentSourceError msg ->
    exists line,
      In line lines
      /\ startswith (lit "SLIDE ") (strip line) = true
      /\ int_of_str (snd (split_once 32%N (strip line))) = None
      /\ msg = lit "Некорректный номер слайда: " ++ strip line.
Proof.
  induction lines as [|line lines IH]; intros st msg; simpl; [discriminate|].
  destruct (parse_slides_step st line) as [st1|msg1|e] eqn:E;
    try discriminate.
  - intros H. destruct (IH _ _ H) as (l & Hin & Hl). exists l. auto.
  - intros [= <-]. exists line. split; [left; reflexivity|].
    revert E. unfold parse_slides_step.
    destruct (bool_decide (strip line = [])
              || startswith (lit "#") (strip line)); [discriminate|].
    destruct (startswith (lit "SLIDE ") (strip line)).
    + destruct (int_of_str _) as [n|] eqn:En; [discriminate|].
      intros [= <-]. auto.
    + destruct (current_slide st); [|discriminate].
      destruct (negb _); [discriminate|].
      destruct (split_once 61%N (strip line)). discriminate.
Qed.

Lemma parse_slides_loop_no_raise (lines : list str) :
  forall st e, parse_slides_loop st lines <> Raised e.
Proof.
  induction lines as [|line lines IH]; intros st e; simpl; [discriminate|].
  destruct (parse_slides_step st line) as [st1|msg1|e1] eqn:E;
    [apply IH|discriminate|].
  exfalso. revert E. unfold parse_slides_step.
  destruct (bool_decide (strip line = [])
            || startswith (lit "#") (strip line)); [discriminate|].
  destruct (startswith (lit "SLIDE ") (strip line)).
  - destruct (int_of_str _); discriminate.
  - destruct (current_slide st); [|discriminate].
    destruct (negb _); [discriminate|].
    destruct (split_once 61%N (strip line)). discriminate.
Qed.

(** X25: how [parse_slides] fails. A [ContentSourceError] comes from a
    [SLIDE] line of the text whose number [int] rejects (it is no integer
    literal, or it has more digits than the interpreter reads), and its
    message ends with that line, stripped. The only other exception is the
    [TypeError] of the sort, and it needs a [number=...] line: without
    such a line [parse_slides] raises nothing but [ContentSourceError]. *)
Theorem parse_slides_failures (section_text : str) :
  (forall msg,
      parse_slides section_text = ContentSourceError msg ->
      exists line,
        In line (splitlines section_text)
        /\ startswith (lit "SLIDE ") (strip line) = true
        /\ int_of_str (snd (split_once 32%N (strip line))) = None
        /\ msg = lit "Некорректный номер слайда: " ++ strip line)
  /\ (forall e,
        parse_slides section_text = Raised e ->
        e = TypeError
        /\ Exists sets_number (splitlines section_text)).
Proof.
  unfold parse_slides. split.
  - intros msg.
    destruct (parse_slides_loop parse_slides_init (splitlines section_text))
      as [st|msg'|e] eqn:Hloop; try discriminate.
    + intros H. exfalso. exact (sort_slides_no_error _ _ H).
    + intros [= <-]. exact (parse_slides_loop_error _ _ _ Hloop).
  - intros e.
    destruct (parse_slides_loop parse_slides_init (splitlines section_text))
      as [st|msg'|e'] eqn:Hloop; try discriminate.
    + intros H. split; [exact (sort_slides_raised _ _ H)|].
      assert (dec : forall line, {~ sets_number line} + {sets_number line}).
      { intros line. unfold sets_number.
        destruct (decide (strip (fst (split_once 61%N (strip line)))
                          = lit "number")); auto. }
      destruct (Forall_Exists_dec _ _ dec (splitlines section_text))
        as [Hlines|Hex]; [exfalso|exact Hex].
      assert (Hint : forallb has_int_number (flush st) = true).
      { apply flush_all.
        apply (parse_slides_loop_inv (all_slides has_int_number)
                 (fun line => ~ sets_number line) (splitlines section_text)
                 (fun st line st' Hst Hl =>
                    parse_slides_step_int st st' line Hst Hl)
                 Hlines _ _ (all_slides_init _) Hloop). }
      unfold sort_slides in H. rewrite Hint in H. discriminate.
    + intros [= <-]. exfalso. exact (parse_slides_loop_no_raise _ _ _ Hloop).
Qed.

Lemma parse_slides_failures_witness :
  parse_slides (lit "SLIDE 1
title=Intro
SLIDE two") = ContentSourceError (lit "Некорректный номер слайда: SLIDE two")
  /\ exists line,
      In line (splitlines (lit "SLIDE 1
title=Intro
SLIDE two"))
      /\ int_of_str (snd (split_once 32%N (strip line))) = None.
Proof.
  split; [vm_compute; reflexivity|].
  destruct (proj1 (parse_slides_failures (lit "SLIDE 1
title=Intro
SLIDE two")) (lit "Некорректный номер слайда: SLIDE two"))
    as (line & Hin & _ & Hbad & _).
  - vm_compute. reflexivity.
  - exists line. split; assumption.
Defined.
End Slides.

(* ===================================================================== *)
(** * The sample inputs written by the synchronisation tool *)
(* ===================================================================== *)

Section SampleInputs.
Import ContentSource ContentSourceRest.

Lemma splitlines_line (line rest : str) :
  existsb is_linebreak line = false ->
  splitlines (line ++ nl ++ rest) = line :: splitlines rest.
Proof.
  induction line as [|c line IH]; intros H.
  - simpl. destruct rest; reflexivity.
  - simpl in H. apply orb_false_iff in H as [Hc Hline].
    change ((c :: line) ++ nl ++ rest) with (c :: (line ++ nl ++ rest)).
    cbn [splitlines]. rewrite Hc, (IH Hline). reflexivity.
Qed.

Lemma splitlines_join (lines : list str) :
  lines <> [] ->
  Forall (fun line => existsb is_linebreak line = false) lines ->
  splitlines (join nl lines ++ nl) = lines.
Proof.
  induction lines as [|p lines IH]; [congruence|]. intros _ Hall.
  inversion Hall as [|? ? Hp Hrest]; subst.
  destruct lines as [|q lines].
  - simpl join. rewrite <- (app_nil_r nl) at 1.
    rewrite (splitlines_line p [] Hp). reflexivity.
  - change (join nl (p :: q :: lines)) with (p ++ nl ++ join nl (q :: lines)).
    rewrite <- !app_assoc. rewrite (splitlines_line _ _ Hp).
    rewrite IH; [reflexivity|discriminate|exact Hrest].
Qed.

Lemma rstrip_after (a b : str) (c : char) :
  is_space c = false -> rstrip (a ++ c :: b) = a ++ c :: rstrip b.
Proof.
  intros Hc. induction a as [|x a IH].
  - simpl. destruct (rstrip b); [rewrite Hc|]; reflexivity.
  - change ((x :: a) ++ c :: b) with (x :: (a ++ c :: b)).
    rewrite rstrip_cons, IH. destruct a; reflexivity.
Qed.

Lemma split_once_at (x : char) (a b : str) :
  contains_char x a = false -> split_once x (a ++ x :: b) = (a, b).
Proof.
  unfold contains_char. induction a as [|c a IH]; simpl; intros H.
  - rewrite N.eqb_refl. reflexivity.
  - apply orb_false_iff in H as [Hc Ha]. rewrite Hc, (IH Ha). reflexivity.
Qed.

Lemma strip_rstrip (s : str) : strip (rstrip s) = strip s.
Proof. unfold strip. rewrite rstrip_idem. reflexivity. Qed.

Lemma startswith_single (x c : char) (s : str) :
  startswith [x] (c :: s) = (x =? c)%N.
Proof. unfold startswith. destruct (x =? c)%N; reflexivity. Qed.

(** A line [key=value] with a plain key sets the key to the stripped
    value. *)
Lemma parse_key_values_step_written (c : char) (k v : str)
  (result : gmap str str) :
  is_space c = false -> (c =? 35)%N = false ->
  contains_char 61%N (c :: k) = false -> strip (c :: k) = c :: k ->
  parse_key_values_step result ((c :: k) ++ 61%N :: v)
  = <[c :: k := strip v]> result.
Proof.
  intros Hspace Hhash Heq Hkey. unfold parse_key_values_step.
  assert (Hstrip : strip ((c :: k) ++ 61%N :: v)
                   = (c :: k) ++ 61%N :: rstrip v).
  { unfold strip. rewrite rstrip_after by reflexivity.
    simpl. rewrite Hspace. reflexivity. }
  rewrite Hstrip.
  rewrite bool_decide_eq_false_2 by discriminate.
  replace (startswith (lit "#") ((c :: k) ++ 61%N :: rstrip v)) with false.
  2:{ replace (lit "#") with [35%N] by (vm_compute; reflexivity).
      change ((c :: k) ++ 61%N :: rstrip v)
        with (c :: (k ++ 61%N :: rstrip v)).
      rewrite startswith_single, N.eqb_sym, Hhash. reflexivity. }
  simpl orb. cbv iota.
  replace (contains_char 61%N ((c :: k) ++ 61%N :: rstrip v)) with true.
  2:{ unfold contains_char. rewrite existsb_app. simpl.
      rewrite orb_true_r. reflexivity. }
  simpl negb. cbv iota.
  destruct (split_once 61%N _) as [key value] eqn:E.
  assert (Hp : (key, value) = (c :: k, rstrip v))
    by exact (eq_trans (eq_sym E) (split_once_at 61%N (c :: k) (rstrip v) Heq)).
  injection Hp as -> ->.
  rewrite Hkey, strip_rstrip. reflexivity.
Qed.

Lemma plain_key_step (k v : str) (result : gmap str str) :
  plain_key k = true ->
  parse_key_values_step result (k ++ lit "=" ++ v)
  = <[k := strip v]> result.
Proof.
  replace (lit "=") with [61%N] by (vm_compute; reflexivity).
  destruct k as [|c k]; [discriminate|]. unfold plain_key. intros H.
  apply andb_true_iff in H as [H Hkey].
  apply andb_true_iff in H as [H Heq].
  apply andb_true_iff in H as [Hspace Hhash].
  apply negb_true_iff in Hspace, Hhash, Heq.
  apply bool_decide_eq_true in Hkey.
  exact (parse_key_values_step_written c k v result Hspace Hhash Heq Hkey).
Qed.

Lemma written_lines_fold (kv : gmap str str) (keys : list string) :
  forall result,
    forallb (fun key => plain_key (lit key)) keys = true ->
    foldl parse_key_values_step result (map (written_line kv) keys)
    = foldl (fun acc key => <[lit key := strip (kv_get kv key [])]> acc)
        result keys.
Proof.
  induction keys as [|key keys IH]; intros result Hkeys; [reflexivity|].
  simpl in Hkeys. apply andb_true_iff in Hkeys as [Hkey Hkeys].
  cbn [map foldl].
  change (written_line kv key) with (lit key ++ lit "=" ++ kv_get kv key []).
  rewrite (plain_key_step _ _ _ Hkey). apply IH, Hkeys.
Qed.

Lemma foldl_insert_other {A} (g : A -> str) (f : A -> str) (keys : list A)
  (k : str) :
  forall acc : gmap str str,
    ~ In k (map g keys) ->
    foldl (fun acc key => <[g key := f key]> acc) acc keys !! k = acc !! k.
Proof.
  induction keys as [|x keys IH]; intros acc Hk; [reflexivity|].
  cbn [foldl]. rewrite IH by (intros H; apply Hk; right; exact H).
  apply lookup_insert_ne. intros H. apply Hk. left. exact H.
Qed.

Lemma foldl_insert_lookup {A} (g : A -> str) (f : A -> str) (keys : list A) :
  forall (acc : gmap str str) key,
    List.NoDup (map g keys) -> In key keys ->
    foldl (fun acc key => <[g key := f key]> acc) acc keys !! g key
    = Some (f key).
Proof.
  induction keys as [|x keys IH]; intros acc key Hnd Hin; [destruct Hin|].
  inversion Hnd as [|? ? Hx Hrest]; subst. cbn [foldl].
  destruct Hin as [<-|Hin].
  - rewrite foldl_insert_other by exact Hx. apply lookup_insert_eq.
  - apply IH; assumption.
Qed.

Lemma foldl_insert_dom {A} (g : A -> str) (f : A -> str) (keys : list A)
  (k : str) :
  forall acc : gmap str str,
    foldl (fun acc key => <[g key := f key]> acc) acc keys !! k <> None ->
    acc !! k <> None \/ In k (map g keys).
Proof.
  induction keys as [|x keys IH]; intros acc H; [left; exact H|].
  cbn [foldl] in H. apply IH in H as [H|H]; [|right; right; exact H].
  destruct (decide (g x = k)) as [<-|Hne]; [right; left; reflexivity|].
  rewrite lookup_insert_ne in H by exact Hne. left. exact H.
Qed.

(** X26: a sample input written by [build_sample_input_text] is read
    back by [parse_key_values]. When none of the nine values holds a line
    break, the block read back has exactly the nine keys, each with the
    stripped value that was written, the empty text for a key that was
    absent. *)
Theorem sample_input_round_trip (kv : gmap str str) :
  (forall key, In key sample_input_keys ->
               existsb is_linebreak (kv_get kv key []) = false) ->
  (forall key, In key sample_input_keys ->
               parse_key_values (build_sample_input_text kv) !! lit key
               = Some (strip (kv_get kv key [])))
  /\ (forall k, parse_key_values (build_sample_input_text kv) !! k <> None ->
                exists key, In key sample_input_keys /\ k = lit key).
Proof.
  intros Hvalues.
  assert (Hread : parse_key_values (build_sample_input_text kv)
                  = foldl (fun acc key =>
                             <[lit key := strip (kv_get kv key [])]> acc)
                      ∅ sample_input_keys).
  { unfold parse_key_values, build_sample_input_text.
    change (map _ sample_input_keys)
      with (map (written_line kv) sample_input_keys).
    rewrite splitlines_join.
    - apply written_lines_fold. vm_compute. reflexivity.
    - discriminate.
    - apply List.Forall_forall. intros line Hin.
      apply in_map_iff in Hin as (key & <- & Hkey).
      unfold written_line. rewrite !existsb_app, (Hvalues key Hkey).
      rewrite orb_false_r.
      clear -Hkey. unfold sample_input_keys in Hkey. simpl in Hkey.
      repeat (destruct Hkey as [<-|Hkey]; [vm_compute; reflexivity|]).
      destruct Hkey. }
  rewrite Hread. split.
  - intros key Hin.
    apply (foldl_insert_lookup lit (fun key => strip (kv_get kv key []))).
    + vm_compute. repeat constructor; simpl; intuition discriminate.
    + exact Hin.
  - intros k Hk. apply foldl_insert_dom in Hk as [Hk|Hk].
    + rewrite lookup_empty in Hk. congruence.
    + apply in_map_iff in Hk as (key & <- & Hin). eauto.
Qed.

Lemma sample_input_round_trip_witness :
  parse_key_values
    (build_sample_input_text
       {[ lit "title" := lit "  Spring sale ";
          lit "tone" := lit "bold" ]})
  !! lit "title" = Some (lit "Spring sale").
Proof.
  assert (Hvalues : forall key,
             In key sample_input_keys ->
             existsb is_linebreak
               (kv_get {[ lit "title" := lit "  Spring sale ";
                          lit "tone" := lit "bold" ]} key []) = false).
  { intros key Hin. unfold sample_input_keys in Hin. simpl in Hin.
    repeat (destruct Hin as [<-|Hin]; [vm_compute; reflexivity|]).
    destruct Hin. }
  rewrite (proj1 (sample_input_round_trip _ Hvalues) "title"%string).
  - vm_compute. reflexivity.
  - vm_compute. left. reflexivity.
Defined.
End SampleInputs.

(* ===================================================================== *)
(** * Fenced answers *)
(* ===================================================================== *)

Section FencedAnswers.
Import Schemas LlmClient.

Lemma rstrip_char_after (x c : char) (a b : str) :
  (c =? x)%N = false ->
  rstrip_char x (a ++ c :: b) = a ++ c :: rstrip_char x b.
Proof.
  intros Hc. induction a as [|y a IH].
  - simpl. destruct (rstrip_char x b); [rewrite Hc|]; reflexivity.
  - change ((y :: a) ++ c :: b) with (y :: (a ++ c :: b)).
    cbn [rstrip_char]. rewrite IH. destruct a; reflexivity.
Qed.

Lemma rstrip_space_end (s : str) (c : char) :
  is_space c = true -> rstrip (s ++ [c]) = rstrip s.
Proof.
  intros Hc. induction s as [|x s IH].
  - simpl. rewrite Hc. reflexivity.
  - change ((x :: s) ++ [c]) with (x :: (s ++ [c])).
    rewrite !rstrip_cons, IH. reflexivity.
Qed.

Lemma rstrip_char_line_feed (x : char) (a : str) :
  (10 =? x)%N = false -> rstrip_char x (a ++ nl) = a ++ nl.
Proof. intros H. exact (rstrip_char_after x 10%N a [] H). Qed.

(** A tail made of the stripped character only is removed. *)
Lemma rstrip_char_tail (x : char) (a q : str) :
  rstrip_char x q = [] -> rstrip_char x (a ++ q) = rstrip_char x a.
Proof.
  intros Hq. induction a as [|y a IH]; [exact Hq|].
  change ((y :: a) ++ q) with (y :: (a ++ q)).
  cbn [rstrip_char]. rewrite IH. reflexivity.
Qed.

Lemma lstrip_char_app (x : char) (p rest : str) :
  lstrip_char x p <> [] ->
  lstrip_char x (p ++ rest) = lstrip_char x p ++ rest.
Proof.
  induction p as [|c p IH]; [simpl; congruence|]. simpl.
  destruct (c =? x)%N; [exact IH|reflexivity].
Qed.

Lemma rstrip_app_fixed (a q : str) :
  rstrip q = q -> q <> [] -> rstrip (a ++ q) = a ++ q.
Proof.
  intros Hq Hne. induction a as [|y a IH]; [exact Hq|].
  change ((y :: a) ++ q) with (y :: (a ++ q)).
  rewrite rstrip_cons, IH. destruct a as [|z a]; [|reflexivity].
  destruct q; [congruence|reflexivity].
Qed.

Lemma lstrip_app_fixed (p rest : str) :
  lstrip p = p -> p <> [] -> lstrip (p ++ rest) = p ++ rest.
Proof.
  destruct p as [|c p]; [congruence|]. intros Hp _.
  assert (Hc := lstrip_head _ _ _ Hp).
  simpl. rewrite Hc. reflexivity.
Qed.

(** A text between two stripped, non-empty texts is its own [strip]. *)
Lemma strip_wrapped (p mid q : str) :
  strip p = p -> p <> [] -> strip q = q -> q <> [] ->
  strip (p ++ mid ++ q) = p ++ mid ++ q.
Proof.
  intros Hp Hpne Hq Hqne. unfold strip.
  rewrite app_assoc, rstrip_app_fixed, <- app_assoc.
  - apply lstrip_app_fixed; [|exact Hpne].
    transitivity (lstrip (strip p)); [rewrite Hp; reflexivity|].
    unfold strip. rewrite lstrip_idem. exact Hp.
  - rewrite <- Hq. apply rstrip_strip.
  - exact Hqne.
Qed.

Lemma strip_line_feed (s : str) : strip (s ++ nl) = strip s.
Proof.
  unfold strip. f_equal. apply rstrip_space_end. reflexivity.
Qed.

Lemma remove_first_head (old s : str) :
  old <> [] -> remove_first old (old ++ s) = s.
Proof.
  destruct old as [|c old]; [congruence|]. intros _.
  change ((c :: old) ++ s) with (c :: (old ++ s)).
  cbn [remove_first].
  change (c :: (old ++ s)) with ((c :: old) ++ s).
  rewrite startswith_app. apply drop_app_length.
Qed.

(** The cleaning of a fenced answer. *)
Lemma strip_fence_fenced (body : str) :
  strip_fence (strip (lit "```json" ++ nl ++ body ++ nl ++ lit "```"))
  = strip body.
Proof.
  assert (Eshape : lit "```json" ++ nl ++ body ++ nl ++ lit "```"
                   = lit "```json" ++ (nl ++ body ++ nl) ++ lit "```")
    by (rewrite <- !app_assoc; reflexivity).
  rewrite Eshape.
  rewrite strip_wrapped;
    [|vm_compute; reflexivity|intros H; vm_compute in H; discriminate H
     |vm_compute; reflexivity|intros H; vm_compute in H; discriminate H].
  unfold strip_fence.
  rewrite (startswith_app_l (lit "```") (lit "```json"))
    by (vm_compute; reflexivity).
  unfold strip_char.
  rewrite (app_assoc (lit "```json")).
  rewrite rstrip_char_tail by (vm_compute; reflexivity).
  rewrite !app_assoc.
  rewrite rstrip_char_line_feed by reflexivity.
  rewrite <- !app_assoc.
  rewrite lstrip_char_app
    by (intros H; vm_compute in H; discriminate H).
  replace (lstrip_char 96%N (lit "```json")) with (lit "json")
    by (vm_compute; reflexivity).
  rewrite (app_assoc (lit "json") nl).
  rewrite remove_first_head
    by (intros H; vm_compute in H; discriminate H).
  apply strip_line_feed.
Qed.

(** X27: an answer fenced as a [json] code block is unwrapped: when the
    text between the fence lines, stripped, is valid JSON, the extractor
    returns exactly that stripped text. *)
Theorem extract_fenced_answer (room : loads_call -> nat) (body : str)
  (value : json) :
  loads (room extract_loads) (strip body) = Ok value ->
  _extract_first_json_object room
    (lit "```json" ++ nl ++ body ++ nl ++ lit "```")
  = Ok (strip body).
Proof.
  intros Hloads. unfold _extract_first_json_object.
  rewrite strip_fence_fenced, Hloads. reflexivity.
Qed.

Lemma extract_fenced_answer_witness :
  _extract_first_json_object ample_room
    (lit "```json" ++ nl ++ litq " {`a`: [1, 2]}  " ++ nl ++ lit "```")
  = Ok (litq "{`a`: [1, 2]}").
Proof.
  replace (litq "{`a`: [1, 2]}") with (strip (litq " {`a`: [1, 2]}  "))
    by (vm_compute; reflexivity).
  eapply extract_fenced_answer. vm_compute. reflexivity.
Defined.
End FencedAnswers.
